(** * GridX: synthetic signal generator and threshold alerting engine

    A shallow embedding of the computational core of the GridX dashboard
    scripts ([script.js], the baseline variant, and the converter-aware
    variant with DC-DC boost converter analytics) together with the
    properties established about it.

    JavaScript numbers are IEEE-754 binary64 values.  They are modelled
    bit-exactly by the [spec_float] type of the standard library with
    [prec = 53] and [emax = 1024], so every arithmetic step of the source
    rounds exactly as it does in a JavaScript engine. *)

From Stdlib Require Import ZArith List Bool String Lia.
From Stdlib Require Import Floats.SpecFloat.
Import ListNotations.

Open Scope Z_scope.

(** ** JavaScript numbers *)

Module JS.

Abbreviation number := spec_float.

Definition prec : Z := 53.
Definition emax : Z := 1024.

Definition add : number -> number -> number := SFadd prec emax.
Definition sub : number -> number -> number := SFsub prec emax.
Definition mul : number -> number -> number := SFmul prec emax.
Definition div : number -> number -> number := SFdiv prec emax.

(** [x < y], [x > y], [x <= y], [x >= y]: false as soon as one side is NaN. *)
Definition lt (x y : number) : bool := SFltb x y.
Definition gt (x y : number) : bool := SFltb y x.
Definition le (x y : number) : bool := SFleb x y.
Definition ge (x y : number) : bool := SFleb y x.

(** [x === y] and [x !== y] on numbers. *)
Definition strict_eq (x y : number) : bool := SFeqb x y.
Definition strict_ne (x y : number) : bool := negb (SFeqb x y).

(** The number denoted by an integer (exact below 2^53). *)
Definition ofZ (n : Z) : number := binary_normalize prec emax n 0 false.

(** Decimal literals denote the double nearest to their exact value; the
    quotient of two exactly representable integers is that double. *)
Definition of_decimal (d : Decimal.decimal) : option number :=
  match d with
  | Decimal.Decimal i f =>
      let n := Z.of_int (Decimal.app_int i f) in
      let k := 10 ^ Z.of_nat (Decimal.nb_digits f) in
      if (Z.abs n <? 2 ^ prec) && (k <? 2 ^ prec)
      then Some (div (ofZ n) (ofZ k))
      else None
  | Decimal.DecimalExp _ _ _ => None
  end.

Definition of_number (n : Number.number) : option number :=
  match n with
  | Number.Decimal d => of_decimal d
  | Number.Hexadecimal _ => None
  end.

Definition to_number (x : number) : option Number.number := None.

(** ToBoolean on a number: [NaN], [+0] and [-0] are falsy. *)
Definition truthy (x : number) : bool :=
  match x with
  | S754_nan | S754_zero _ => false
  | S754_infinity _ | S754_finite _ _ _ => true
  end.

Definition Math_abs : number -> number := SFabs.

(** [Math.max(a, b)] and [Math.min(a, b)]: NaN is contagious and [+0] is
    larger than [-0]. *)
Definition Math_max (a b : number) : number :=
  match SFcompare a b with
  | None => S754_nan
  | Some Lt => b
  | Some Gt => a
  | Some Eq =>
      match a, b with
      | S754_zero true, S754_zero false => b
      | _, _ => a
      end
  end.

Definition Math_min (a b : number) : number :=
  match SFcompare a b with
  | None => S754_nan
  | Some Lt => a
  | Some Gt => b
  | Some Eq =>
      match a, b with
      | S754_zero false, S754_zero true => b
      | _, _ => a
      end
  end.

(** The integer [floor (x + 1/2)] of a finite value [(-1)^s * m * 2^e]
    with [e < 0], and the number it denotes; a zero result keeps the sign
    of the argument. *)
Definition signed (s : bool) (m : positive) : Z := cond_Zopp s (Zpos m).

Definition integral (s : bool) (n : Z) : number :=
  if n =? 0 then S754_zero s else ofZ n.

(** [Math.round]: nearest integer, ties towards +infinity. *)
Definition Math_round (x : number) : number :=
  match x with
  | S754_finite s m e =>
      if 0 <=? e then x
      else integral s ((2 * signed s m + 2 ^ (- e)) / 2 ^ (1 - e))
  | _ => x
  end.

(** [Math.floor]. *)
Definition Math_floor (x : number) : number :=
  match x with
  | S754_finite s m e =>
      if 0 <=? e then x
      else integral s (signed s m / 2 ^ (- e))
  | _ => x
  end.

End JS.

Export JS.

Declare Scope js_scope.
Delimit Scope js_scope with js.
Number Notation spec_float JS.of_number JS.to_number : js_scope.
Infix "+" := JS.add : js_scope.
Infix "-" := JS.sub : js_scope.
Infix "*" := JS.mul : js_scope.
Infix "/" := JS.div : js_scope.
Infix "<" := JS.lt : js_scope.
Infix ">" := JS.gt : js_scope.
Infix "<=" := JS.le : js_scope.
Infix ">=" := JS.ge : js_scope.
Infix "===" := JS.strict_eq (at level 70) : js_scope.
Infix "!==" := JS.strict_ne (at level 70) : js_scope.

(** ** Configuration *)

Record range := { min : number; max : number }.

Record config := {
  UPDATE_INTERVAL : number;
  MAX_DATA_POINTS : nat;
  GENERATION_RANGE : range;
  CONSUMPTION_RANGE : range;
  BATTERY_RANGE : range;
  INPUT_VOLTAGE_RANGE : range;
  OUTPUT_VOLTAGE_RANGE : range;
  INPUT_CURRENT_RANGE : range;
  OUTPUT_CURRENT_RANGE : range;
  EFFICIENCY_RANGE : range;
  DUTY_CYCLE_RANGE : range
}.

(** The converter-aware script extends the baseline [CONFIG] with the
    converter ranges; the shared entries are identical in both. *)
Definition CONFIG : config := {|
  UPDATE_INTERVAL := 5000%js;
  MAX_DATA_POINTS := 20%nat;
  GENERATION_RANGE := {| min := 8.5%js; max := 15.2%js |};
  CONSUMPTION_RANGE := {| min := 6.8%js; max := 12.5%js |};
  BATTERY_RANGE := {| min := 45%js; max := 95%js |};
  INPUT_VOLTAGE_RANGE := {| min := 10.0%js; max := 15.0%js |};
  OUTPUT_VOLTAGE_RANGE := {| min := 20.0%js; max := 28.0%js |};
  INPUT_CURRENT_RANGE := {| min := 1.0%js; max := 4.0%js |};
  OUTPUT_CURRENT_RANGE := {| min := 0.8%js; max := 2.5%js |};
  EFFICIENCY_RANGE := {| min := 85%js; max := 96%js |};
  DUTY_CYCLE_RANGE := {| min := 40%js; max := 65%js |}
|}.

Definition Math_PI : number := 3.141592653589793%js.

(** ** Data model *)

(** Values of optional numeric payload fields. *)
Inductive jsval :=
| JUndefined
| JNull
| JNum (x : number).

(** [v || d] for a numeric default [d]. *)
Definition or_default (v : jsval) (d : number) : number :=
  match v with
  | JNum x => if truthy x then x else d
  | JUndefined | JNull => d
  end.

(** [v !== undefined]. *)
Definition defined (v : jsval) : bool :=
  match v with
  | JUndefined => false
  | JNull | JNum _ => true
  end.

(** [Number(v)]. *)
Definition Number_of (v : jsval) : number :=
  match v with
  | JUndefined => S754_nan
  | JNull => 0%js
  | JNum x => x
  end.

Module Converter.
Record t := mk {
  inputVoltage : number;
  outputVoltage : number;
  inputCurrent : number;
  outputCurrent : number;
  outputPower : number;
  dutyCycle : number;
  efficiency : number
}.
End Converter.

(** A reading; [C] is the type of its [converter] member ([unit] for the
    objects that have none: baseline readings and chart data points). *)
Module Reading.
Record t (C : Type) := mk {
  generation : number;
  consumption : number;
  batteryLevel : number;
  timestamp : number;
  efficiency : number;
  converter : C
}.
Arguments mk {C}.
Arguments generation {C}.
Arguments consumption {C}.
Arguments batteryLevel {C}.
Arguments timestamp {C}.
Arguments efficiency {C}.
Arguments converter {C}.
End Reading.

Inductive alert_type := warning | error | info.
Inductive alert_severity := low | medium | high.

(** A description is a template literal: text interleaved with the numbers
    substituted into it. *)
Inductive fragment :=
| Text (s : string)
| Value (x : number).

Module Draft.
Record t := mk {
  type : alert_type;
  title : string;
  description : list fragment;
  severity : alert_severity
}.
End Draft.

Module Alert.
Record t := mk {
  id : number;
  type : alert_type;
  title : string;
  description : list fragment;
  timestamp : number;
  severity : alert_severity
}.
End Alert.

(** [{ id: ..., ...draft, timestamp: ... }] *)
Definition stamp (id : number) (d : Draft.t) (timestamp : number) : Alert.t :=
  Alert.mk id (Draft.type d) (Draft.title d) (Draft.description d) timestamp
           (Draft.severity d).

(** The draft an alert was made from. *)
Definition draft_of (a : Alert.t) : Draft.t :=
  Draft.mk (Alert.type a) (Alert.title a) (Alert.description a)
           (Alert.severity a).

Module ChartData.
Record t := mk {
  labels : list string;
  generation : list number;
  consumption : list number
}.
End ChartData.

(** The source of [Math.random()]: an infinite sequence of draws and the
    number of draws consumed so far. *)
Record rng := { stream : nat -> number; pos : nat }.

Definition Math_random (g : rng) : number * rng :=
  (stream g (pos g), {| stream := stream g; pos := S (pos g) |}).

(** A draw is a number with positive sign, at least [+0] and below 1. *)
Definition unit_draw (r : number) : bool :=
  valid_binary prec emax r &&
  match r with
  | S754_zero s => negb s
  | S754_finite s _ _ => negb s && (r < 1)%js
  | S754_infinity _ | S754_nan => false
  end.

Definition fair (g : rng) : Prop := forall i, unit_draw (stream g i) = true.

(** A partially populated reading handed to [updateDashboardWithRealData].
    A falsy [converter] is [None]; an absent [systemStatus] is [None]. *)
Module ConverterPayload.
Record t := mk {
  inputVoltage : jsval;
  outputVoltage : jsval;
  inputCurrent : jsval;
  outputCurrent : jsval;
  outputPower : jsval;
  dutyCycle : jsval;
  efficiency : jsval
}.
End ConverterPayload.

Module Payload.
Record t := mk {
  generation : jsval;
  consumption : jsval;
  batteryLevel : jsval;
  efficiency : jsval;
  converter : option ConverterPayload.t;
  systemStatus : option string;
  timestamp : jsval
}.
End Payload.

(** ** Rendering sinks and process state *)

(** What the scripts write into an element. *)
Inductive text :=
| Fixed1 (x : number)               (* [Number(x).toFixed(1)] *)
| Plain (v : jsval)                 (* the value itself *)
| Suffixed (v : jsval) (u : string) (* [v + u] *).

(** Calls made to the rendering layer. *)
Inductive dom_call :=
| UpdateMetricCard (type : string) (value : text)
| UpdateBatteryIndicator (batteryLevel : jsval)
| SetTextContent (elementId : string) (content : text)
| AnimateMetricValue (elementId : string) (newValue : jsval)
| UpdateSystemStatus (status : string)
| UpdateSystemTimestamp
| UpdateGenerationTrend (currentGeneration : number)
| RenderAlerts
| ChartUpdate.

(** The module-level variables of the scripts, the part of the page they
    read back, the clock and the random source.  [voltageGauge] and
    [efficiencyGauge] hold the value of the gauge when it was created;
    [storageText] is the content of [#storage-value] when the element
    exists; [dom] lists the calls to the rendering layer, latest first. *)
Record world := {
  systemAlerts : list Alert.t;
  chartData : ChartData.t;
  energyChart : bool;
  voltageGauge : option jsval;
  efficiencyGauge : option jsval;
  storageText : option text;
  dom : list dom_call;
  clock : number;
  random : rng
}.

Definition set_systemAlerts (l : list Alert.t) (w : world) : world :=
  {| systemAlerts := l; chartData := chartData w; energyChart := energyChart w;
     voltageGauge := voltageGauge w; efficiencyGauge := efficiencyGauge w;
     storageText := storageText w; dom := dom w; clock := clock w;
     random := random w |}.

Definition set_chartData (c : ChartData.t) (w : world) : world :=
  {| systemAlerts := systemAlerts w; chartData := c; energyChart := energyChart w;
     voltageGauge := voltageGauge w; efficiencyGauge := efficiencyGauge w;
     storageText := storageText w; dom := dom w; clock := clock w;
     random := random w |}.

Definition set_voltageGauge (v : option jsval) (w : world) : world :=
  {| systemAlerts := systemAlerts w; chartData := chartData w;
     energyChart := energyChart w;
     voltageGauge := v; efficiencyGauge := efficiencyGauge w;
     storageText := storageText w; dom := dom w; clock := clock w;
     random := random w |}.

Definition set_efficiencyGauge (v : option jsval) (w : world) : world :=
  {| systemAlerts := systemAlerts w; chartData := chartData w;
     energyChart := energyChart w;
     voltageGauge := voltageGauge w; efficiencyGauge := v;
     storageText := storageText w; dom := dom w; clock := clock w;
     random := random w |}.

Definition set_storageText (t : option text) (w : world) : world :=
  {| systemAlerts := systemAlerts w; chartData := chartData w;
     energyChart := energyChart w;
     voltageGauge := voltageGauge w; efficiencyGauge := efficiencyGauge w;
     storageText := t; dom := dom w; clock := clock w;
     random := random w |}.

Definition set_random (g : rng) (w : world) : world :=
  {| systemAlerts := systemAlerts w; chartData := chartData w;
     energyChart := energyChart w;
     voltageGauge := voltageGauge w; efficiencyGauge := efficiencyGauge w;
     storageText := storageText w; dom := dom w; clock := clock w;
     random := g |}.

Definition call (c : dom_call) (w : world) : world :=
  {| systemAlerts := systemAlerts w; chartData := chartData w;
     energyChart := energyChart w;
     voltageGauge := voltageGauge w; efficiencyGauge := efficiencyGauge w;
     storageText := storageText w; dom := c :: dom w; clock := clock w;
     random := random w |}.

(** The integer a number denotes, when it denotes one. *)
Definition toZ (x : number) : option Z :=
  match x with
  | S754_zero _ => Some 0
  | S754_finite s m e =>
      if 0 <=? e then Some (signed s m * 2 ^ e)
      else if (Zpos m) mod 2 ^ (- e) =? 0 then Some (signed s m / 2 ^ (- e))
      else None
  | S754_infinity _ | S754_nan => None
  end.

(** [a[i]]: [None] stands for [undefined]. *)
Definition element {A : Type} (a : list A) (i : number) : option A :=
  match toZ i with
  | Some n => if 0 <=? n then nth_error a (Z.to_nat n) else None
  | None => None
  end.

(** [a.length] *)
Definition length_of {A : Type} (a : list A) : number := ofZ (Z.of_nat (List.length a)).

(** The two observed scripts. *)
Inductive variant := Baseline | ConverterAware.

(** ** The scripts *)

Bind Scope js_scope with spec_float.

Section Dashboard.

(** Host functions the scripts call and whose results they only pass on:
    [Math.sin], [Date.prototype.getHours],
    [Date.prototype.toLocaleTimeString] with the options of
    [updateChartData], and [parseInt(., 10)] on the text of an element. *)
Variable Math_sin : number -> number.
Variable getHours : number -> number.
Variable toLocaleTimeString : number -> string.
Variable parseInt_text : text -> number.

Local Open Scope js_scope.

(** *** Alert store *)

(** The demo alerts [systemAlerts] starts with, in the converter-aware
    script ([now] is [Date.now()] at load time). *)
Definition initialAlerts (now : number) : list Alert.t :=
  [ Alert.mk 1 warning "DC-DC Converter Efficiency Low"
      [Text "Boost converter efficiency has dropped to 89%. Check switching frequency and inductor."]
      (now - 3600000) medium;
    Alert.mk 2 error "Output Voltage Regulation"
      [Text "Output voltage showing fluctuations beyond ±2% tolerance."]
      (now - 7200000) high;
    Alert.mk 3 info "Duty Cycle Optimization"
      [Text "System operating at optimal duty cycle for current load conditions."]
      (now - 86400000) low ].

Definition renderAlerts (w : world) : world := call RenderAlerts w.

Definition dismissAlert (alertId : number) (w : world) : world :=
  renderAlerts
    (set_systemAlerts
       (filter (fun alert => Alert.id alert !== alertId) (systemAlerts w)) w).

Definition clearAlerts (w : world) : world :=
  renderAlerts (set_systemAlerts [] w).

(** *** Random alert injection *)

Definition alertTypes (v : variant) : list Draft.t :=
  match v with
  | ConverterAware =>
      [ Draft.mk warning "DC-DC Converter Temperature"
          [Text "Boost converter operating temperature slightly elevated. Monitor thermal management."]
          medium;
        Draft.mk info "Optimal Load Condition"
          [Text "DC-DC converter operating at peak efficiency range."] low;
        Draft.mk error "Output Voltage Ripple"
          [Text "Output voltage ripple exceeding 2%. Check output capacitors."]
          high;
        Draft.mk warning "Duty Cycle Limit"
          [Text "Operating near maximum duty cycle. Consider input voltage regulation."]
          medium;
        Draft.mk info "Switching Frequency Stable"
          [Text "PWM switching frequency maintaining optimal performance."] low;
        Draft.mk error "Input Current Surge"
          [Text "Input current spike detected. Check input filtering and protection."]
          high ]
  | Baseline =>
      [ Draft.mk warning "High Energy Demand"
          [Text "Energy consumption is above normal levels for this time of day."]
          medium;
        Draft.mk info "Weather Update"
          [Text "Favorable wind conditions expected for next 6 hours."] low;
        Draft.mk error "Communication Error"
          [Text "Lost connection to remote sensor node #3."] high;
        Draft.mk warning "Battery Temperature"
          [Text "Battery temperature slightly elevated. Monitoring closely."]
          medium ]
  end.

(** The chance of an injection on one update: 8% in the converter-aware
    script, 10% in the baseline. *)
Definition chance (v : variant) : number :=
  match v with
  | ConverterAware => 0.08
  | Baseline => 0.1
  end.

(** The identifier of an injected alert: [Date.now() +
    Math.floor(Math.random() * 1000)] in the converter-aware script,
    [Date.now()] in the baseline. *)
Definition freshId (v : variant) (w : world) : number * world :=
  match v with
  | ConverterAware =>
      let '(r, g) := Math_random (random w) in
      (clock w + Math_floor (r * 1000), set_random g w)
  | Baseline => (clock w, w)
  end.

(** Spreading [undefined] adds no member; the fields of such an alert read
    [undefined], which this draft stands for. *)
Definition undefinedDraft : Draft.t := Draft.mk info "undefined" [] low.

Definition generateRandomAlert (v : variant) (w : world) : world :=
  if (List.length (systemAlerts w) <? 5)%nat then
    (* [&&] draws only when the first test holds *)
    let '(r, g) := Math_random (random w) in
    let w := set_random g w in
    if r < chance v then
      let '(r', g') := Math_random (random w) in
      let w := set_random g' w in
      let randomAlert :=
        match element (alertTypes v)
                      (Math_floor (r' * length_of (alertTypes v))) with
        | Some a => a
        | None => undefinedDraft
        end in
      let '(id, w) := freshId v w in
      let newAlert := stamp id randomAlert (clock w) in
      renderAlerts (set_systemAlerts (newAlert :: systemAlerts w) w)
    else w
  else w.

(** *** Converter alert evaluation *)

(** The array [alerts] that [checkConverterAlerts] builds from the
    converter reading. *)
Definition converterAlerts (converterData : Converter.t) : list Draft.t :=
  let targetVoltage := 24.0 in
  let voltageTolerance := 0.48 in
  (if Converter.efficiency converterData < 85 then
     [ Draft.mk error "Critical Efficiency Drop"
         [Text "Converter efficiency at ";
          Value (Converter.efficiency converterData);
          Text "%. Check components."]
         high ]
   else []) ++
  (if Math_abs (Converter.outputVoltage converterData - targetVoltage)
        > voltageTolerance then
     [ Draft.mk warning "Output Voltage Out of Range"
         [Text "Output voltage ";
          Value (Converter.outputVoltage converterData);
          Text "V outside ±2% tolerance."]
         medium ]
   else []) ++
  (if Converter.dutyCycle converterData > 90 then
     [ Draft.mk error "Critical Duty Cycle"
         [Text "Duty cycle at ";
          Value (Converter.dutyCycle converterData);
          Text "%. Risk of instability."]
         high ]
   else []).

(** [alerts.forEach(alert => { ...; systemAlerts.unshift(newAlert) })] *)
Fixpoint addAlerts (alerts : list Draft.t) (w : world) : world :=
  match alerts with
  | [] => w
  | alert :: rest =>
      let '(r, g) := Math_random (random w) in
      let w := set_random g w in
      let newAlert :=
        stamp (clock w + Math_floor (r * 1000)) alert (clock w) in
      addAlerts rest (set_systemAlerts (newAlert :: systemAlerts w) w)
  end.

Definition checkConverterAlerts (converterData : Converter.t) (w : world)
  : world :=
  let alerts := converterAlerts converterData in
  let w := addAlerts alerts w in
  if (0 <? List.length alerts)%nat then renderAlerts w else w.

(** *** Signal generator *)

(** [storageEl ? parseInt(storageEl.textContent, 10) || 75 : 75] *)
Definition currentBattery (w : world) : number :=
  match storageText w with
  | Some t => let v := parseInt_text t in if truthy v then v else 75
  | None => 75
  end.

(** [Math.round(x * 10) / 10] *)
Definition round1 (x : number) : number := Math_round (x * 10) / 10.

(** The converter-aware [generateSensorData]. *)
Definition generateSensorData (w : world) : Reading.t Converter.t * world :=
  let now := clock w in
  let hour := getHours now in
  let generationBase :=
    if (hour >= 6) && (hour <= 18) then
      let solarFactor := Math_sin ((hour - 6) * Math_PI / 12) in
      min (GENERATION_RANGE CONFIG) +
      (max (GENERATION_RANGE CONFIG) - min (GENERATION_RANGE CONFIG))
      * solarFactor
    else min (GENERATION_RANGE CONFIG) in
  let '(r, g) := Math_random (random w) in
  let generation := generationBase + (r - 0.5) * 2 in
  let consumptionBase :=
    if (hour >= 7) && (hour <= 22) then
      min (CONSUMPTION_RANGE CONFIG) +
      (max (CONSUMPTION_RANGE CONFIG) - min (CONSUMPTION_RANGE CONFIG)) * 0.7
    else min (CONSUMPTION_RANGE CONFIG) in
  let '(r, g) := Math_random g in
  let consumption := consumptionBase + (r - 0.5) * 2 in
  let energyBalance := generation - consumption in
  let newBatteryLevel := currentBattery w + energyBalance * 2 in
  let newBatteryLevel :=
    Math_max (min (BATTERY_RANGE CONFIG))
             (Math_min (max (BATTERY_RANGE CONFIG)) newBatteryLevel) in
  let '(r, g) := Math_random g in
  let inputVoltage :=
    min (INPUT_VOLTAGE_RANGE CONFIG) +
    (max (INPUT_VOLTAGE_RANGE CONFIG) - min (INPUT_VOLTAGE_RANGE CONFIG))
    * (0.8 + r * 0.4) in
  let '(r, g) := Math_random g in
  let outputVoltage :=
    min (OUTPUT_VOLTAGE_RANGE CONFIG) +
    (max (OUTPUT_VOLTAGE_RANGE CONFIG) - min (OUTPUT_VOLTAGE_RANGE CONFIG))
    * (0.7 + r * 0.3) in
  let inputCurrent :=
    min (INPUT_CURRENT_RANGE CONFIG) +
    (max (INPUT_CURRENT_RANGE CONFIG) - min (INPUT_CURRENT_RANGE CONFIG))
    * (consumption / max (CONSUMPTION_RANGE CONFIG)) in
  let outputCurrent := inputCurrent * (inputVoltage / outputVoltage) * 0.92 in
  let outputPower := outputVoltage * outputCurrent in
  let dutyCycle :=
    Math_min (max (DUTY_CYCLE_RANGE CONFIG))
             (Math_max (min (DUTY_CYCLE_RANGE CONFIG))
                       ((1 - inputVoltage / outputVoltage) * 100)) in
  let baseEfficiency := max (EFFICIENCY_RANGE CONFIG) in
  let loadFactor := outputCurrent / max (OUTPUT_CURRENT_RANGE CONFIG) in
  let optimalLoad := 0.7 in
  let loadEfficiency := 1 - Math_abs (loadFactor - optimalLoad) * 0.1 in
  let '(r, g) := Math_random g in
  let converterEfficiency :=
    Math_max (min (EFFICIENCY_RANGE CONFIG))
             (baseEfficiency * loadEfficiency + (r - 0.5) * 2) in
  let '(r, g) := Math_random g in
  (Reading.mk
     (Math_max 0 generation)
     (Math_max 0 consumption)
     (Math_round newBatteryLevel)
     now
     (Math_round (92 + r * 6))
     (Converter.mk
        (round1 inputVoltage)
        (round1 outputVoltage)
        (round1 inputCurrent)
        (round1 outputCurrent)
        (round1 outputPower)
        (round1 dutyCycle)
        (round1 converterEfficiency)),
   set_random g w).

(** The converter member of the reading generated in state [w]. *)
Definition generated (w : world) : Converter.t :=
  Reading.converter (fst (generateSensorData w)).

(** *** Chart data *)

Definition updateChartData {C : Type} (data : Reading.t C) (w : world)
  : world :=
  let timeLabel := toLocaleTimeString (Reading.timestamp data) in
  (* push *)
  let labels := ChartData.labels (chartData w) ++ [timeLabel] in
  let generation :=
    ChartData.generation (chartData w) ++ [Reading.generation data] in
  let consumption :=
    ChartData.consumption (chartData w) ++ [Reading.consumption data] in
  (* shift *)
  let c :=
    if (MAX_DATA_POINTS CONFIG <? List.length labels)%nat
    then ChartData.mk (tl labels) (tl generation) (tl consumption)
    else ChartData.mk labels generation consumption in
  let w := set_chartData c w in
  if energyChart w then call ChartUpdate w else w.

(** *** Display updates *)

Definition updateMetricCard (type : string) (value : text) (w : world)
  : world :=
  let w := call (UpdateMetricCard type value) w in
  if String.eqb type "storage" then
    match storageText w with
    | Some _ => set_storageText (Some value) w
    | None => w
    end
  else w.

Definition when (b : bool) (f : world -> world) (w : world) : world :=
  if b then f w else w.

(** [updateConverterMetrics], on the converter member of a payload. *)
Definition updateConverterMetrics
           (inputVoltage inputCurrent outputCurrent outputPower
            dutyCycle : jsval) (w : world) : world :=
  let w := when (defined inputVoltage)
                (call (AnimateMetricValue "input-voltage" inputVoltage)) w in
  let w := when (defined inputCurrent)
                (call (AnimateMetricValue "input-current" inputCurrent)) w in
  let w := when (defined outputCurrent)
                (call (AnimateMetricValue "output-current" outputCurrent)) w in
  let w := when (defined outputPower)
                (call (AnimateMetricValue "output-power" outputPower)) w in
  when (defined dutyCycle)
       (call (AnimateMetricValue "duty-cycle" dutyCycle)) w.

Definition setVoltageGauge (v : jsval) (w : world) : world :=
  match voltageGauge w with
  | Some _ =>
      call (SetTextContent "voltage-display" (Suffixed v " V"))
           (set_voltageGauge (Some v) w)
  | None => w
  end.

Definition setEfficiencyGauge (v : jsval) (w : world) : world :=
  match efficiencyGauge w with
  | Some _ =>
      call (SetTextContent "efficiency-display" (Suffixed v " %"))
           (set_efficiencyGauge (Some v) w)
  | None => w
  end.

(** The converter-aware [updateDashboard]: one tick of the synthetic
    pipeline. *)
Definition updateDashboard (w : world) : world :=
  let '(data, w) := generateSensorData w in
  let w := call (UpdateSystemStatus "ACTIVE") w in
  let w := call UpdateSystemTimestamp w in
  let w := updateMetricCard "generation" (Fixed1 (Reading.generation data)) w in
  let w := updateMetricCard "consumption" (Fixed1 (Reading.consumption data)) w in
  let w := updateMetricCard "storage" (Plain (JNum (Reading.batteryLevel data))) w in
  let w := call (UpdateBatteryIndicator (JNum (Reading.batteryLevel data))) w in
  let w := call (SetTextContent "efficiency-value"
                   (Suffixed (JNum (Reading.efficiency data)) "%")) w in
  let w := call (UpdateGenerationTrend (Reading.generation data)) w in
  let c := Reading.converter data in
  let w := updateConverterMetrics
             (JNum (Converter.inputVoltage c)) (JNum (Converter.inputCurrent c))
             (JNum (Converter.outputCurrent c)) (JNum (Converter.outputPower c))
             (JNum (Converter.dutyCycle c)) w in
  let w := setVoltageGauge (JNum (Converter.outputVoltage c)) w in
  let w := setEfficiencyGauge (JNum (Converter.efficiency c)) w in
  let w := updateChartData data w in
  checkConverterAlerts c w.

(** The callback [startDataUpdates] installs, in the converter-aware
    script. *)
Definition dataUpdate (w : world) : world :=
  generateRandomAlert ConverterAware (updateDashboard w).

(** *** External readings *)

(** A call either completes or throws, in the state reached so far. *)
Inductive outcome :=
| Done (w : world)
| Threw (w : world).

(** The object [chartDataPoint] of [updateDashboardWithRealData]
    ([chartData] in the baseline script). *)
Definition chartDataPoint (data : Payload.t) (w : world) : Reading.t unit :=
  Reading.mk
    (or_default (Payload.generation data) 0)
    (or_default (Payload.consumption data) 0)
    (or_default (Payload.batteryLevel data) 0)
    (or_default (Payload.timestamp data) (clock w))
    (or_default (Payload.efficiency data) 95)
    tt.

(** The converter-aware [updateDashboardWithRealData]. *)
Definition updateDashboardWithRealData (data : Payload.t) (w : world)
  : world :=
  let w := when (defined (Payload.generation data))
             (updateMetricCard "generation"
                (Fixed1 (Number_of (Payload.generation data)))) w in
  let w := when (defined (Payload.consumption data))
             (updateMetricCard "consumption"
                (Fixed1 (Number_of (Payload.consumption data)))) w in
  let w := when (defined (Payload.batteryLevel data))
             (fun w =>
                call (UpdateBatteryIndicator (Payload.batteryLevel data))
                  (updateMetricCard "storage"
                     (Plain (Payload.batteryLevel data)) w)) w in
  let w := when (defined (Payload.efficiency data))
             (call (SetTextContent "efficiency-value"
                      (Suffixed (Payload.efficiency data) "%"))) w in
  let w :=
    match Payload.converter data with
    | Some c =>
        let w := updateConverterMetrics
                   (ConverterPayload.inputVoltage c)
                   (ConverterPayload.inputCurrent c)
                   (ConverterPayload.outputCurrent c)
                   (ConverterPayload.outputPower c)
                   (ConverterPayload.dutyCycle c) w in
        let w := when (defined (ConverterPayload.outputVoltage c))
                   (setVoltageGauge (ConverterPayload.outputVoltage c)) w in
        when (defined (ConverterPayload.efficiency c))
             (setEfficiencyGauge (ConverterPayload.efficiency c)) w
    | None => w
    end in
  let w :=
    match Payload.systemStatus data with
    | Some status => call (UpdateSystemStatus status) w
    | None => w
    end in
  let w := updateChartData (chartDataPoint data w) w in
  call UpdateSystemTimestamp w.

(** The baseline [updateDashboardWithRealData]: [data.generation.toFixed(1)]
    throws a [TypeError] on [null]. *)
Definition updateDashboardWithRealData_baseline (data : Payload.t)
           (w : world) : outcome :=
  match Payload.generation data with
  | JNull => Threw w
  | _ =>
  let w := when (defined (Payload.generation data))
             (updateMetricCard "generation"
                (Fixed1 (Number_of (Payload.generation data)))) w in
  match Payload.consumption data with
  | JNull => Threw w
  | _ =>
  let w := when (defined (Payload.consumption data))
             (updateMetricCard "consumption"
                (Fixed1 (Number_of (Payload.consumption data)))) w in
  let w := when (defined (Payload.batteryLevel data))
             (fun w =>
                call (UpdateBatteryIndicator (Payload.batteryLevel data))
                  (updateMetricCard "storage"
                     (Plain (Payload.batteryLevel data)) w)) w in
  let w := when (defined (Payload.efficiency data))
             (call (SetTextContent "efficiency-value"
                      (Suffixed (Payload.efficiency data) "%"))) w in
  Done (updateChartData (chartDataPoint data w) w)
  end
  end.

End Dashboard.

(** ** Reference notions used in the statements *)

(** Follows the words of the specification of [removeById]: remove the first
    alert whose [id] matches, and nothing else. *)
Fixpoint removeById (id : number) (alerts : list Alert.t) : list Alert.t :=
  match alerts with
  | [] => []
  | alert :: rest =>
      if (Alert.id alert === id)%js then rest
      else alert :: removeById id rest
  end.

(** The three sequences of the chart are time-aligned and within the cap. *)
Definition aligned (c : ChartData.t) : Prop :=
  List.length (ChartData.labels c) = List.length (ChartData.generation c)
  /\ List.length (ChartData.generation c) = List.length (ChartData.consumption c)
  /\ (List.length (ChartData.labels c) <= MAX_DATA_POINTS CONFIG)%nat.


(** What a draft is recognised by: type, severity and title. *)
Definition headline (d : Draft.t) : alert_type * alert_severity * string :=
  (Draft.type d, Draft.severity d, Draft.title d).

(** The selected entries of a list of guarded items, in order. *)
Definition selected {A : Type} (items : list (bool * A)) : list A :=
  map snd (filter fst items).

(** The alerts the [forEach] of [checkConverterAlerts] makes of the drafts,
    in the order of the drafts: each gets the time [now] and the identifier
    [now + Math.floor(r * 1000)], [r] being the next draw of the random
    source, from the draw at position [p] on. *)
Fixpoint stamped (draws : nat -> number) (p : nat) (now : number)
         (drafts : list Draft.t) : list Alert.t :=
  match drafts with
  | [] => []
  | d :: rest =>
      stamp (now + Math_floor (draws p * 1000))%js d now
      :: stamped draws (S p) now rest
  end.

(** The values the two gauges show. *)
Definition gauges (w : world) : option jsval * option jsval :=
  (voltageGauge w, efficiencyGauge w).

(** The part of the state that display updates have no business with: the
    chart, the alerts, the clock and the random source. *)
Definition kept (w : world) : ChartData.t * list Alert.t * number * rng :=
  (chartData w, systemAlerts w, clock w, random w).

(** *** Sample inputs *)

(** A host in the evening: [getHours] answers 20, so [Math.sin] is not
    consulted; the label and the parsed text are the obvious ones. *)
Definition noSine (x : number) : number := S754_nan.
Definition evening (t : number) : number := 20%js.
Definition eveningLabel (t : number) : string := "20:00".
Definition parsePlain (t : text) : number :=
  match t with
  | Plain (JNum x) => x
  | _ => S754_nan
  end.

(** A random source that keeps repeating the draws of [l]. *)
Definition cycle (l : list number) : rng :=
  {| stream := fun i => nth (i mod List.length l) l 0%js; pos := 0 |}.

Definition emptyChart : ChartData.t := ChartData.mk [] [] [].

(** The state right after the page has loaded at time [1700000000000]. *)
Definition loaded (alerts : list Alert.t) (draws : list number) : world :=
  {| systemAlerts := alerts;
     chartData := emptyChart;
     energyChart := true;
     voltageGauge := Some (JNum 24.5%js);
     efficiencyGauge := Some (JNum 94.2%js);
     storageText := Some (Plain (JNum 75%js));
     dom := [];
     clock := 1700000000000%js;
     random := cycle draws |}.

Definition startWorld (draws : list number) : world :=
  loaded (initialAlerts 1700000000000%js) draws.

(** Five pending alerts: the three demo alerts and two more. *)
Definition fiveAlerts : list Alert.t :=
  map (fun d => stamp 1700000000123%js d 1700000000000%js)
      (firstn 2 (alertTypes ConverterAware))
  ++ initialAlerts 1700000000000%js.

(** One update of the converter-aware page, right after it has loaded, in
    which the voltage alert and an injected alert get the same identifier:
    six draws for the reading, 0.25 for the identifier of the voltage alert,
    0 to pass the injection test, 0.5 to pick the template, and 0.25 again
    for the identifier of the injected alert; [Date.now()] is the same
    within the update. *)
Definition collidingUpdate : world :=
  dataUpdate noSine evening eveningLabel parsePlain
    (startWorld [0.5; 0.5; 0.5; 0.5; 0.5; 0.5; 0.25; 0; 0.5; 0.25]%js).

(** A converter reading with a low efficiency and nothing else wrong. *)
Definition lowEfficiency : Converter.t :=
  Converter.mk 12%js 24.0%js 2%js 1%js 24%js 50%js 80%js.



(** ** The rest of the page *)

From Stdlib Require Import Ascii.

(** *** Alert markup *)

(** What [escapeHtml] is given: a member of an alert, which may be
    missing. *)
Inductive jstext :=
| TUndefined
| TNull
| TString (s : string).

(** [s.replace(/c/g, newSubstr)] for a single character [c]: every
    occurrence of [c], from left to right, gives way to [newSubstr]. *)
Fixpoint replaceAll (c : ascii) (newSubstr : string) (s : string) : string :=
  match s with
  | EmptyString => EmptyString
  | String a rest =>
      if Ascii.eqb a c then (newSubstr ++ replaceAll c newSubstr rest)%string
      else String a (replaceAll c newSubstr rest)
  end.

(** The double quote. *)
Definition quot : ascii := "034"%char.

(** [escapeHtml] of the converter-aware script. *)
Definition escapeHtml (unsafe : jstext) : string :=
  match unsafe with
  | TUndefined | TNull => EmptyString
  | TString s =>
      replaceAll "'"%char "&#039;"
        (replaceAll quot "&quot;"
           (replaceAll ">"%char "&gt;"
              (replaceAll "<"%char "&lt;"
                 (replaceAll "&"%char "&amp;" s))))
  end.

(** [getTimeAgo]: the template literals are kept as text around the number
    substituted; [new Date()] is the clock, and a timestamp is the time
    value of its [Date]. *)
Definition getTimeAgo (timestamp : number) (w : world) : list fragment :=
  let now := clock w in
  let diffMs := (now - timestamp)%js in
  let diffMins := Math_floor (diffMs / 60000)%js in
  let diffHours := Math_floor (diffMs / 3600000)%js in
  let diffDays := Math_floor (diffMs / 86400000)%js in
  if (diffMins < 1)%js then [Text "Just now"]
  else if (diffMins < 60)%js then [Value diffMins; Text " minutes ago"]
  else if (diffHours < 24)%js then [Value diffHours; Text " hours ago"]
  else [Value diffDays; Text " days ago"].

(** *** Converter monitoring *)

(** [calculateEfficiency] *)
Definition calculateEfficiency
           (inputVoltage inputCurrent outputVoltage outputCurrent : number)
  : number :=
  let inputPower := (inputVoltage * inputCurrent)%js in
  let outputPower := (outputVoltage * outputCurrent)%js in
  if (inputPower === 0)%js then 0%js
  else (outputPower / inputPower * 100)%js.

(** *** Indicators *)

(** The three backgrounds of the battery bar. *)
Inductive gradient :=
| RedGradient     (* linear-gradient(90deg, #ef4444, #f87171) *)
| AmberGradient   (* linear-gradient(90deg, #f59e0b, #fbbf24) *)
| BlueGradient    (* linear-gradient(90deg, #3b82f6, #60a5fa) *).

(** [updateBatteryIndicator]: the width and the background given to
    [#battery-fill] when the element exists. *)
Definition updateBatteryIndicator (batteryLevel : jsval) : text * gradient :=
  (Suffixed batteryLevel "%",
   if (Number_of batteryLevel < 20)%js then RedGradient
   else if (Number_of batteryLevel < 50)%js then AmberGradient
   else BlueGradient).

(** What [updateGenerationTrend] shows: the arrow up with [+change%], the
    arrow down with [change%], or the flat arrow with [0.0%]. *)
Inductive trend :=
| Rising (change : number)
| Falling (change : number)
| Steady.

(** [a[a.length - 1]]: the last element, [None] for [undefined] when the
    array is empty. *)
Definition lastOf {A : Type} (a : list A) : option A :=
  nth_error a (Nat.pred (List.length a)).

(** [updateGenerationTrend], when both elements exist: the converter-aware
    script guards the division and shows a change only beyond 0.01. *)
Definition updateGenerationTrend (v : variant) (currentGeneration : number)
           (w : world) : trend :=
  let prevGeneration :=
    match lastOf (ChartData.generation (chartData w)) with
    | Some p => if truthy p then p else currentGeneration
    | None => currentGeneration
    end in
  match v with
  | ConverterAware =>
      let change :=
        if (prevGeneration === 0)%js then 0%js
        else ((currentGeneration - prevGeneration) / prevGeneration * 100)%js in
      if (change > 0.01)%js then Rising change
      else if (change < SFopp 0.01)%js then Falling change
      else Steady
  | Baseline =>
      let change :=
        ((currentGeneration - prevGeneration) / prevGeneration * 100)%js in
      if (change > 0)%js then Rising change
      else if (change < 0)%js then Falling change
      else Steady
  end.

(** *** Gauges *)

Module CircularGauge.

(** The options a gauge keeps, as its constructor sets them ([x || d]). *)
Record t := mk {
  min : number;
  max : number;
  value : jsval
}.

Definition create (min max value : number) : t :=
  mk (if truthy min then min else 0%js)
     (if truthy max then max else 100%js)
     (JNum (if truthy value then value else 0%js)).

Definition setValue (value : jsval) (g : t) : t := mk (min g) (max g) value.

(** The two numbers [draw] derives from the options. *)
Definition progress (g : t) : number :=
  ((Number_of (value g) - min g) / (max g - min g))%js.

Definition endAngle (g : t) : number :=
  (0.75 * Math_PI + progress g * 1.5 * Math_PI)%js.

End CircularGauge.

(** The gauges [initializeGauges] creates, showing the value the script
    holds for them. *)
Definition voltageGaugeOf (value : jsval) : CircularGauge.t :=
  CircularGauge.setValue value (CircularGauge.create 0%js 60%js 24.5%js).

Definition efficiencyGaugeOf (value : jsval) : CircularGauge.t :=
  CircularGauge.setValue value (CircularGauge.create 0%js 100%js 94.2%js).

(** *** Periodic updates *)

(** Time passes: the clock reads [t]. *)
Definition elapse (t : number) (w : world) : world :=
  {| systemAlerts := systemAlerts w; chartData := chartData w;
     energyChart := energyChart w;
     voltageGauge := voltageGauge w; efficiencyGauge := efficiencyGauge w;
     storageText := storageText w; dom := dom w; clock := t;
     random := random w |}.

Section Page.

Variable Math_sin : number -> number.
Variable getHours : number -> number.
Variable toLocaleTimeString : number -> string.
Variable parseInt_text : text -> number.

(** The callback of [startDataUpdates] run at each of the [times], in the
    converter-aware script. *)
Definition startDataUpdates (times : list number) (w : world) : world :=
  fold_left
    (fun w t =>
       dataUpdate Math_sin getHours toLocaleTimeString parseInt_text
                  (elapse t w))
    times w.

End Page.

(** *** Reference notions *)

(** The entity [escapeHtml] writes for a character. *)
Definition entity (a : ascii) : string :=
  if Ascii.eqb a "&"%char then "&amp;"
  else if Ascii.eqb a "<"%char then "&lt;"
  else if Ascii.eqb a ">"%char then "&gt;"
  else if Ascii.eqb a quot then "&quot;"
  else if Ascii.eqb a "'"%char then "&#039;"
  else String a EmptyString.

(** A string with every character replaced by its entity, in one pass. *)
Fixpoint entities (s : string) : string :=
  match s with
  | EmptyString => EmptyString
  | String a rest => (entity a ++ entities rest)%string
  end.

(** One of the five characters [escapeHtml] replaces. *)
Definition special (a : ascii) : bool :=
  Ascii.eqb a "&"%char || Ascii.eqb a "<"%char || Ascii.eqb a ">"%char
  || Ascii.eqb a quot || Ascii.eqb a "'"%char.

(** The characters of a string. *)
Fixpoint chars (s : string) : list ascii :=
  match s with
  | EmptyString => []
  | String a rest => a :: chars rest
  end.

(** The last [n] elements of a list. *)
Definition lastn {A : Type} (n : nat) (l : list A) : list A :=
  skipn (List.length l - n) l.

(** The draft of the voltage alert for the output voltage [v]. *)
Definition voltageDraft (v : number) : Draft.t :=
  Draft.mk warning "Output Voltage Out of Range"
    [Text "Output voltage "; Value v; Text "V outside ±2% tolerance."]
    medium.

(** ** Binary64 arithmetic: the value of a number and correct rounding

    A finite number [(-1)^s * m * 2^e] is valued as the integer
    [(-1)^s * m * 2^(e + scale)]; [scale] is large enough for the exact
    product, sum and quotient of two finite numbers to be a ratio of two
    such integers.  [rnd N D] is the nonnegative ratio [N / D] rounded to
    nearest, ties to even, on the binary64 grid (exponent unbounded
    above). *)

Definition scale : Z := 2200.

Definition rhe (N D : Z) : Z :=
  let q := N / D in
  let f := N mod D in
  if 2 * f <? D then q
  else if D <? 2 * f then q + 1
  else if Z.even q then q else q + 1.

Definition digits (q : Z) : Z := if q =? 0 then 0 else Z.log2 q + 1.

Definition ulp_exp (N D : Z) : Z := Z.max (digits (N / D) - 53) (scale - 1074).

Definition rnd (N D : Z) : Z :=
  let k := ulp_exp N D in rhe N (D * 2 ^ k) * 2 ^ k.

Definition R (x : spec_float) : Z :=
  match x with
  | S754_finite s m e => cond_Zopp s (Zpos m * 2 ^ (e + scale))
  | _ => 0
  end.

Definition fin (x : spec_float) : bool :=
  match x with
  | S754_zero _ => true
  | S754_finite _ m e => bounded prec emax m e
  | S754_infinity _ | S754_nan => false
  end.

(** The record [r] holds the integer part of [N / D], whether the rest is
    at least a half, and whether it is neither nothing nor a half. *)
Definition holds (r : shr_record) (N D : Z) : Prop :=
  exists f, 0 <= f < D /\ N = shr_m r * D + f
            /\ shr_r r = (D <=? 2 * f)
            /\ shr_s r = negb ((f =? 0) || (2 * f =? D)).

(** The result [z] of a rounding step carries the sign [s] and the magnitude
    [v], or is the infinity of that sign when [v] is out of range. *)
Definition rounds_to (z : spec_float) (s : bool) (v : Z) : Prop :=
  match z with
  | S754_zero s' => s' = s /\ v = 0
  | S754_finite s' m e =>
      s' = s /\ bounded prec emax m e = true /\ Zpos m * 2 ^ (e + scale) = v
  | S754_infinity s' => s' = s /\ 2 ^ (emax + scale) <= v
  | S754_nan => False
  end.

Definition sign_of (x : spec_float) : bool :=
  match x with
  | S754_zero s | S754_infinity s | S754_finite s _ _ => s
  | S754_nan => false
  end.

(** Rounding of a signed rational with a positive denominator. *)
Definition rndZ (N D : Z) : Z := Z.sgn N * rnd (Z.abs N) D.

(** [z] is the rounding of the exact rational [N / D] (with [D] positive):
    it has the sign of [N] and its magnitude is the rounded one. *)
Definition exact (z : spec_float) (N D : Z) : Prop :=
  exists s, rounds_to z s (rnd (Z.abs N) D)
            /\ (0 < N -> s = false) /\ (N < 0 -> s = true).

(** [x] is finite and lies between the finite numbers [lo] and [hi]. *)
Definition within (lo hi x : spec_float) : Prop :=
  fin lo = true /\ fin hi = true /\ fin x = true /\ R lo <= R x <= R hi.

(** Finite and not below zero; finite and above zero. *)
Definition nonneg (x : spec_float) : bool :=
  match x with
  | S754_zero _ => true
  | S754_finite s m e => negb s && bounded prec emax m e
  | S754_infinity _ | S754_nan => false
  end.

Definition positive_number (x : spec_float) : bool :=
  match x with
  | S754_finite s m e => negb s && bounded prec emax m e
  | _ => false
  end.

(** The integer nearest to the number valued [v], ties upwards:
    [floor (v / 2 ^ scale + 1 / 2)]. *)
Definition nearest (v : Z) : Z := (2 * v + 2 ^ scale) / 2 ^ (scale + 1).

(** Half a unit in the last place of the numbers between 512 and 1024: no
    operation with a result below 1024 in magnitude errs by more. *)
Definition eps : Z := 2 ^ (scale - 44).

(** [Math.sin] maps a finite argument between -1 and 1. *)
Definition sine (Math_sin : number -> number) : Prop :=
  forall x, fin x = true -> within (-1)%js 1%js (Math_sin x).

(** The integer part [floor (v / 2 ^ scale)] of the number valued [v]. *)
Definition whole (v : Z) : Z := v / 2 ^ scale.

(** The largest number below 1. *)
Definition below_one : number := S754_finite false 9007199254740991 (-53).

(** What the host hands to the scripts are numbers: [Math.sin] stays within
    its range, [getHours] and [parseInt] return doubles. *)
Definition double (x : number) : bool := valid_binary prec emax x.

Definition host (Math_sin getHours : number -> number)
           (parseInt_text : text -> number) : Prop :=
  sine Math_sin
  /\ (forall t, double (getHours t) = true)
  /\ (forall t, double (parseInt_text t) = true).

(** * Binary64 arithmetic rounds correctly and monotonically *)


Lemma rhe_floor N D : 0 < D -> N / D <= rhe N D <= N / D + 1.
Proof.
  intros HD. unfold rhe. cbv zeta.
  destruct (2 * (N mod D) <? D); [lia|].
  destruct (D <? 2 * (N mod D)); [lia|].
  destruct (Z.even (N / D)); lia.
Qed.

Lemma rhe_scale N D c : 0 < D -> 0 < c -> rhe (N * c) (D * c) = rhe N D.
Proof.
  intros HD Hc. unfold rhe. cbv zeta.
  rewrite Z.div_mul_cancel_r by lia.
  rewrite Z.mul_mod_distr_r by lia.
  replace (2 * (N mod D * c)) with ((2 * (N mod D)) * c) by ring.
  destruct (Z.ltb_spec (2 * (N mod D)) D),
           (Z.ltb_spec (2 * (N mod D) * c) (D * c));
    try nia; try reflexivity.
  destruct (Z.ltb_spec D (2 * (N mod D))),
           (Z.ltb_spec (D * c) (2 * (N mod D) * c));
    try nia; reflexivity.
Qed.

Lemma rhe_ratio N1 D1 N2 D2 :
  0 < D1 -> 0 < D2 -> N1 * D2 = N2 * D1 -> rhe N1 D1 = rhe N2 D2.
Proof.
  intros H1 H2 E.
  rewrite <- (rhe_scale N1 D1 D2), <- (rhe_scale N2 D2 D1) by lia.
  rewrite E. f_equal. ring.
Qed.

Lemma rhe_mono N1 D1 N2 D2 :
  0 < D1 -> 0 < D2 -> N1 * D2 <= N2 * D1 -> rhe N1 D1 <= rhe N2 D2.
Proof.
  intros H1 H2 Hle.
  pose proof (Z.div_mod N1 D1 ltac:(lia)) as E1.
  pose proof (Z.div_mod N2 D2 ltac:(lia)) as E2.
  pose proof (Z.mod_pos_bound N1 D1 H1) as B1.
  pose proof (Z.mod_pos_bound N2 D2 H2) as B2.
  assert (Hq : N1 / D1 <= N2 / D2).
  { apply Z.div_le_lower_bound; [lia|].
    (* D2 * (N1/D1) <= N2 *)
    assert (D1 * (D2 * (N1 / D1)) <= D1 * N2) by nia. nia. }
  destruct (Z.eq_dec (N1 / D1) (N2 / D2)) as [Eq|Ne].
  - unfold rhe. cbv zeta. rewrite <- Eq.
    set (q := N1 / D1) in *. set (f1 := N1 mod D1) in *. set (f2 := N2 mod D2) in *.
    assert (Hf : f1 * D2 <= f2 * D1) by nia.
    destruct (Z.ltb_spec (2 * f1) D1), (Z.ltb_spec (2 * f2) D2);
      destruct (Z.ltb_spec D1 (2 * f1)), (Z.ltb_spec D2 (2 * f2));
      destruct (Z.even q); try lia; try nia.
  - pose proof (rhe_floor N1 D1 H1). pose proof (rhe_floor N2 D2 H2). lia.
Qed.

Lemma digits2_pos_size p : digits2_pos p = Pos.size p.
Proof. induction p; simpl; congruence. Qed.

Lemma Zdigits2_digits p : Zdigits2 (Zpos p) = digits (Zpos p).
Proof.
  unfold digits. simpl. rewrite digits2_pos_size.
  destruct p; simpl; try lia.
Qed.

Lemma digits_nonneg q : 0 <= digits q.
Proof.
  unfold digits. destruct (q =? 0); [lia|].
  pose proof (Z.log2_nonneg q). lia.
Qed.

Lemma digits_bounds q : 0 < q -> 2 ^ (digits q - 1) <= q < 2 ^ digits q.
Proof.
  intros H. unfold digits. destruct (Z.eqb_spec q 0); [lia|].
  replace (Z.log2 q + 1 - 1) with (Z.log2 q) by lia.
  apply Z.log2_spec. exact H.
Qed.

Lemma digits_unique q d : 0 < d -> 2 ^ (d - 1) <= q < 2 ^ d -> digits q = d.
Proof.
  intros Hd H. unfold digits.
  assert (0 < 2 ^ (d - 1)) by (apply Z.pow_pos_nonneg; lia).
  destruct (Z.eqb_spec q 0); [lia|].
  rewrite (Z.log2_unique q (d - 1)); try lia.
  replace (Z.succ (d - 1)) with d by lia. exact H.
Qed.

Lemma digits_mono q1 q2 : 0 <= q1 <= q2 -> digits q1 <= digits q2.
Proof.
  intros H. unfold digits.
  destruct (Z.eqb_spec q1 0), (Z.eqb_spec q2 0); try lia.
  - pose proof (Z.log2_nonneg q2). lia.
  - pose proof (Z.log2_le_mono q1 q2). lia.
Qed.

Lemma digits_le q j : 0 <= j -> 0 <= q < 2 ^ j -> digits q <= j.
Proof.
  intros Hj H. destruct (Z.eq_dec q 0) as [->|Hq]; [unfold digits; simpl; lia|].
  pose proof (digits_bounds q ltac:(lia)) as B.
  destruct (Z.le_gt_cases (digits q) j) as [|Hgt]; [assumption|].
  assert (2 ^ j <= 2 ^ (digits q - 1)) by (apply Z.pow_le_mono_r; lia).
  lia.
Qed.

Lemma digits_ge q j : 0 <= j -> 2 ^ j <= q -> j + 1 <= digits q.
Proof.
  intros Hj H.
  assert (0 < 2 ^ j) by (apply Z.pow_pos_nonneg; lia).
  pose proof (digits_bounds q ltac:(lia)) as B.
  destruct (Z.le_gt_cases (j + 1) (digits q)) as [|Hlt]; [assumption|].
  pose proof (digits_nonneg q).
  assert (2 ^ digits q <= 2 ^ j) by (apply Z.pow_le_mono_r; lia).
  lia.
Qed.

Lemma pow2_pos k : 0 <= k -> 0 < 2 ^ k.
Proof. intros. apply Z.pow_pos_nonneg; lia. Qed.

Lemma ulp_exp_nonneg N D : 0 <= ulp_exp N D.
Proof. unfold ulp_exp, scale. lia. Qed.

Lemma div_ratio N1 D1 N2 D2 :
  0 < D1 -> 0 < D2 -> N1 * D2 = N2 * D1 -> N1 / D1 = N2 / D2.
Proof.
  intros H1 H2 E.
  rewrite <- (Z.div_mul_cancel_r N1 D1 D2), <- (Z.div_mul_cancel_r N2 D2 D1) by lia.
  rewrite E. f_equal. ring.
Qed.

Lemma div_mono_ratio N1 D1 N2 D2 :
  0 < D1 -> 0 < D2 -> N1 * D2 <= N2 * D1 -> N1 / D1 <= N2 / D2.
Proof.
  intros H1 H2 Hle.
  rewrite <- (Z.div_mul_cancel_r N1 D1 D2), <- (Z.div_mul_cancel_r N2 D2 D1) by lia.
  replace (D2 * D1) with (D1 * D2) by ring.
  apply Z.div_le_mono; nia.
Qed.

Lemma rnd_ratio N1 D1 N2 D2 :
  0 < D1 -> 0 < D2 -> N1 * D2 = N2 * D1 -> rnd N1 D1 = rnd N2 D2.
Proof.
  intros H1 H2 E. unfold rnd, ulp_exp. cbv zeta.
  rewrite (div_ratio N1 D1 N2 D2 H1 H2 E).
  set (k := Z.max _ _).
  assert (0 < 2 ^ k) by (apply pow2_pos; unfold k, scale; lia).
  f_equal. apply rhe_ratio; nia.
Qed.

Lemma rhe_lt_pow N D j :
  0 <= N -> 0 < D -> 0 <= j -> N < D * 2 ^ j -> rhe N D <= 2 ^ j.
Proof.
  intros HN HD Hj H.
  pose proof (rhe_floor N D HD).
  assert (N / D < 2 ^ j) by (apply Z.div_lt_upper_bound; lia).
  lia.
Qed.

Lemma rnd_nonneg N D : 0 <= N -> 0 < D -> 0 <= rnd N D.
Proof.
  intros HN HD. unfold rnd. cbv zeta.
  pose proof (ulp_exp_nonneg N D).
  pose proof (pow2_pos (ulp_exp N D) H).
  pose proof (rhe_floor N (D * 2 ^ ulp_exp N D) ltac:(nia)).
  assert (0 <= N / (D * 2 ^ ulp_exp N D)) by (apply Z.div_pos; nia).
  nia.
Qed.

(** Rounding is monotone. *)
Lemma rnd_mono N1 D1 N2 D2 :
  0 <= N1 -> 0 < D1 -> 0 < D2 -> N1 * D2 <= N2 * D1 -> rnd N1 D1 <= rnd N2 D2.
Proof.
  intros HN1 H1 H2 Hle.
  assert (HN2 : 0 <= N2) by nia.
  pose proof (div_mono_ratio _ _ _ _ H1 H2 Hle) as Hq.
  assert (Hq1 : 0 <= N1 / D1) by (apply Z.div_pos; lia).
  pose proof (digits_mono _ _ (conj Hq1 Hq)) as Hd.
  unfold rnd. cbv zeta.
  pose proof (ulp_exp_nonneg N1 D1) as Hk1.
  pose proof (ulp_exp_nonneg N2 D2) as Hk2.
  pose proof (pow2_pos _ Hk1) as Hp1.
  pose proof (pow2_pos _ Hk2) as Hp2.
  destruct (Z.eq_dec (ulp_exp N1 D1) (ulp_exp N2 D2)) as [Ek|Nk].
  - rewrite <- Ek in *. apply Z.mul_le_mono_nonneg_r; [lia|].
    apply rhe_mono; nia.
  - (* the second value lies in a higher binade *)
    set (k1 := ulp_exp N1 D1) in *. set (k2 := ulp_exp N2 D2) in *.
    set (d1 := digits (N1 / D1)) in *. set (d2 := digits (N2 / D2)) in *.
    assert (Hk : k1 < k2 /\ k2 = d2 - 53).
    { unfold k1, k2, ulp_exp in *. fold d1 d2 in Nk |- *. lia. }
    destruct Hk as (Hlt & Ek2).
    assert (Hq2 : 0 < N2 / D2).
    { destruct (Z.eq_dec (N2 / D2) 0) as [E0|]; [|lia].
      unfold d2, digits in Ek2. rewrite E0 in Ek2. simpl in Ek2.
      unfold k2, ulp_exp, scale in *. lia. }
    pose proof (digits_bounds _ Hq2) as B2. fold d2 in B2.
    (* lower bound on the second value *)
    assert (L2 : 2 ^ (d2 - 1) <= rhe N2 (D2 * 2 ^ k2) * 2 ^ k2).
    { pose proof (rhe_floor N2 (D2 * 2 ^ k2) ltac:(nia)) as F.
      assert (2 ^ 52 <= N2 / (D2 * 2 ^ k2)).
      { rewrite <- Z.div_div by lia.
        apply Z.div_le_lower_bound; [lia|].
        rewrite <- Z.pow_add_r by lia.
        replace (k2 + 52) with (d2 - 1) by lia. lia. }
      replace (d2 - 1) with (52 + k2) by lia.
      rewrite Z.pow_add_r by lia. nia. }
    (* upper bound on the first value *)
    set (j := Z.max (d1 - k1) 0).
    assert (U1 : rhe N1 (D1 * 2 ^ k1) * 2 ^ k1 <= 2 ^ (j + k1)).
    { rewrite Z.pow_add_r by (unfold j; lia).
      apply Z.mul_le_mono_nonneg_r; [lia|].
      apply rhe_lt_pow; [lia|nia|unfold j; lia|].
      rewrite <- Z.mul_assoc, <- Z.pow_add_r by (unfold j; lia).
      assert (N1 / D1 < 2 ^ (k1 + j)).
      { destruct (Z.eq_dec (N1 / D1) 0) as [E0|].
        - rewrite E0. apply pow2_pos. unfold j. lia.
        - pose proof (digits_bounds (N1 / D1) ltac:(lia)) as B1. fold d1 in B1.
          assert (2 ^ d1 <= 2 ^ (k1 + j)) by (apply Z.pow_le_mono_r; unfold j; lia).
          lia. }
      assert (N1 < D1 * (N1 / D1 + 1)).
      { pose proof (Z.div_mod N1 D1 ltac:(lia)).
        pose proof (Z.mod_pos_bound N1 D1 H1). nia. }
      nia. }
    assert (2 ^ (j + k1) <= 2 ^ (d2 - 1)).
    { apply Z.pow_le_mono_r; [lia|]. unfold j.
      assert (d1 <= d2) by exact Hd.
      assert (d1 <> d2 \/ d1 = d2) as [|Ed] by lia.
      - lia.
      - exfalso. unfold k1, k2, ulp_exp in *. fold d1 d2 in Hlt, Ek2 |- *. lia. }
    lia.
Qed.

(** ** The shift-and-round steps of [binary_round_aux] *)

Lemma fexp_eq e : fexp prec emax e = Z.max (e - 53) (-1074).
Proof. reflexivity. Qed.

Lemma holds_nonneg r N D : holds r N D -> 0 <= N -> 0 < D -> 0 <= shr_m r.
Proof. intros (f & Hf & HN & _) H0 HD. nia. Qed.

Lemma holds_div r N D : holds r N D -> 0 < D -> shr_m r = N / D.
Proof.
  intros (f & Hf & HN & _) HD.
  apply (Z.div_unique N D (shr_m r) f); [lia|]. lia.
Qed.

Lemma holds_shr_1 r N D :
  holds r N D -> 0 <= N -> 0 < D -> holds (shr_1 r) N (D * 2).
Proof.
  intros H H0 HD. pose proof (holds_nonneg r N D H H0 HD) as Hm.
  destruct H as (f & Hf & HN & Hr & Hs).
  destruct r as [m rb sb].
  cbv beta iota zeta delta [shr_m shr_r shr_s] in HN, Hr, Hs, Hm.
  subst rb sb.
  assert (Hodd : forall p, Zpos p~1 * D + f = Zpos p * (D * 2) + (D + f))
    by (intros p; rewrite (Pos2Z.inj_xI p); ring).
  assert (Heven : forall p, Zpos p~0 * D + f = Zpos p * (D * 2) + f)
    by (intros p; rewrite (Pos2Z.inj_xO p); ring).
  unfold holds.
  destruct m as [|[p|p|]|p]; try lia;
    cbv beta iota zeta delta [shr_1 shr_m shr_r shr_s];
    [exists f|exists (D + f)|exists f|exists (D + f)];
    rewrite ?Hodd, ?Heven in HN;
    (split; [lia|]); (split; [lia|]);
    destruct (Z.leb_spec D (2 * f)), (Z.eqb_spec f 0), (Z.eqb_spec (2 * f) D);
    try lia;
    try (destruct (Z.leb_spec (D * 2) (2 * (D + f))),
                  (Z.eqb_spec (D + f) 0),
                  (Z.eqb_spec (2 * (D + f)) (D * 2)));
    try (destruct (Z.leb_spec (D * 2) (2 * f)),
                  (Z.eqb_spec (2 * f) (D * 2)));
    try lia; split; reflexivity.
Qed.

Lemma pow2_xO p : 2 ^ Zpos p~0 = 2 ^ Zpos p * 2 ^ Zpos p.
Proof.
  rewrite (Pos2Z.inj_xO p). replace (2 * Zpos p) with (Zpos p + Zpos p) by lia.
  apply Z.pow_add_r; lia.
Qed.

Lemma pow2_xI p : 2 ^ Zpos p~1 = 2 * (2 ^ Zpos p * 2 ^ Zpos p).
Proof.
  rewrite (Pos2Z.inj_xI p).
  replace (2 * Zpos p + 1) with (1 + (Zpos p + Zpos p)) by lia.
  rewrite !Z.pow_add_r by lia. reflexivity.
Qed.

Lemma holds_iter N p :
  0 <= N ->
  forall r D, holds r N D -> 0 < D ->
              holds (iter_pos shr_1 p r) N (D * 2 ^ Zpos p).
Proof.
  intros H0. induction p as [p IH|p IH|]; intros r D H HD; simpl iter_pos.
  - replace (D * 2 ^ Zpos p~1) with (D * 2 * 2 ^ Zpos p * 2 ^ Zpos p)
      by (rewrite pow2_xI; ring).
    assert (0 < 2 ^ Zpos p) by (apply pow2_pos; lia).
    apply IH; [|nia]. apply IH; [|lia]. apply holds_shr_1; assumption.
  - replace (D * 2 ^ Zpos p~0) with (D * 2 ^ Zpos p * 2 ^ Zpos p)
      by (rewrite pow2_xO; ring).
    assert (0 < 2 ^ Zpos p) by (apply pow2_pos; lia).
    apply IH; [|nia]. apply IH; [|lia]. assumption.
  - change (2 ^ 1) with 2. apply holds_shr_1; assumption.
Qed.

Lemma shr_correct r e n N D :
  holds r N D -> 0 <= N -> 0 < D ->
  holds (fst (shr r e n)) N (D * 2 ^ Z.max 0 n)
  /\ snd (shr r e n) = e + Z.max 0 n.
Proof.
  intros H H0 HD. unfold shr. destruct n as [|p|p]; simpl fst; simpl snd.
  - rewrite Z.max_l, Z.mul_1_r by lia. split; [assumption|lia].
  - rewrite Z.max_r by lia. split; [apply holds_iter; assumption|lia].
  - rewrite Z.max_l, Z.mul_1_r by lia. split; [assumption|lia].
Qed.

Lemma rne_correct r N D :
  holds r N D -> 0 < D ->
  round_nearest_even (shr_m r) (loc_of_shr_record r) = rhe N D.
Proof.
  intros H HD. pose proof (holds_div r N D H HD) as Hq.
  destruct H as (f & Hf & HN & Hr & Hs).
  assert (Hmod : N mod D = f).
  { symmetry. apply (Z.mod_unique N D (shr_m r) f); [lia|]. lia. }
  unfold rhe. cbv zeta. rewrite <- Hq, Hmod.
  destruct r as [m rb sb].
  cbv beta iota zeta delta [shr_m shr_r shr_s] in *. subst rb sb.
  unfold loc_of_shr_record, round_nearest_even.
  destruct (Z.leb_spec D (2 * f)), (Z.eqb_spec f 0), (Z.eqb_spec (2 * f) D),
           (Z.ltb_spec (2 * f) D), (Z.ltb_spec D (2 * f));
    cbv beta iota delta [negb orb]; try lia; reflexivity.
Qed.

Lemma holds_exact m : holds (shr_record_of_loc m loc_Exact) m 1.
Proof.
  exists 0. cbv beta iota zeta delta [shr_record_of_loc shr_m shr_r shr_s].
  split; [lia|]. split; [lia|]. split; reflexivity.
Qed.

Lemma Zdigits2_nonneg m : 0 <= m -> Zdigits2 m = digits m.
Proof.
  destruct m as [|p|p]; intros H; [reflexivity|apply Zdigits2_digits|lia].
Qed.

Lemma lt_pow_digits m : 0 <= m -> m < 2 ^ digits m.
Proof.
  intros H. destruct (Z.eq_dec m 0) as [->|]; [reflexivity|].
  apply digits_bounds. lia.
Qed.

(** The outcome of [binary_round_aux] on the nonnegative rational [N / D]
    counted in units of [2 ^ ex], given with enough digits: the sign is the
    given one and the magnitude is the rounded value, or the result is an
    infinity when that value is out of range. *)
Lemma bra_spec s mx ex lx N D :
  0 <= N -> 0 < D ->
  holds (shr_record_of_loc mx lx) N D ->
  ex <= fexp prec emax (Zdigits2 mx + ex) ->
  - scale <= ex ->
  rounds_to (binary_round_aux prec emax s mx ex lx) s
            (rnd (N * 2 ^ (ex + scale)) D).
Proof.
  intros HN HD Hh Hpre Hex. set (v := rnd (N * 2 ^ (ex + scale)) D).
  unfold rounds_to.
  pose proof (holds_div _ _ _ Hh HD) as Hmx. simpl in Hmx.
  assert (Hmx' : shr_m (shr_record_of_loc mx lx) = mx)
    by (destruct lx as [|[]]; reflexivity).
  rewrite Hmx' in Hmx.
  assert (Hmx0 : 0 <= mx) by (rewrite Hmx; apply Z.div_pos; lia).
  rewrite Zdigits2_nonneg, fexp_eq in Hpre by assumption.
  set (dm := digits mx) in *.
  pose proof (digits_nonneg mx) as Hdm. fold dm in Hdm.
  set (e1 := Z.max (dm + ex - 53) (-1074)) in *.
  set (n := e1 - ex).
  assert (Hn : 0 <= n) by (unfold n; lia).
  assert (Hpn : 0 < 2 ^ n) by (apply pow2_pos; lia).
  (* first shift *)
  unfold binary_round_aux, shr_fexp.
  rewrite Zdigits2_nonneg, fexp_eq by assumption. fold dm e1 n.
  pose proof (shr_correct _ ex n N D Hh HN HD) as (Hh1 & He1).
  destruct (shr (shr_record_of_loc mx lx) ex n) as [r1 e1'].
  simpl fst in Hh1. simpl snd in He1.
  rewrite Z.max_r in Hh1, He1 by lia.
  subst e1'. replace (ex + n) with e1 by (unfold n; lia).
  rewrite (rne_correct r1 N (D * 2 ^ n) Hh1) by nia.
  set (m1 := rhe N (D * 2 ^ n)).
  (* size of the rounded mantissa *)
  assert (Hfloor : N / (D * 2 ^ n) = mx / 2 ^ n)
    by (rewrite <- Z.div_div by lia; congruence).
  pose proof (rhe_floor N (D * 2 ^ n) ltac:(nia)) as Hrf. fold m1 in Hrf.
  rewrite Hfloor in Hrf.
  assert (Hm1lo : 0 <= m1).
  { assert (0 <= mx / 2 ^ n) by (apply Z.div_pos; lia). lia. }
  assert (Hm1hi : m1 <= 2 ^ 53).
  { assert (mx / 2 ^ n < 2 ^ 53); [|lia].
    apply Z.div_lt_upper_bound; [lia|].
    rewrite <- Z.pow_add_r by lia.
    pose proof (lt_pow_digits mx Hmx0) as B. fold dm in B.
    assert (2 ^ dm <= 2 ^ (n + 53))
      by (apply Z.pow_le_mono_r; unfold n, e1; lia).
    lia. }
  assert (Hm1norm : -1074 < e1 -> 2 ^ 52 <= m1).
  { intros Hn1.
    assert (Edm : dm = n + 53) by (unfold n, e1 in *; lia).
    assert (0 < mx).
    { destruct (Z.eq_dec mx 0) as [E0|]; [|lia].
      unfold dm, digits in Edm. rewrite E0 in Edm. simpl in Edm. lia. }
    pose proof (digits_bounds mx ltac:(lia)) as B. fold dm in B.
    assert (2 ^ 52 <= mx / 2 ^ n); [|lia].
    apply Z.div_le_lower_bound; [lia|].
    rewrite <- Z.pow_add_r by lia.
    replace (n + 52) with (dm - 1) by lia. lia. }
  (* the value *)
  assert (Hv : m1 * 2 ^ (e1 + scale) = v).
  { unfold v, rnd. cbv zeta.
    assert (Hk : ulp_exp (N * 2 ^ (ex + scale)) D = e1 + scale).
    { unfold ulp_exp. set (j := ex + scale).
      assert (Hj : 0 <= j) by (unfold j; lia).
      assert (Hpj : 0 < 2 ^ j) by (apply pow2_pos; lia).
      destruct (Z.eq_dec mx 0) as [E0|Hpos].
      - (* below one unit *)
        assert (Edm : dm = 0) by (unfold dm; rewrite E0; reflexivity).
        assert (ex <= -1074) by (unfold e1 in Hpre; lia).
        assert (N < D).
        { pose proof (Z.div_mod N D ltac:(lia)).
          pose proof (Z.mod_pos_bound N D HD). rewrite <- Hmx, E0 in *. lia. }
        assert (0 <= N * 2 ^ j / D < 2 ^ j).
        { split; [apply Z.div_pos; nia|].
          apply Z.div_lt_upper_bound; nia. }
        pose proof (digits_le (N * 2 ^ j / D) j Hj ltac:(lia)).
        unfold e1, j, scale in *. lia.
      - assert (0 < mx) by lia.
        pose proof (digits_bounds mx ltac:(lia)) as B. fold dm in B.
        assert (1 <= dm) by (apply (digits_ge mx 0); simpl; lia).
        assert (Hd : digits (N * 2 ^ j / D) = dm + j).
        { apply digits_unique; [lia|].
          replace (dm + j - 1) with ((dm - 1) + j) by lia.
          rewrite !Z.pow_add_r by lia.
          pose proof (Z.div_mod N D ltac:(lia)) as Edm.
          pose proof (Z.mod_pos_bound N D HD) as Bm.
          rewrite <- Hmx in Edm.
          assert (0 < 2 ^ (dm - 1)) by (apply pow2_pos; lia).
          assert (D * 2 ^ (dm - 1) <= N) by nia.
          assert (N < D * 2 ^ dm) by nia.
          split.
          - apply Z.div_le_lower_bound; [lia|].
            rewrite Z.mul_assoc. apply Z.mul_le_mono_nonneg_r; lia.
          - apply Z.div_lt_upper_bound; [lia|].
            rewrite Z.mul_assoc. apply Z.mul_lt_mono_pos_r; lia. }
        rewrite Hd. unfold e1, j, scale. lia. }
    rewrite Hk. f_equal. unfold m1.
    apply rhe_ratio.
    - apply Z.mul_pos_pos; [lia|apply pow2_pos; unfold e1, scale; lia].
    - apply Z.mul_pos_pos; lia.
    - replace (e1 + scale) with (n + (ex + scale)) by (unfold n; lia).
      rewrite Z.pow_add_r by lia. ring. }
  (* second shift *)
  pose proof (shr_correct _ e1 (fexp prec emax (Zdigits2 m1 + e1) - e1) m1 1
                (holds_exact m1) Hm1lo ltac:(lia)) as (Hh2 & He2).
  rewrite Zdigits2_nonneg, fexp_eq in Hh2, He2 |- * by assumption.
  destruct (shr (shr_record_of_loc m1 loc_Exact) e1
              (Z.max (digits m1 + e1 - 53) (-1074) - e1)) as [r2 e2].
  simpl fst in Hh2. simpl snd in He2.
  assert (He1lo : -1074 <= e1) by (unfold e1; lia).
  destruct (Z.eq_dec m1 (2 ^ 53)) as [Etop|Hnot].
  - (* the mantissa was rounded up to a power of two *)
    assert (Ed : digits m1 = 54) by (rewrite Etop; reflexivity).
    rewrite Ed in *.
    replace (Z.max 0 (Z.max (54 + e1 - 53) (-1074) - e1)) with 1 in * by lia.
    pose proof (holds_div _ _ _ Hh2 ltac:(lia)) as Hq2.
    rewrite Etop in Hq2. change (2 ^ 53 / (1 * 2 ^ 1)) with (2 ^ 52) in Hq2.
    rewrite Hq2. change (2 ^ 52) with (Zpos 4503599627370496).
    subst e2.
    destruct (Z.leb_spec (e1 + 1) (emax - prec)) as [Hfit|Hover].
    + split; [reflexivity|]. split.
      * unfold bounded, canonical_mantissa. rewrite fexp_eq.
        change (Zpos (digits2_pos 4503599627370496)) with 53.
        apply andb_true_intro. split; [apply Z.eqb_eq; lia|apply Z.leb_le; lia].
      * rewrite <- Hv, Etop.
        replace (e1 + 1 + scale) with (1 + (e1 + scale)) by lia.
        rewrite Z.pow_add_r by (unfold scale; lia).
        change (Zpos 4503599627370496) with (2 ^ 52).
        change (2 ^ 53) with (2 ^ 52 * 2 ^ 1). ring.
    + split; [reflexivity|]. rewrite <- Hv, Etop.
      rewrite <- Z.pow_add_r by (unfold scale; lia).
      apply Z.pow_le_mono_r; unfold emax, prec, scale in *; lia.
  - (* no second shift *)
    assert (Hd1 : digits m1 <= 53) by (apply digits_le; lia).
    replace (Z.max 0 (Z.max (digits m1 + e1 - 53) (-1074) - e1)) with 0 in *
      by lia.
    pose proof (holds_div _ _ _ Hh2 ltac:(lia)) as Hq2.
    change (1 * 2 ^ 0) with 1 in Hq2. rewrite Z.div_1_r in Hq2.
    rewrite Hq2. replace e2 with e1 by lia.
    destruct m1 as [|m|m] eqn:Em1; [| |lia].
    + split; [reflexivity|]. rewrite <- Hv. reflexivity.
    + destruct (Z.leb_spec e1 (emax - prec)) as [Hfit|Hover].
      * split; [reflexivity|]. split; [|exact Hv].
        unfold bounded, canonical_mantissa. rewrite fexp_eq.
        pose proof (Zdigits2_digits m) as Edig. simpl Zdigits2 in Edig.
        rewrite Edig.
        apply andb_true_intro. split; [apply Z.eqb_eq|apply Z.leb_le; lia].
        destruct (Z.eq_dec e1 (-1074)) as [|Hnorm]; [lia|].
        assert (53 <= digits (Zpos m)) by (apply (digits_ge _ 52); lia).
        lia.
      * split; [reflexivity|]. rewrite <- Hv.
        assert (2 ^ 52 <= Zpos m) by (apply Hm1norm; unfold emax, prec in *; lia).
        assert (2 ^ (972 + scale) <= 2 ^ (e1 + scale))
          by (apply Z.pow_le_mono_r; unfold emax, prec, scale in *; lia).
        assert (0 < 2 ^ (972 + scale)) by (apply pow2_pos; unfold scale; lia).
        replace (emax + scale) with (52 + (972 + scale)) by (unfold emax; lia).
        rewrite Z.pow_add_r by (unfold scale; lia).
        nia.
Qed.

(** ** Finite numbers *)

Lemma bounded_inv m e :
  bounded prec emax m e = true ->
  -1074 <= e <= 971
  /\ 1 <= digits (Zpos m) <= 53
  /\ (-1074 < e -> digits (Zpos m) = 53).
Proof.
  unfold bounded, canonical_mantissa. rewrite fexp_eq. intros H.
  apply andb_prop in H. destruct H as (Hc & He).
  apply Z.eqb_eq in Hc. apply Z.leb_le in He.
  pose proof (Zdigits2_digits m) as Ed. simpl Zdigits2 in Ed. rewrite Ed in Hc.
  assert (1 <= digits (Zpos m)) by (apply (digits_ge _ 0); simpl; lia).
  unfold emax, prec in He. lia.
Qed.

Lemma rhe_0 D : 0 < D -> rhe 0 D = 0.
Proof.
  intros HD. unfold rhe. cbv zeta.
  rewrite Z.div_0_l, Z.mod_0_l by lia.
  destruct (Z.ltb_spec (2 * 0) D); [reflexivity|lia].
Qed.

Lemma rnd_0 D : 0 < D -> rnd 0 D = 0.
Proof.
  intros HD. unfold rnd. cbv zeta. rewrite rhe_0; [reflexivity|].
  apply Z.mul_pos_pos; [lia|]. apply pow2_pos, ulp_exp_nonneg.
Qed.

Lemma rounds_to_fin z s v :
  rounds_to z s v -> v < 2 ^ (emax + scale) ->
  fin z = true /\ R z = cond_Zopp s v /\ (v <> 0 -> sign_of z = s).
Proof.
  destruct z as [s'|s'| |s' m e]; simpl; intros H Hv.
  - destruct H as (-> & ->). repeat split. destruct s; reflexivity.
  - lia.
  - contradiction.
  - destruct H as (-> & Hb & <-). repeat split. exact Hb.
Qed.

Lemma R_finite s m e :
  bounded prec emax m e = true ->
  Z.abs (R (S754_finite s m e)) = Zpos m * 2 ^ (e + scale).
Proof.
  intros H. apply bounded_inv in H.
  assert (0 < 2 ^ (e + scale)) by (apply pow2_pos; unfold scale; lia).
  unfold R, cond_Zopp. destruct s; nia.
Qed.

Lemma digits_mul m1 m2 :
  0 < m1 -> 0 < m2 -> digits m1 + digits m2 - 1 <= digits (m1 * m2).
Proof.
  intros H1 H2.
  pose proof (digits_bounds m1 H1) as B1. pose proof (digits_bounds m2 H2) as B2.
  assert (1 <= digits m1) by (apply (digits_ge _ 0); simpl; lia).
  assert (1 <= digits m2) by (apply (digits_ge _ 0); simpl; lia).
  assert (digits m1 - 1 + (digits m2 - 1) + 1 <= digits (m1 * m2)); [|lia].
  apply digits_ge; [lia|].
  rewrite Z.pow_add_r by lia.
  assert (0 < 2 ^ (digits m1 - 1)) by (apply pow2_pos; lia).
  assert (0 < 2 ^ (digits m2 - 1)) by (apply pow2_pos; lia).
  nia.
Qed.

(** *** Multiplication *)

Lemma mul_rounds x y :
  fin x = true -> fin y = true ->
  rounds_to (SFmul prec emax x y) (xorb (sign_of x) (sign_of y))
            (rnd (Z.abs (R x) * Z.abs (R y)) (2 ^ scale)).
Proof.
  assert (Hs : 0 < 2 ^ scale) by (apply pow2_pos; unfold scale; lia).
  destruct x as [sx|sx| |sx mx ex], y as [sy|sy| |sy my ey];
    try discriminate; intros Hx Hy;
    try (simpl; rewrite ?Z.mul_0_r, rnd_0 by lia; split; reflexivity).
  simpl in Hx, Hy.
  rewrite !R_finite by assumption.
  pose proof (bounded_inv _ _ Hx) as (Bex & Bdx & Bnx).
  pose proof (bounded_inv _ _ Hy) as (Bey & Bdy & Bny).
  pose proof (digits_mul (Zpos mx) (Zpos my) ltac:(lia) ltac:(lia)) as Hd.
  unfold SFmul. simpl sign_of.
  rewrite (rnd_ratio _ (2 ^ scale) (Zpos (mx * my) * 2 ^ (ex + ey + scale)) 1);
    [|lia|lia|].
  - apply bra_spec; try lia.
    + apply holds_exact.
    + rewrite Zdigits2_digits, fexp_eq. rewrite Pos2Z.inj_mul. lia.
    + unfold scale. lia.
  - rewrite Pos2Z.inj_mul.
    replace (ex + ey + scale) with ((ex + scale) + (ey + scale) - scale) by lia.
    assert (E : 2 ^ (ex + scale + (ey + scale) - scale) * 2 ^ scale
                = 2 ^ (ex + scale) * 2 ^ (ey + scale)).
    { rewrite <- !Z.pow_add_r by (unfold scale; lia). f_equal. lia. }
    rewrite Z.mul_1_r. 
    transitivity (Zpos mx * Zpos my * (2 ^ (ex + scale) * 2 ^ (ey + scale)));
      [ring|]. rewrite <- E. ring.
Qed.

(** *** Addition and subtraction *)

Lemma iter_xO m d : Zpos (Pos.iter xO m d) = Zpos m * 2 ^ Zpos d.
Proof.
  induction d as [|d IH] using Pos.peano_ind.
  - rewrite Z.pow_1_r. change (Pos.iter xO m 1) with (m~0)%positive.
    rewrite (Pos2Z.inj_xO m). ring.
  - rewrite Pos.iter_succ, (Pos2Z.inj_xO (Pos.iter xO m d)), IH.
    rewrite Pos2Z.inj_succ, Z.pow_succ_r by lia. ring.
Qed.

Lemma shl_align_spec mx ex ex' :
  snd (shl_align mx ex ex') = Z.min ex ex'
  /\ Zpos (fst (shl_align mx ex ex')) = Zpos mx * 2 ^ (ex - Z.min ex ex').
Proof.
  unfold shl_align. destruct (ex' - ex) as [|d|d] eqn:E; simpl fst; simpl snd.
  - rewrite Z.min_l by lia. rewrite Z.sub_diag. split; [reflexivity|lia].
  - rewrite Z.min_l by lia. rewrite Z.sub_diag. split; [reflexivity|lia].
  - rewrite Z.min_r by lia. split; [reflexivity|].
    rewrite iter_xO. f_equal. f_equal. lia.
Qed.

Lemma digits_shift m j : 0 < m -> 0 <= j -> digits (m * 2 ^ j) = digits m + j.
Proof.
  intros Hm Hj. pose proof (digits_bounds m Hm) as B.
  assert (1 <= digits m) by (apply (digits_ge _ 0); simpl; lia).
  assert (0 < 2 ^ j) by (apply pow2_pos; lia).
  apply digits_unique; [lia|].
  replace (digits m + j - 1) with (digits m - 1 + j) by lia.
  rewrite !Z.pow_add_r by lia. nia.
Qed.

Lemma binary_round_rounds s m e :
  - scale <= e ->
  rounds_to (binary_round prec emax s m e) s (rnd (Zpos m * 2 ^ (e + scale)) 1).
Proof.
  intros He. unfold binary_round.
  pose proof (shl_align_spec m e (fexp prec emax (Zpos (digits2_pos m) + e)))
    as (Hsnd & Hfst).
  destruct (shl_align m e (fexp prec emax (Zpos (digits2_pos m) + e)))
    as [mz ez]. simpl fst in Hfst. simpl snd in Hsnd.
  pose proof (Zdigits2_digits m) as Ed. simpl Zdigits2 in Ed.
  rewrite Ed, fexp_eq in *.
  set (F := Z.max (digits (Zpos m) + e - 53) (-1074)) in *.
  assert (Hj : 0 <= e - ez) by lia.
  assert (Hdz : digits (Zpos mz) = digits (Zpos m) + (e - ez)).
  { rewrite Hfst, Hsnd. apply digits_shift; lia. }
  rewrite (rnd_ratio _ 1 (Zpos mz * 2 ^ (ez + scale)) 1); [|lia|lia|].
  - apply bra_spec; try lia.
    + apply holds_exact.
    + rewrite Zdigits2_digits, fexp_eq, Hdz. fold F. lia.
    + unfold F, scale in *. lia.
  - rewrite Hfst, <- Hsnd.
    replace (e + scale) with ((e - ez) + (ez + scale)) by lia.
    rewrite Z.pow_add_r by (unfold F, scale in *; lia). ring.
Qed.

(** Rounding leaves a representable magnitude as it is. *)
Lemma rnd_repr m e :
  bounded prec emax m e = true ->
  rnd (Zpos m * 2 ^ (e + scale)) 1 = Zpos m * 2 ^ (e + scale).
Proof.
  intros H. apply bounded_inv in H. destruct H as (Be & Bd & Bn).
  assert (Hes : 0 <= e + scale) by (unfold scale; lia).
  assert (Hp : 0 < 2 ^ (e + scale)) by (apply pow2_pos; lia).
  unfold rnd, ulp_exp. cbv zeta. rewrite Z.div_1_r, Z.mul_1_l.
  rewrite digits_shift by lia.
  replace (Z.max (digits (Zpos m) + (e + scale) - 53) (scale - 1074))
    with (e + scale) by lia.
  unfold rhe. cbv zeta.
  rewrite Z.div_mul, Z.mod_mul by lia.
  destruct (Z.ltb_spec (2 * 0) (2 ^ (e + scale))); [reflexivity|lia].
Qed.

Lemma rounds_to_self x :
  fin x = true -> rounds_to x (sign_of x) (rnd (Z.abs (R x)) 1).
Proof.
  destruct x as [s|s| |s m e]; try discriminate; intros H.
  - simpl. rewrite rnd_0 by lia. split; reflexivity.
  - simpl in H. rewrite R_finite, rnd_repr by assumption.
    simpl. repeat split. exact H.
Qed.

Lemma binary_normalize_rounds z e :
  - scale <= e ->
  rounds_to (binary_normalize prec emax z e false) (z <? 0)
            (rnd (Z.abs z * 2 ^ (e + scale)) 1).
Proof.
  intros He. destruct z as [|p|p]; simpl binary_normalize.
  - simpl. rewrite rnd_0 by lia. split; reflexivity.
  - apply binary_round_rounds. exact He.
  - apply binary_round_rounds. exact He.
Qed.

Lemma add_rounds x y :
  fin x = true -> fin y = true ->
  exists s,
    rounds_to (SFadd prec emax x y) s (rnd (Z.abs (R x + R y)) 1)
    /\ (0 < R x + R y -> s = false) /\ (R x + R y < 0 -> s = true).
Proof.
  destruct x as [sx|sx| |sx mx ex], y as [sy|sy| |sy my ey];
    try discriminate; intros Hx Hy.
  - exists (if Bool.eqb sx sy then sx else false).
    simpl. rewrite rnd_0 by lia.
    split; [|split; lia]. destruct sx, sy; split; reflexivity.
  - exists sy. split; [exact (rounds_to_self _ Hy)|].
    simpl in Hy. apply bounded_inv in Hy.
    assert (0 < 2 ^ (ey + scale)) by (apply pow2_pos; unfold scale; lia).
    unfold R, cond_Zopp. destruct sy; split; intros; try reflexivity; nia.
  - exists sx. rewrite Z.add_0_r. split; [exact (rounds_to_self _ Hx)|].
    simpl in Hx. apply bounded_inv in Hx.
    assert (0 < 2 ^ (ex + scale)) by (apply pow2_pos; unfold scale; lia).
    unfold R, cond_Zopp. destruct sx; split; intros; try reflexivity; nia.
  - simpl in Hx, Hy.
    pose proof (bounded_inv _ _ Hx) as (Bex & _).
    pose proof (bounded_inv _ _ Hy) as (Bey & _).
    unfold SFadd.
    pose proof (shl_align_spec mx ex (Z.min ex ey)) as (_ & Hmx).
    pose proof (shl_align_spec my ey (Z.min ex ey)) as (_ & Hmy).
    set (ez := Z.min ex ey) in *.
    rewrite Z.min_r in Hmx by lia. rewrite Z.min_r in Hmy by lia.
    set (z := cond_Zopp sx (Zpos (fst (shl_align mx ex ez)))
              + cond_Zopp sy (Zpos (fst (shl_align my ey ez)))).
    assert (Hp : 0 < 2 ^ (ez + scale)) by (apply pow2_pos; unfold scale; lia).
    assert (Hz : R (S754_finite sx mx ex) + R (S754_finite sy my ey)
                 = z * 2 ^ (ez + scale)).
    { unfold z, R. rewrite Hmx, Hmy.
      replace (ex + scale) with ((ex - ez) + (ez + scale)) by lia.
      replace (ey + scale) with ((ey - ez) + (ez + scale)) by lia.
      rewrite (Z.pow_add_r 2 (ex - ez)), (Z.pow_add_r 2 (ey - ez))
        by (unfold ez, scale; lia).
      destruct sx, sy; unfold cond_Zopp; ring. }
    exists (z <? 0). rewrite Hz. split; [|split].
    + rewrite Z.abs_mul, (Z.abs_eq (2 ^ _)) by lia.
      apply binary_normalize_rounds. unfold scale. lia.
    + intros H. apply Z.ltb_ge. nia.
    + intros H. apply Z.ltb_lt. nia.
Qed.

Lemma sub_add_opp x y : SFsub prec emax x y = SFadd prec emax x (SFopp y).
Proof.
  destruct x as [sx|sx| |sx mx ex], y as [sy|sy| |sy my ey];
    try reflexivity;
    try (destruct sx, sy; reflexivity).
Qed.

Lemma fin_opp y : fin (SFopp y) = fin y.
Proof. destruct y; reflexivity. Qed.

Lemma R_opp y : R (SFopp y) = - R y.
Proof.
  destruct y as [s|s| |s m e]; try reflexivity.
  unfold R, SFopp, cond_Zopp. destruct s; simpl negb; lia.
Qed.

(** *** Division *)

Lemma new_location_holds q r N D :
  0 < D -> q = N / D -> r = N mod D ->
  holds (shr_record_of_loc q (new_location D r)) N D.
Proof.
  intros HD -> ->.
  pose proof (Z.div_mod N D ltac:(lia)) as E.
  pose proof (Z.mod_pos_bound N D HD) as B.
  set (f := N mod D) in *.
  assert (Hodd : Z.even D = false -> 2 * f <> D).
  { intros Hev Heq. rewrite <- Heq, Z.even_mul in Hev. discriminate. }
  exists f. split; [lia|]. split.
  { destruct (new_location D f) as [|[]];
      cbv beta iota zeta delta [shr_record_of_loc shr_m]; lia. }
  unfold new_location, new_location_even, new_location_odd.
  destruct (Z.even D) eqn:Ev; destruct (Z.eqb_spec f 0) as [E0|N0].
  - cbv beta iota zeta delta [shr_record_of_loc shr_r shr_s].
    destruct (Z.leb_spec D (2 * f)); [lia|]. split; reflexivity.
  - destruct (Z.compare_spec (2 * f) D);
      cbv beta iota zeta delta [shr_record_of_loc shr_r shr_s];
      destruct (Z.leb_spec D (2 * f)), (Z.eqb_spec (2 * f) D);
      try lia; split; reflexivity.
  - cbv beta iota zeta delta [shr_record_of_loc shr_r shr_s].
    destruct (Z.leb_spec D (2 * f)); [lia|]. split; reflexivity.
  - specialize (Hodd eq_refl).
    destruct (Z.compare_spec (2 * f + 1) D);
      cbv beta iota zeta delta [shr_record_of_loc shr_r shr_s];
      destruct (Z.leb_spec D (2 * f)), (Z.eqb_spec (2 * f) D);
      try lia; split; reflexivity.
Qed.

Lemma div_rounds x y :
  fin x = true -> fin y = true -> R y <> 0 ->
  rounds_to (SFdiv prec emax x y) (xorb (sign_of x) (sign_of y))
            (rnd (Z.abs (R x) * 2 ^ scale) (Z.abs (R y))).
Proof.
  assert (Hs : 0 < 2 ^ scale) by (apply pow2_pos; unfold scale; lia).
  destruct x as [sx|sx| |sx mx ex], y as [sy|sy| |sy my ey];
    try discriminate; intros Hx Hy Hy0; try (simpl in Hy0; lia).
  - simpl in Hy. rewrite (R_finite _ _ _ Hy).
    apply bounded_inv in Hy.
    assert (0 < 2 ^ (ey + scale)) by (apply pow2_pos; unfold scale; lia).
    change (Z.abs (R (S754_zero sx))) with 0.
    rewrite Z.mul_0_l, rnd_0 by nia. split; reflexivity.
  - simpl in Hx, Hy. clear Hy0.
    rewrite !R_finite by assumption.
    pose proof (bounded_inv _ _ Hx) as (Bex & Bdx & Bnx).
    pose proof (bounded_inv _ _ Hy) as (Bey & Bdy & Bny).
    unfold SFdiv, SFdiv_core_binary. simpl sign_of.
    rewrite !Zdigits2_digits, fexp_eq.
    set (d1 := digits (Zpos mx)) in *. set (d2 := digits (Zpos my)) in *.
    set (E := d1 + ex - (d2 + ey)).
    set (e' := Z.min (Z.max (E - 53) (-1074)) (ex - ey)).
    set (s := ex - ey - e').
    assert (Hs0 : 0 <= s) by (unfold s, e'; lia).
    set (m' := match s with
               | 0 => Zpos mx
               | Zpos _ => Z.shiftl (Zpos mx) s
               | Zneg _ => 0
               end).
    assert (Hm' : m' = Zpos mx * 2 ^ s).
    { unfold m'. destruct s as [|p|p] eqn:Es; [simpl; lia| |lia].
      apply Z.shiftl_mul_pow2. lia. }
    assert (Hps : 0 < 2 ^ s) by (apply pow2_pos; lia).
    pose proof (Z.div_eucl_eq m' (Zpos my) ltac:(lia)) as Heucl.
    assert (Hq : fst (Z.div_eucl m' (Zpos my)) = m' / Zpos my) by reflexivity.
    assert (Hr : snd (Z.div_eucl m' (Zpos my)) = m' mod Zpos my) by reflexivity.
    destruct (Z.div_eucl m' (Zpos my)) as [q r]. simpl in Hq, Hr. clear Heucl.
    assert (Hp1 : 0 < 2 ^ (ex + scale)) by (apply pow2_pos; unfold scale; lia).
    assert (Hp2 : 0 < 2 ^ (ey + scale)) by (apply pow2_pos; unfold scale; lia).
    rewrite (rnd_ratio _ (Zpos my * 2 ^ (ey + scale))
                       (m' * 2 ^ (e' + scale)) (Zpos my)); [|nia|lia|].
    + apply bra_spec; try lia.
      * apply new_location_holds; [lia|assumption|assumption].
      * (* enough digits *)
        rewrite fexp_eq.
        assert (Hq0 : 0 <= q) by (rewrite Hq; apply Z.div_pos; nia).
        rewrite Zdigits2_nonneg by assumption.
        destruct (Z.le_gt_cases e' (-1074)) as [|Hnorm]; [lia|].
        assert (He' : e' <= E - 53) by (unfold e' in *; lia).
        set (t := E - 1 - e').
        assert (Ht : 52 <= t) by (unfold t; lia).
        assert (2 ^ t <= q).
        { rewrite Hq. apply Z.div_le_lower_bound; [lia|].
          pose proof (digits_bounds (Zpos mx) ltac:(lia)) as B1.
          pose proof (digits_bounds (Zpos my) ltac:(lia)) as B2.
          fold d1 in B1. fold d2 in B2.
          assert (0 < 2 ^ t) by (apply pow2_pos; lia).
          assert (2 ^ d2 * 2 ^ t = 2 ^ (d1 - 1) * 2 ^ s).
          { rewrite <- !Z.pow_add_r by lia. f_equal. unfold t, s, E. lia. }
          rewrite Hm'. nia. }
        pose proof (digits_ge q t ltac:(lia) ltac:(lia)). unfold t in *. lia.
      * unfold e', scale. lia.
    + rewrite Hm'.
      assert (E1 : 2 ^ (ex + scale) * 2 ^ scale
                   = 2 ^ s * 2 ^ (e' + scale) * 2 ^ (ey + scale)).
      { rewrite <- !Z.pow_add_r by (unfold e', scale in *; lia).
        f_equal. unfold s. lia. }
      transitivity (Zpos mx * Zpos my * (2 ^ (ex + scale) * 2 ^ scale));
        [ring|]. rewrite E1. ring.
Qed.

(** ** Order *)

Lemma mag_lt m1 e1 m2 e2 :
  bounded prec emax m1 e1 = true -> bounded prec emax m2 e2 = true ->
  e1 < e2 -> Zpos m1 * 2 ^ (e1 + scale) < Zpos m2 * 2 ^ (e2 + scale).
Proof.
  intros H1 H2 Hlt.
  apply bounded_inv in H1. apply bounded_inv in H2.
  destruct H1 as (Be1 & Bd1 & _). destruct H2 as (Be2 & Bd2 & Bn2).
  pose proof (lt_pow_digits (Zpos m1) ltac:(lia)) as U1.
  pose proof (digits_bounds (Zpos m2) ltac:(lia)) as L2.
  rewrite Bn2 in L2 by lia.
  assert (2 ^ digits (Zpos m1) <= 2 ^ 53) by (apply Z.pow_le_mono_r; lia).
  assert (Hp1 : 0 < 2 ^ (e1 + scale)) by (apply pow2_pos; unfold scale; lia).
  assert (E : 2 ^ (e2 + scale) = 2 ^ (e2 - e1 - 1) * 2 * 2 ^ (e1 + scale)).
  { replace (e2 + scale) with ((e2 - e1 - 1) + 1 + (e1 + scale)) by lia.
    rewrite !Z.pow_add_r by (unfold scale; lia). reflexivity. }
  assert (0 < 2 ^ (e2 - e1 - 1)) by (apply pow2_pos; lia).
  rewrite E. change (2 ^ (53 - 1)) with 4503599627370496 in L2.
  change (2 ^ 53) with 9007199254740992 in *. nia.
Qed.

Lemma mag_compare m1 e1 m2 e2 :
  bounded prec emax m1 e1 = true -> bounded prec emax m2 e2 = true ->
  match e1 ?= e2 with
  | Lt => Lt
  | Gt => Gt
  | Eq => Pos.compare_cont Eq m1 m2
  end
  = (Zpos m1 * 2 ^ (e1 + scale) ?= Zpos m2 * 2 ^ (e2 + scale)).
Proof.
  intros H1 H2. symmetry. destruct (Z.compare_spec e1 e2) as [E|L|G].
  - subst e2. apply bounded_inv in H1.
    assert (0 < 2 ^ (e1 + scale)) by (apply pow2_pos; unfold scale; lia).
    change (Pos.compare_cont Eq m1 m2) with (Zpos m1 ?= Zpos m2).
    destruct (Z.compare_spec (Zpos m1) (Zpos m2)) as [E|L|G].
    + rewrite E. apply Z.compare_refl.
    + apply Z.compare_lt_iff. nia.
    + apply Z.compare_gt_iff. nia.
  - apply Z.compare_lt_iff. apply mag_lt; assumption.
  - apply Z.compare_gt_iff. apply mag_lt; assumption.
Qed.

Lemma compare_R x y :
  fin x = true -> fin y = true -> SFcompare x y = Some (R x ?= R y).
Proof.
  destruct x as [sx|sx| |sx mx ex], y as [sy|sy| |sy my ey];
    try discriminate; intros Hx Hy; simpl in Hx, Hy.
  - reflexivity.
  - apply bounded_inv in Hy.
    assert (0 < 2 ^ (ey + scale)) by (apply pow2_pos; unfold scale; lia).
    unfold SFcompare, R, cond_Zopp. f_equal. symmetry.
    destruct sy; [apply Z.compare_gt_iff|apply Z.compare_lt_iff]; nia.
  - apply bounded_inv in Hx.
    assert (0 < 2 ^ (ex + scale)) by (apply pow2_pos; unfold scale; lia).
    unfold SFcompare, R, cond_Zopp. f_equal. symmetry.
    destruct sx; [apply Z.compare_lt_iff|apply Z.compare_gt_iff]; nia.
  - pose proof (mag_compare _ _ _ _ Hx Hy) as C.
    pose proof (mag_compare _ _ _ _ Hy Hx) as C'.
    apply bounded_inv in Hx. apply bounded_inv in Hy.
    assert (0 < 2 ^ (ex + scale)) by (apply pow2_pos; unfold scale; lia).
    assert (0 < 2 ^ (ey + scale)) by (apply pow2_pos; unfold scale; lia).
    unfold SFcompare, R, cond_Zopp. f_equal.
    destruct sx, sy.
    + rewrite Z.compare_opp, <- C', (Z.compare_antisym ex ey).
      change (Pos.compare_cont Eq my mx) with (my ?= mx)%positive.
      change (Pos.compare_cont Eq mx my) with (mx ?= my)%positive.
      rewrite (Pos.compare_antisym mx my).
      destruct (ex ?= ey); reflexivity.
    + symmetry. apply Z.compare_lt_iff. nia.
    + symmetry. apply Z.compare_gt_iff. nia.
    + exact C.
Qed.

Lemma leb_R x y :
  fin x = true -> fin y = true -> SFleb x y = true <-> R x <= R y.
Proof.
  intros Hx Hy. unfold SFleb. rewrite (compare_R x y Hx Hy).
  destruct (Z.compare_spec (R x) (R y)); split; intros; try lia;
    try reflexivity; try discriminate.
Qed.

Lemma ltb_R x y :
  fin x = true -> fin y = true -> SFltb x y = true <-> R x < R y.
Proof.
  intros Hx Hy. unfold SFltb. rewrite (compare_R x y Hx Hy).
  destruct (Z.compare_spec (R x) (R y)); split; intros; try lia;
    try reflexivity; try discriminate.
Qed.

(** ** Exact results and their rounding *)

Lemma rndZ_nonneg N D : 0 <= N -> 0 < D -> rndZ N D = rnd N D.
Proof.
  intros HN HD. unfold rndZ.
  destruct (Z.eq_dec N 0) as [->|]; [simpl; rewrite rnd_0 by lia; reflexivity|].
  rewrite Z.sgn_pos, Z.abs_eq by lia. lia.
Qed.

Lemma rndZ_neg N D : N < 0 -> rndZ N D = - rnd (- N) D.
Proof.
  intros HN. unfold rndZ. rewrite Z.sgn_neg, Z.abs_neq by lia. lia.
Qed.

Lemma rndZ_mono N1 D1 N2 D2 :
  0 < D1 -> 0 < D2 -> N1 * D2 <= N2 * D1 -> rndZ N1 D1 <= rndZ N2 D2.
Proof.
  intros H1 H2 Hle.
  destruct (Z.lt_ge_cases N1 0) as [Hn1|Hp1], (Z.lt_ge_cases N2 0) as [Hn2|Hp2].
  - rewrite !rndZ_neg by lia.
    assert (rnd (- N2) D2 <= rnd (- N1) D1) by (apply rnd_mono; nia). lia.
  - rewrite rndZ_neg, rndZ_nonneg by lia.
    pose proof (rnd_nonneg (- N1) D1 ltac:(lia) H1).
    pose proof (rnd_nonneg N2 D2 Hp2 H2). lia.
  - nia.
  - rewrite !rndZ_nonneg by lia. apply rnd_mono; lia.
Qed.

Lemma rndZ_abs N D : 0 < D -> Z.abs (rndZ N D) = rnd (Z.abs N) D.
Proof.
  intros HD. destruct (Z.lt_ge_cases N 0).
  - pose proof (rnd_nonneg (- N) D ltac:(lia) HD).
    rewrite rndZ_neg by lia. rewrite (Z.abs_neq N) by lia. lia.
  - rewrite rndZ_nonneg by lia. rewrite (Z.abs_eq N) by lia.
    apply Z.abs_eq. apply rnd_nonneg; lia.
Qed.

Lemma fin_R_bound z : fin z = true -> Z.abs (R z) < 2 ^ (emax + scale).
Proof.
  destruct z as [s|s| |s m e]; try discriminate; intros H.
  - apply pow2_pos. unfold emax, scale. lia.
  - simpl in H. rewrite (R_finite _ _ _ H).
    apply bounded_inv in H. destruct H as (Be & Bd & _).
    pose proof (lt_pow_digits (Zpos m) ltac:(lia)) as U.
    assert (2 ^ digits (Zpos m) <= 2 ^ 53) by (apply Z.pow_le_mono_r; lia).
    assert (0 < 2 ^ (e + scale)) by (apply pow2_pos; unfold scale; lia).
    assert (2 ^ (e + scale) <= 2 ^ (971 + scale))
      by (apply Z.pow_le_mono_r; unfold scale; lia).
    replace (emax + scale) with (53 + (971 + scale)) by (unfold emax; lia).
    rewrite (Z.pow_add_r 2 53 (971 + scale)) by (unfold scale; lia).
    apply Z.le_lt_trans with (Zpos m * 2 ^ (971 + scale)).
    + apply Z.mul_le_mono_nonneg_l; lia.
    + apply Z.mul_lt_mono_pos_r; [apply pow2_pos; unfold scale|]; lia.
Qed.

Lemma sign_R x :
  fin x = true ->
  (0 < R x -> sign_of x = false) /\ (R x < 0 -> sign_of x = true).
Proof.
  destruct x as [s|s| |s m e]; try discriminate; intros H; unfold R.
  - split; lia.
  - simpl in H. apply bounded_inv in H.
    assert (0 < 2 ^ (e + scale)) by (apply pow2_pos; unfold scale; lia).
    assert (0 < Zpos m * 2 ^ (e + scale)) by (apply Z.mul_pos_pos; lia).
    unfold cond_Zopp, sign_of. destruct s; split; intros; try reflexivity; lia.
Qed.

Lemma exact_fin z N D :
  exact z N D -> 0 < D -> rnd (Z.abs N) D < 2 ^ (emax + scale) ->
  fin z = true /\ R z = rndZ N D.
Proof.
  intros (s & Hr & Hpos & Hneg) HD Hv.
  destruct (rounds_to_fin z s _ Hr Hv) as (Hf & HR & _).
  split; [exact Hf|]. rewrite HR.
  destruct (Z.lt_trichotomy N 0) as [Hn|[->|Hp]].
  - rewrite (Hneg Hn), rndZ_neg by lia. rewrite Z.abs_neq by lia. reflexivity.
  - simpl Z.abs. rewrite rnd_0 by lia. unfold rndZ. simpl.
    destruct s; reflexivity.
  - rewrite (Hpos Hp), rndZ_nonneg by lia. rewrite Z.abs_eq by lia. reflexivity.
Qed.

Lemma exact_R z N D :
  exact z N D -> 0 < D -> fin z = true -> R z = rndZ N D.
Proof.
  intros He HD Hf. apply exact_fin; try assumption.
  destruct He as (s & Hr & _).
  destruct z as [s'|s'| |s' m e]; try discriminate.
  - destruct Hr as (_ & ->). apply pow2_pos. unfold emax, scale. lia.
  - destruct Hr as (_ & _ & <-).
    pose proof (fin_R_bound (S754_finite s' m e) Hf) as B.
    simpl in Hf. rewrite (R_finite _ _ _ Hf) in B. exact B.
Qed.

(** The rounding of a rational that lies between two others whose roundings
    are finite is finite and lies between them. *)
Lemma between z N D zl Nl Dl zh Nh Dh :
  exact z N D -> exact zl Nl Dl -> exact zh Nh Dh ->
  fin zl = true -> fin zh = true ->
  0 < D -> 0 < Dl -> 0 < Dh ->
  Nl * D <= N * Dl -> N * Dh <= Nh * D ->
  within zl zh z.
Proof.
  intros He Hel Heh Hfl Hfh HD HDl HDh Hlo Hhi.
  pose proof (exact_R _ _ _ Hel HDl Hfl) as Rl.
  pose proof (exact_R _ _ _ Heh HDh Hfh) as Rh.
  pose proof (rndZ_mono _ _ _ _ HDl HD Hlo) as M1.
  pose proof (rndZ_mono _ _ _ _ HD HDh Hhi) as M2.
  pose proof (fin_R_bound _ Hfl) as Bl. pose proof (fin_R_bound _ Hfh) as Bh.
  pose proof (rndZ_abs N D HD) as A.
  destruct (exact_fin z N D He HD) as (Hf & HR); [lia|].
  split; [exact Hfl|]. split; [exact Hfh|]. split; [exact Hf|]. lia.
Qed.

Lemma mul_exact x y :
  fin x = true -> fin y = true ->
  exact (SFmul prec emax x y) (R x * R y) (2 ^ scale).
Proof.
  intros Hx Hy. exists (xorb (sign_of x) (sign_of y)).
  rewrite Z.abs_mul. split; [apply mul_rounds; assumption|].
  pose proof (sign_R x Hx) as (Px & Nx). pose proof (sign_R y Hy) as (Py & Ny).
  split; intros H.
  - destruct (Z.lt_trichotomy (R x) 0) as [Hn|[E0|Hp]].
    + rewrite Nx, Ny by nia. reflexivity.
    + rewrite E0 in H. lia.
    + rewrite Px, Py by nia. reflexivity.
  - destruct (Z.lt_trichotomy (R x) 0) as [Hn|[E0|Hp]].
    + rewrite Nx, Py by nia. reflexivity.
    + rewrite E0 in H. lia.
    + rewrite Px, Ny by nia. reflexivity.
Qed.

Lemma add_exact x y :
  fin x = true -> fin y = true -> exact (SFadd prec emax x y) (R x + R y) 1.
Proof. intros Hx Hy. exact (add_rounds x y Hx Hy). Qed.

Lemma sub_exact x y :
  fin x = true -> fin y = true -> exact (SFsub prec emax x y) (R x - R y) 1.
Proof.
  intros Hx Hy. rewrite sub_add_opp.
  replace (R x - R y) with (R x + R (SFopp y)) by (rewrite R_opp; lia).
  apply add_exact; [assumption|rewrite fin_opp; assumption].
Qed.

Lemma div_exact x y :
  fin x = true -> fin y = true -> R y <> 0 ->
  exact (SFdiv prec emax x y) (R x * 2 ^ scale * Z.sgn (R y)) (Z.abs (R y)).
Proof.
  intros Hx Hy Hy0. exists (xorb (sign_of x) (sign_of y)).
  assert (Hs : 0 < 2 ^ scale) by (apply pow2_pos; unfold scale; lia).
  replace (Z.abs (R x * 2 ^ scale * Z.sgn (R y)))
    with (Z.abs (R x) * 2 ^ scale).
  2:{ rewrite !Z.abs_mul, (Z.abs_eq (2 ^ scale)) by lia.
      destruct (Z.lt_trichotomy (R y) 0) as [Hn|[E0|Hp]]; [|lia|].
      - rewrite Z.sgn_neg by lia. simpl. lia.
      - rewrite Z.sgn_pos by lia. simpl. lia. }
  split; [apply div_rounds; assumption|].
  pose proof (sign_R x Hx) as (Px & Nx). pose proof (sign_R y Hy) as (Py & Ny).
  split; intros H.
  - destruct (Z.lt_trichotomy (R y) 0) as [Hn|[E0|Hp]]; [|lia|].
    + rewrite Z.sgn_neg in H by lia. rewrite Nx, Ny by nia. reflexivity.
    + rewrite Z.sgn_pos in H by lia. rewrite Px, Py by nia. reflexivity.
  - destruct (Z.lt_trichotomy (R y) 0) as [Hn|[E0|Hp]]; [|lia|].
    + rewrite Z.sgn_neg in H by lia. rewrite Px, Ny by nia. reflexivity.
    + rewrite Z.sgn_pos in H by lia. rewrite Nx, Py by nia. reflexivity.
Qed.

(** ** Intervals of numbers *)

Lemma nonneg_R x : nonneg x = true -> fin x = true /\ 0 <= R x.
Proof.
  destruct x as [s|s| |s m e]; try discriminate; intros H.
  - split; [reflexivity|simpl; lia].
  - simpl in H. apply andb_prop in H. destruct H as (Hs & Hb).
    destruct s; [discriminate|]. split; [exact Hb|].
    apply bounded_inv in Hb.
    assert (0 < 2 ^ (e + scale)) by (apply pow2_pos; unfold scale; lia).
    unfold R, cond_Zopp. nia.
Qed.

Lemma positive_R x : positive_number x = true -> fin x = true /\ 0 < R x.
Proof.
  destruct x as [s|s| |s m e]; try discriminate; intros H.
  simpl in H. apply andb_prop in H. destruct H as (Hs & Hb).
  destruct s; [discriminate|]. split; [exact Hb|].
  apply bounded_inv in Hb.
  assert (0 < 2 ^ (e + scale)) by (apply pow2_pos; unfold scale; lia).
  unfold R, cond_Zopp. nia.
Qed.

Lemma within_const c : fin c = true -> within c c c.
Proof. intros H. unfold within. repeat split; try assumption; lia. Qed.

Lemma within_weaken lo hi lo' hi' x :
  within lo hi x -> fin lo' = true -> fin hi' = true ->
  SFleb lo' lo = true -> SFleb hi hi' = true -> within lo' hi' x.
Proof.
  intros (Hl & Hh & Hx & B) Hl' Hh' L U.
  apply leb_R in L; [|assumption|assumption].
  apply leb_R in U; [|assumption|assumption].
  unfold within. repeat split; try assumption; lia.
Qed.

Lemma within_add a b c d x y :
  within a b x -> within c d y ->
  fin (a + c)%js = true -> fin (b + d)%js = true ->
  within (a + c)%js (b + d)%js (x + y)%js.
Proof.
  intros (Ha & Hb & Hx & Bx) (Hc & Hd & Hy & By) Hl Hh.
  apply (between _ (R x + R y) 1 _ (R a + R c) 1 _ (R b + R d) 1);
    try (apply add_exact; assumption); try assumption; lia.
Qed.

Lemma within_sub a b c d x y :
  within a b x -> within c d y ->
  fin (a - d)%js = true -> fin (b - c)%js = true ->
  within (a - d)%js (b - c)%js (x - y)%js.
Proof.
  intros (Ha & Hb & Hx & Bx) (Hc & Hd & Hy & By) Hl Hh.
  apply (between _ (R x - R y) 1 _ (R a - R d) 1 _ (R b - R c) 1);
    try (apply sub_exact; assumption); try assumption; lia.
Qed.

(** Product of two nonnegative factors. *)
Lemma within_mul a b c d x y :
  within a b x -> within c d y -> nonneg a = true -> nonneg c = true ->
  fin (a * c)%js = true -> fin (b * d)%js = true ->
  within (a * c)%js (b * d)%js (x * y)%js.
Proof.
  intros (Ha & Hb & Hx & Bx) (Hc & Hd & Hy & By) Na Nc Hl Hh.
  apply nonneg_R in Na, Nc. destruct Na as (_ & Na), Nc as (_ & Nc).
  assert (Hs : 0 < 2 ^ scale) by (apply pow2_pos; unfold scale; lia).
  apply (between _ (R x * R y) (2 ^ scale) _ (R a * R c) (2 ^ scale)
                 _ (R b * R d) (2 ^ scale));
    try (apply mul_exact; assumption); try assumption;
    apply Z.mul_le_mono_nonneg_r; try lia; nia.
Qed.

(** Product with a nonnegative constant, on either side. *)
Lemma within_mul_r a b c x :
  within a b x -> nonneg c = true ->
  fin (a * c)%js = true -> fin (b * c)%js = true ->
  within (a * c)%js (b * c)%js (x * c)%js.
Proof.
  intros (Ha & Hb & Hx & Bx) Nc Hl Hh.
  apply nonneg_R in Nc. destruct Nc as (Hc & Nc).
  assert (Hs : 0 < 2 ^ scale) by (apply pow2_pos; unfold scale; lia).
  apply (between _ (R x * R c) (2 ^ scale) _ (R a * R c) (2 ^ scale)
                 _ (R b * R c) (2 ^ scale));
    try (apply mul_exact; assumption); try assumption;
    apply Z.mul_le_mono_nonneg_r; try lia; nia.
Qed.

Lemma within_mul_l a b c x :
  within a b x -> nonneg c = true ->
  fin (c * a)%js = true -> fin (c * b)%js = true ->
  within (c * a)%js (c * b)%js (c * x)%js.
Proof.
  intros (Ha & Hb & Hx & Bx) Nc Hl Hh.
  apply nonneg_R in Nc. destruct Nc as (Hc & Nc).
  assert (Hs : 0 < 2 ^ scale) by (apply pow2_pos; unfold scale; lia).
  apply (between _ (R c * R x) (2 ^ scale) _ (R c * R a) (2 ^ scale)
                 _ (R c * R b) (2 ^ scale));
    try (apply mul_exact; assumption); try assumption;
    apply Z.mul_le_mono_nonneg_r; try lia; nia.
Qed.

(** Quotient of a nonnegative number by a positive one. *)
Lemma within_div a b c d x y :
  within a b x -> within c d y -> nonneg a = true ->
  positive_number c = true ->
  fin (a / d)%js = true -> fin (b / c)%js = true ->
  within (a / d)%js (b / c)%js (x / y)%js.
Proof.
  intros (Ha & Hb & Hx & Bx) (Hc & Hd & Hy & By) Na Pc Hl Hh.
  apply nonneg_R in Na. destruct Na as (_ & Na).
  apply positive_R in Pc. destruct Pc as (_ & Pc).
  assert (Hs : 0 < 2 ^ scale) by (apply pow2_pos; unfold scale; lia).
  pose proof (div_exact x y Hx Hy ltac:(lia)) as E.
  pose proof (div_exact a d Ha Hd ltac:(lia)) as El.
  pose proof (div_exact b c Hb Hc ltac:(lia)) as Eh.
  rewrite Z.sgn_pos, Z.mul_1_r, Z.abs_eq in E, El, Eh by lia.
  apply (between _ _ _ _ _ _ _ _ _ E El Eh); try assumption; try lia.
  - assert (R a * R y <= R x * R d) by nia. nia.
  - assert (R x * R c <= R b * R y) by nia. nia.
Qed.

(** Quotient by a positive constant. *)
Lemma within_div_r a b c x :
  within a b x -> positive_number c = true ->
  fin (a / c)%js = true -> fin (b / c)%js = true ->
  within (a / c)%js (b / c)%js (x / c)%js.
Proof.
  intros (Ha & Hb & Hx & Bx) Pc Hl Hh.
  apply positive_R in Pc. destruct Pc as (Hc & Pc).
  assert (Hs : 0 < 2 ^ scale) by (apply pow2_pos; unfold scale; lia).
  pose proof (div_exact x c Hx Hc ltac:(lia)) as E.
  pose proof (div_exact a c Ha Hc ltac:(lia)) as El.
  pose proof (div_exact b c Hb Hc ltac:(lia)) as Eh.
  rewrite Z.sgn_pos, Z.mul_1_r, Z.abs_eq in E, El, Eh by lia.
  apply (between _ _ _ _ _ _ _ _ _ E El Eh); try assumption; try lia.
  - assert (R a * 2 ^ scale <= R x * 2 ^ scale) by nia. nia.
  - assert (R x * 2 ^ scale <= R b * 2 ^ scale) by nia. nia.
Qed.

Lemma fin_abs x : fin (Math_abs x) = fin x.
Proof. destruct x; reflexivity. Qed.

Lemma R_abs x : fin x = true -> R (Math_abs x) = Z.abs (R x).
Proof.
  destruct x as [s|s| |s m e]; try discriminate; intros H; [reflexivity|].
  simpl in H. apply bounded_inv in H.
  assert (0 < 2 ^ (e + scale)) by (apply pow2_pos; unfold scale; lia).
  unfold Math_abs, SFabs, R, cond_Zopp. destruct s; nia.
Qed.

(** The magnitude of a number between [a] and [b] is at most [h] when both
    [-a] and [b] are. *)
Lemma within_abs a b h x :
  within a b x -> fin h = true ->
  SFleb (SFopp a) h = true -> SFleb b h = true ->
  within (S754_zero false) h (Math_abs x).
Proof.
  intros (Ha & Hb & Hx & Bx) Hh L U.
  apply leb_R in L; [|rewrite fin_opp; assumption|assumption].
  apply leb_R in U; [|assumption|assumption].
  rewrite R_opp in L.
  unfold within. rewrite fin_abs, R_abs by assumption.
  repeat split; try assumption; simpl R; lia.
Qed.

(** The magnitude of a nonnegative number is the number. *)
Lemma within_abs_nonneg a b x :
  within a b x -> nonneg a = true -> within a b (Math_abs x).
Proof.
  intros (Ha & Hb & Hx & Bx) Na. apply nonneg_R in Na. destruct Na as (_ & Na).
  unfold within. rewrite fin_abs, R_abs by assumption.
  repeat split; try assumption; lia.
Qed.

Lemma max_R a x :
  fin a = true -> fin x = true ->
  fin (Math_max a x) = true /\ R (Math_max a x) = Z.max (R a) (R x).
Proof.
  intros Ha Hx. unfold Math_max. rewrite (compare_R a x Ha Hx).
  destruct (Z.compare_spec (R a) (R x)) as [E|L|G].
  - destruct a as [[]| | |], x as [[]| | |]; (split; [assumption|lia]).
  - split; [assumption|lia].
  - split; [assumption|lia].
Qed.

Lemma min_R a x :
  fin a = true -> fin x = true ->
  fin (Math_min a x) = true /\ R (Math_min a x) = Z.min (R a) (R x).
Proof.
  intros Ha Hx. unfold Math_min. rewrite (compare_R a x Ha Hx).
  destruct (Z.compare_spec (R a) (R x)) as [E|L|G].
  - destruct a as [[]| | |], x as [[]| | |]; (split; [assumption|lia]).
  - split; [assumption|lia].
  - split; [assumption|lia].
Qed.

Lemma within_max a b c x :
  within a b x -> fin c = true ->
  within (Math_max c a) (Math_max c b) (Math_max c x).
Proof.
  intros (Ha & Hb & Hx & Bx) Hc.
  destruct (max_R c a Hc Ha) as (F1 & R1).
  destruct (max_R c b Hc Hb) as (F2 & R2).
  destruct (max_R c x Hc Hx) as (F3 & R3).
  unfold within. rewrite R1, R2, R3. repeat split; try assumption; lia.
Qed.

Lemma within_min a b c x :
  within a b x -> fin c = true ->
  within (Math_min c a) (Math_min c b) (Math_min c x).
Proof.
  intros (Ha & Hb & Hx & Bx) Hc.
  destruct (min_R c a Hc Ha) as (F1 & R1).
  destruct (min_R c b Hc Hb) as (F2 & R2).
  destruct (min_R c x Hc Hx) as (F3 & R3).
  unfold within. rewrite R1, R2, R3. repeat split; try assumption; lia.
Qed.

(** *** [Math.round] *)

Lemma nearest_integer k : nearest (k * 2 ^ scale) = k.
Proof.
  assert (Hs : 0 < 2 ^ scale) by (apply pow2_pos; unfold scale; lia).
  unfold nearest. rewrite Z.pow_add_r by (unfold scale; lia).
  replace (2 * (k * 2 ^ scale) + 2 ^ scale) with (2 ^ scale * (2 * k + 1))
    by ring.
  rewrite Z.div_mul_cancel_l by lia. change (2 ^ 1) with 2.
  symmetry. apply (Z.div_unique _ 2 k 1); lia.
Qed.

Lemma nearest_mono u v : u <= v -> nearest u <= nearest v.
Proof.
  intros H. unfold nearest. apply Z.div_le_mono; [|lia].
  apply pow2_pos. unfold scale. lia.
Qed.

Lemma exact_self x : fin x = true -> exact x (R x) 1.
Proof.
  intros H. exists (sign_of x). split; [apply rounds_to_self, H|].
  exact (sign_R x H).
Qed.

Lemma round_exact x :
  fin x = true -> exact (Math_round x) (nearest (R x) * 2 ^ scale) 1.
Proof.
  assert (Hs : 0 < 2 ^ scale) by (apply pow2_pos; unfold scale; lia).
  destruct x as [s|s| |s m e]; try discriminate; intros H.
  - change (R (S754_zero s)) with (0 * 2 ^ scale).
    rewrite nearest_integer. exact (exact_self (S754_zero s) eq_refl).
  - pose proof H as Hb. simpl in Hb. apply bounded_inv in Hb.
    destruct Hb as (Be & _).
    assert (HR : R (S754_finite s m e) = signed s m * 2 ^ (e + scale)).
    { unfold R, signed, cond_Zopp. destruct s; ring. }
    unfold Math_round. destruct (Z.leb_spec 0 e) as [Hpos|Hneg].
    + (* already an integer *)
      replace (nearest (R (S754_finite s m e)) * 2 ^ scale)
        with (R (S754_finite s m e)); [apply exact_self, H|].
      rewrite HR, Z.pow_add_r by (unfold scale; lia).
      rewrite Z.mul_assoc, nearest_integer. reflexivity.
    + (* a fraction is dropped *)
      assert (Hp : 0 < 2 ^ (e + scale)) by (apply pow2_pos; unfold scale; lia).
      assert (Hn : nearest (R (S754_finite s m e))
                   = (2 * signed s m + 2 ^ (- e)) / 2 ^ (1 - e)).
      { unfold nearest. rewrite HR.
        replace (2 ^ scale) with (2 ^ (e + scale) * 2 ^ (- e)).
        2:{ rewrite <- Z.pow_add_r by (unfold scale; lia). f_equal. lia. }
        replace (2 ^ (scale + 1)) with (2 ^ (e + scale) * 2 ^ (1 - e)).
        2:{ rewrite <- Z.pow_add_r by (unfold scale; lia). f_equal. lia. }
        replace (2 * (signed s m * 2 ^ (e + scale))
                 + 2 ^ (e + scale) * 2 ^ (- e))
          with (2 ^ (e + scale) * (2 * signed s m + 2 ^ (- e))) by ring.
        apply Z.div_mul_cancel_l; [|lia].
        assert (0 < 2 ^ (1 - e)) by (apply pow2_pos; lia). lia. }
      rewrite Hn. set (n := (2 * signed s m + 2 ^ (- e)) / 2 ^ (1 - e)).
      unfold integral. destruct (Z.eqb_spec n 0) as [E0|N0].
      * rewrite E0. exact (exact_self (S754_zero s) eq_refl).
      * exists (n <? 0). rewrite Z.abs_mul, (Z.abs_eq (2 ^ scale)) by lia.
        split; [apply (binary_normalize_rounds n 0); unfold scale; lia|].
        split; intros Hsg; [apply Z.ltb_ge|apply Z.ltb_lt]; nia.
Qed.

Lemma within_round a b x :
  within a b x ->
  fin (Math_round a) = true -> fin (Math_round b) = true ->
  within (Math_round a) (Math_round b) (Math_round x).
Proof.
  intros (Ha & Hb & Hx & Bx) Hl Hh.
  assert (Hs : 0 < 2 ^ scale) by (apply pow2_pos; unfold scale; lia).
  pose proof (nearest_mono _ _ (proj1 Bx)).
  pose proof (nearest_mono _ _ (proj2 Bx)).
  apply (between _ _ 1 _ _ 1 _ _ 1 (round_exact x Hx) (round_exact a Ha)
                 (round_exact b Hb)); try assumption; try lia; nia.
Qed.

(** *** Draws and comparisons *)

Lemma unit_draw_within r :
  unit_draw r = true -> within (S754_zero false) 1%js r.
Proof.
  unfold unit_draw. intros H. apply andb_prop in H. destruct H as (Hv & H).
  assert (F1 : fin 1%js = true) by reflexivity.
  destruct r as [s|s| |s m e]; try discriminate.
  - unfold within. repeat split; try reflexivity.
    apply nonneg_R. reflexivity.
  - apply andb_prop in H. destruct H as (Hs & Hlt).
    destruct s; [discriminate|]. simpl in Hv. unfold JS.lt in Hlt.
    apply (ltb_R (S754_finite false m e) _ Hv F1) in Hlt.
    destruct (nonneg_R (S754_finite false m e)) as (_ & H0);
      [simpl; exact Hv|].
    unfold within. change (R (S754_zero false)) with 0.
    split; [reflexivity|]. split; [exact F1|]. split; [exact Hv|]. lia.
Qed.

Lemma within_eq lo hi lo' hi' x :
  within lo hi x -> lo = lo' -> hi = hi' -> within lo' hi' x.
Proof. intros H <- <-. exact H. Qed.

Lemma within_ge lo hi x c :
  within lo hi x -> fin c = true -> SFleb c lo = true -> (c <= x)%js = true.
Proof.
  intros (Hl & Hh & Hx & B) Hc L. apply (leb_R _ _ Hc Hl) in L.
  apply leb_R; try assumption. lia.
Qed.

Lemma within_le lo hi x c :
  within lo hi x -> fin c = true -> SFleb hi c = true -> (x <= c)%js = true.
Proof.
  intros (Hl & Hh & Hx & B) Hc U. apply (leb_R _ _ Hh Hc) in U.
  apply leb_R; try assumption. lia.
Qed.

Lemma within_gt lo hi x c :
  within lo hi x -> fin c = true -> SFltb c lo = true -> (x > c)%js = true.
Proof.
  intros (Hl & Hh & Hx & B) Hc L. apply (ltb_R _ _ Hc Hl) in L.
  apply ltb_R; try assumption. lia.
Qed.

Lemma within_not_lt lo hi x c :
  within lo hi x -> fin c = true -> SFleb c lo = true -> (x < c)%js = false.
Proof.
  intros (Hl & Hh & Hx & B) Hc L. apply (leb_R _ _ Hc Hl) in L.
  destruct (x < c)%js eqn:E; [|reflexivity].
  apply (ltb_R _ _ Hx Hc) in E. lia.
Qed.

Lemma within_not_gt lo hi x c :
  within lo hi x -> fin c = true -> SFleb hi c = true -> (x > c)%js = false.
Proof.
  intros (Hl & Hh & Hx & B) Hc U. apply (leb_R _ _ Hh Hc) in U.
  destruct (x > c)%js eqn:E; [|reflexivity].
  apply (ltb_R _ _ Hc Hx) in E. lia.
Qed.

(** ** Rounding error *)

Lemma rhe_error N D : 0 < D -> 2 * Z.abs (rhe N D * D - N) <= D.
Proof.
  intros HD. unfold rhe. cbv zeta.
  pose proof (Z.div_mod N D ltac:(lia)) as E.
  pose proof (Z.mod_pos_bound N D HD) as B.
  destruct (Z.ltb_spec (2 * (N mod D)) D); [nia|].
  destruct (Z.ltb_spec D (2 * (N mod D))); [nia|].
  destruct (Z.even (N / D)); nia.
Qed.

(** A ratio below [2 ^ j] is rounded with an error of at most half a unit
    in the last place of that binade. *)
Lemma rnd_error N D j :
  0 <= N -> 0 < D -> scale - 1021 <= j -> N < D * 2 ^ j ->
  2 * Z.abs (rnd N D * D - N) <= D * 2 ^ (j - 53).
Proof.
  intros HN HD Hj Hlt. unfold rnd. cbv zeta.
  assert (Hj0 : 0 <= j) by (unfold scale in Hj; lia).
  assert (Hq : 0 <= N / D < 2 ^ j).
  { split; [apply Z.div_pos; lia|apply Z.div_lt_upper_bound; lia]. }
  pose proof (digits_le _ _ Hj0 Hq) as Hd.
  pose proof (ulp_exp_nonneg N D) as Hk.
  assert (Hkj : ulp_exp N D <= j - 53) by (unfold ulp_exp; lia).
  set (k := ulp_exp N D) in *.
  pose proof (pow2_pos k Hk) as Hp.
  pose proof (rhe_error N (D * 2 ^ k) ltac:(nia)) as He.
  assert (Hm : 2 ^ k <= 2 ^ (j - 53)) by (apply Z.pow_le_mono_r; lia).
  replace (rhe N (D * 2 ^ k) * 2 ^ k * D) with (rhe N (D * 2 ^ k) * (D * 2 ^ k))
    by ring.
  nia.
Qed.

Lemma rndZ_error N D j :
  0 < D -> scale - 1021 <= j -> Z.abs N < D * 2 ^ j ->
  2 * Z.abs (rndZ N D * D - N) <= D * 2 ^ (j - 53).
Proof.
  intros HD Hj Hlt.
  destruct (Z.lt_trichotomy N 0) as [Hn|[->|Hp]].
  - rewrite rndZ_neg by lia.
    pose proof (rnd_error (- N) D j ltac:(lia) HD Hj ltac:(lia)). lia.
  - rewrite rndZ_nonneg by lia. rewrite rnd_0 by lia.
    assert (0 < 2 ^ (j - 53)) by (apply pow2_pos; unfold scale in Hj; lia).
    simpl. nia.
  - rewrite rndZ_nonneg by lia.
    exact (rnd_error N D j ltac:(lia) HD Hj ltac:(lia)).
Qed.

Lemma eps_pos : 0 < eps.
Proof. apply pow2_pos. unfold scale. lia. Qed.

Lemma scale_eps : 2 ^ scale = 17592186044416 * eps.
Proof.
  unfold eps. change 17592186044416 with (2 ^ 44).
  rewrite <- Z.pow_add_r by (unfold scale; lia). reflexivity.
Qed.

Lemma exact_error z N D j :
  exact z N D -> 0 < D -> scale - 1021 <= j < emax + scale ->
  Z.abs N < D * 2 ^ j ->
  fin z = true /\ 2 * Z.abs (R z * D - N) <= D * 2 ^ (j - 53).
Proof.
  intros Hz HD Hj Hlt.
  assert (Hj0 : 0 <= j - 53) by (unfold scale in Hj; lia).
  pose proof (rnd_error (Z.abs N) D j ltac:(lia) HD ltac:(lia) Hlt) as He.
  assert (Hp : 2 * 2 ^ (j - 53) <= 2 ^ j).
  { replace j with (53 + (j - 53)) at 2 by lia.
    rewrite Z.pow_add_r by lia.
    assert (0 < 2 ^ (j - 53)) by (apply pow2_pos; lia).
    change (2 ^ 53) with 9007199254740992. lia. }
  assert (Hfin : rnd (Z.abs N) D < 2 ^ (emax + scale)).
  { assert (2 ^ (j + 1) <= 2 ^ (emax + scale))
      by (apply Z.pow_le_mono_r; lia).
    rewrite Z.pow_add_r in H by lia. change (2 ^ 1) with 2 in H.
    assert (rnd (Z.abs N) D * D < 2 * 2 ^ j * D) by nia.
    nia. }
  destruct (exact_fin z N D Hz HD Hfin) as (F & E).
  split; [exact F|]. rewrite E.
  apply rndZ_error; lia.
Qed.

(** The operations on numbers below 1024 in magnitude: the result is finite
    and off the exact one by at most [eps]. *)
Lemma mul_error x y :
  fin x = true -> fin y = true ->
  Z.abs (R x * R y) < 2 ^ scale * 2 ^ (scale + 10) ->
  fin (x * y)%js = true
  /\ Z.abs (R (x * y)%js * 2 ^ scale - R x * R y) <= 2 ^ scale * eps.
Proof.
  intros Hx Hy Hlt.
  assert (Hs : 0 < 2 ^ scale) by (apply pow2_pos; unfold scale; lia).
  destruct (exact_error _ _ _ (scale + 10) (mul_exact x y Hx Hy) Hs
              ltac:(unfold scale, emax; lia) Hlt) as (F & E).
  split; [exact F|].
  replace (scale + 10 - 53) with (1 + (scale - 44)) in E by lia.
  rewrite Z.pow_add_r in E by (unfold scale; lia).
  change (2 ^ 1) with 2 in E. fold eps in E. unfold JS.mul. lia.
Qed.

Lemma sub_error x y :
  fin x = true -> fin y = true ->
  Z.abs (R x - R y) < 2 ^ (scale + 10) ->
  fin (x - y)%js = true
  /\ Z.abs (R (x - y)%js - (R x - R y)) <= eps.
Proof.
  intros Hx Hy Hlt.
  destruct (exact_error _ _ _ (scale + 10) (sub_exact x y Hx Hy) ltac:(lia)
              ltac:(unfold scale, emax; lia) ltac:(lia)) as (F & E).
  split; [exact F|].
  replace (scale + 10 - 53) with (1 + (scale - 44)) in E by lia.
  rewrite Z.pow_add_r in E by (unfold scale; lia).
  change (2 ^ 1) with 2 in E. fold eps in E. unfold JS.sub. lia.
Qed.

Lemma div_error x y :
  fin x = true -> fin y = true -> 0 < R y ->
  Z.abs (R x) * 2 ^ scale < R y * 2 ^ (scale + 10) ->
  fin (x / y)%js = true
  /\ Z.abs (R (x / y)%js * R y - R x * 2 ^ scale) <= R y * eps.
Proof.
  intros Hx Hy Hpos Hlt.
  assert (Hs : 0 < 2 ^ scale) by (apply pow2_pos; unfold scale; lia).
  pose proof (div_exact x y Hx Hy ltac:(lia)) as Hd.
  rewrite (Z.abs_eq (R y)), (Z.sgn_pos (R y)), Z.mul_1_r in Hd by lia.
  destruct (exact_error _ _ _ (scale + 10) Hd Hpos
              ltac:(unfold scale, emax; lia)) as (F & E).
  { rewrite Z.abs_mul, (Z.abs_eq (2 ^ scale)) by lia. exact Hlt. }
  split; [exact F|].
  replace (scale + 10 - 53) with (1 + (scale - 44)) in E by lia.
  rewrite Z.pow_add_r in E by (unfold scale; lia).
  change (2 ^ 1) with 2 in E. fold eps in E. unfold JS.div. lia.
Qed.

Lemma nearest_error v : 2 * Z.abs (nearest v * 2 ^ scale - v) <= 2 ^ scale.
Proof.
  assert (Hs : 0 < 2 ^ scale) by (apply pow2_pos; unfold scale; lia).
  unfold nearest. rewrite Z.pow_add_r by (unfold scale; lia).
  change (2 ^ 1) with 2.
  pose proof (Z.div_mod (2 * v + 2 ^ scale) (2 ^ scale * 2) ltac:(lia)) as E.
  pose proof (Z.mod_pos_bound (2 * v + 2 ^ scale) (2 ^ scale * 2) ltac:(lia)) as B.
  set (q := (2 * v + 2 ^ scale) / (2 ^ scale * 2)) in *. nia.
Qed.

Lemma round_error x :
  fin x = true -> Z.abs (R x) <= 1001 * 2 ^ scale ->
  fin (Math_round x) = true
  /\ 2 * Z.abs (R (Math_round x) - R x) <= 2 ^ scale + 2 * eps.
Proof.
  intros Hx Hlt.
  assert (Hs : 0 < 2 ^ scale) by (apply pow2_pos; unfold scale; lia).
  pose proof (nearest_error (R x)) as Hn.
  assert (Hp : 2 ^ (scale + 10) = 1024 * 2 ^ scale).
  { rewrite Z.pow_add_r by (unfold scale; lia). change (2 ^ 10) with 1024. lia. }
  destruct (exact_error _ _ _ (scale + 10) (round_exact x Hx) ltac:(lia)
              ltac:(unfold scale, emax; lia) ltac:(lia)) as (F & E).
  split; [exact F|].
  replace (scale + 10 - 53) with (1 + (scale - 44)) in E by lia.
  rewrite Z.pow_add_r in E by (unfold scale; lia).
  change (2 ^ 1) with 2 in E. fold eps in E. lia.
Qed.

Lemma R_ten : R 10%js = 10 * 2 ^ scale.
Proof. vm_compute. reflexivity. Qed.

Lemma cancel_scale a b : 2 ^ scale * a <= 2 ^ scale * b -> a <= b.
Proof.
  assert (Hs : 0 < 2 ^ scale) by (apply pow2_pos; unfold scale; lia).
  intros H. nia.
Qed.

(** Rounding a number of magnitude up to 100 to one decimal moves it by at
    most a twentieth, up to the rounding of the three operations. *)
Lemma round1_error x :
  fin x = true -> Z.abs (R x) <= 100 * 2 ^ scale ->
  fin (round1 x) = true
  /\ 20 * Z.abs (R (round1 x) - R x) <= 2 ^ scale + 24 * eps.
Proof.
  intros Hx Hb.
  assert (Hs : 0 < 2 ^ scale) by (apply pow2_pos; unfold scale; lia).
  pose proof eps_pos as He. pose proof scale_eps as Hse.
  assert (Hp : 2 ^ (scale + 10) = 1024 * 2 ^ scale).
  { rewrite Z.pow_add_r by (unfold scale; lia). change (2 ^ 10) with 1024. lia. }
  assert (F10 : fin 10%js = true) by reflexivity.
  unfold round1.
  (* x * 10 *)
  destruct (mul_error x 10%js Hx F10) as (Ft & Et).
  { rewrite R_ten, Hp. rewrite Z.abs_mul, (Z.abs_eq (10 * 2 ^ scale)) by lia.
    nia. }
  rewrite R_ten in Et.
  assert (Et' : Z.abs (R (x * 10)%js - 10 * R x) <= eps).
  { apply cancel_scale.
    replace (2 ^ scale * Z.abs (R (x * 10)%js - 10 * R x))
      with (Z.abs (R (x * 10)%js * 2 ^ scale - R x * (10 * 2 ^ scale)));
      [lia|]. 
    replace (R (x * 10)%js * 2 ^ scale - R x * (10 * 2 ^ scale))
      with (2 ^ scale * (R (x * 10)%js - 10 * R x)) by ring.
    rewrite Z.abs_mul, (Z.abs_eq (2 ^ scale)) by lia. reflexivity. }
  clear Et.
  (* Math.round *)
  destruct (round_error (x * 10)%js Ft ltac:(lia)) as (Fn & En).
  (* / 10 *)
  destruct (div_error (Math_round (x * 10)%js) 10%js Fn F10) as (Fr & Er).
  { rewrite R_ten. lia. }
  { rewrite R_ten, Hp. nia. }
  split; [exact Fr|].
  rewrite R_ten in Er.
  assert (Er' : Z.abs (10 * R (Math_round (x * 10) / 10)%js
                       - R (Math_round (x * 10)%js)) <= 10 * eps).
  { apply cancel_scale.
    replace (2 ^ scale * Z.abs (10 * R (Math_round (x * 10) / 10)%js
                                - R (Math_round (x * 10)%js)))
      with (Z.abs (R (Math_round (x * 10) / 10)%js * (10 * 2 ^ scale)
                   - R (Math_round (x * 10)%js) * 2 ^ scale)); [lia|].
    replace (R (Math_round (x * 10) / 10)%js * (10 * 2 ^ scale)
             - R (Math_round (x * 10)%js) * 2 ^ scale)
      with (2 ^ scale * (10 * R (Math_round (x * 10) / 10)%js
                         - R (Math_round (x * 10)%js))) by ring.
    rewrite Z.abs_mul, (Z.abs_eq (2 ^ scale)) by lia. reflexivity. }
  lia.
Qed.

Lemma R_bounds :
  R 28%js = 28 * 2 ^ scale /\ 2 * R 2.5%js = 5 * 2 ^ scale
  /\ 159 * 2 ^ scale <= 100 * R 1.6%js /\ R (S754_zero false) = 0.
Proof.
  split; [vm_compute; reflexivity|].
  split; [vm_compute; reflexivity|].
  split; [apply Z.leb_le; vm_compute; reflexivity|reflexivity].
Qed.

Lemma abs_mul_le a b A B :
  Z.abs a <= A -> Z.abs b <= B -> Z.abs (a * b) <= A * B.
Proof. intros Ha Hb. rewrite Z.abs_mul. apply Z.mul_le_mono_nonneg; lia. Qed.

(** The one-decimal rounding of a product against the product of the
    one-decimal roundings of its factors, for a voltage up to 28 and a
    current up to 2.5: they are at most 1.6 apart. *)
Lemma round1_product v i :
  within (S754_zero false) 28%js v -> within (S754_zero false) 2.5%js i ->
  (Math_abs (round1 (v * i) - round1 v * round1 i) <= 1.6)%js = true.
Proof.
  intros (_ & _ & Fv & Bv) (_ & _ & Fi & Bi).
  destruct R_bounds as (R28 & R25 & R16 & R0).
  rewrite R0, R28 in Bv. rewrite R0 in Bi.
  assert (Hs : 0 < 2 ^ scale) by (apply pow2_pos; unfold scale; lia).
  pose proof eps_pos as He. pose proof scale_eps as Hse.
  assert (Hp : 2 ^ (scale + 10) = 1024 * 2 ^ scale).
  { rewrite Z.pow_add_r by (unfold scale; lia). change (2 ^ 10) with 1024. lia. }
  (* the unrounded product *)
  assert (Bvi : Z.abs (R v * R i) <= 28 * 2 ^ scale * (3 * 2 ^ scale))
    by (apply abs_mul_le; [clear - Bv; lia|clear - Bi R25 Hs; lia]).
  destruct (mul_error v i Fv Fi) as (Fp & Ep).
  { rewrite Hp. clear - Bvi Hs. nia. }
  assert (Bp : Z.abs (R (v * i)%js) <= 100 * 2 ^ scale).
  { apply cancel_scale. clear - Ep Bvi Hs Hse He. nia. }
  (* the three stored fields *)
  destruct (round1_error (v * i)%js Fp Bp) as (FP & EP).
  destruct (round1_error v Fv ltac:(lia)) as (FV & EV).
  destruct (round1_error i Fi ltac:(lia)) as (FI & EI).
  set (P := round1 (v * i)%js) in *.
  set (V := round1 v) in *. set (I := round1 i) in *.
  (* the product of the stored fields *)
  assert (BVI : Z.abs (R V * R I) <= 29 * 2 ^ scale * (3 * 2 ^ scale))
    by (apply abs_mul_le;
        [clear - Bv EV Hse He; lia|clear - Bi R25 EI Hse He; lia]).
  destruct (mul_error V I FV FI) as (Fq & Eq).
  { rewrite Hp. clear - BVI Hs. nia. }
  (* how far apart the two products are *)
  assert (T1 : Z.abs (2 ^ scale * (20 * (R P - R (v * i)%js)))
               <= 2 ^ scale * (2 ^ scale + 24 * eps))
    by (apply abs_mul_le; [clear - Hs; lia|clear - EP; lia]).
  assert (T3 : Z.abs (R v * (20 * (R I - R i)))
               <= 28 * 2 ^ scale * (2 ^ scale + 24 * eps))
    by (apply abs_mul_le; [clear - Bv; lia|clear - EI; lia]).
  assert (T4 : Z.abs (20 * R I * (20 * (R V - R v)))
               <= (51 * 2 ^ scale + 24 * eps) * (2 ^ scale + 24 * eps))
    by (apply abs_mul_le; [clear - Bi R25 EI; lia|clear - EV; lia]).
  set (X := R P - R (V * I)%js).
  assert (TX : 400 * Z.abs (2 ^ scale * X)
               <= 631 * (2 ^ scale * 2 ^ scale)
                  + 16768 * (2 ^ scale * eps) + 576 * (eps * eps)).
  { unfold X. clear - T1 T3 T4 Ep Eq. lia. }
  (* the difference and its magnitude *)
  assert (BX : 100 * Z.abs X + 100 * eps <= 159 * 2 ^ scale).
  { rewrite Z.abs_mul, (Z.abs_eq (2 ^ scale)) in TX by lia.
    rewrite Hse in TX |- *.
    assert (eps * (400 * 17592186044416 * Z.abs X)
            <= eps * (eps * (631 * 17592186044416 * 17592186044416
                             + 16768 * 17592186044416 + 576))) as C
      by (clear - TX; lia).
    apply Z.mul_le_mono_pos_l in C; [|exact He]. clear - C He. lia. }
  destruct (sub_error P (V * I)%js FP Fq) as (Fd & Ed).
  { fold X. rewrite Hp. clear - BX He Hs. lia. }
  fold X in Ed.
  unfold JS.le. apply leb_R; [rewrite fin_abs; exact Fd|reflexivity|].
  rewrite R_abs by exact Fd. clear - Ed BX R16 He. lia.
Qed.

(** * Properties *)

(** ** Alert evaluation and the alert store *)

Lemma draft_of_stamp (id : number) (d : Draft.t) (t : number) :
  draft_of (stamp id d t) = d.
Proof. destruct d; reflexivity. Qed.

Lemma addAlerts_clock (alerts : list Draft.t) :
  forall w, clock (addAlerts alerts w) = clock w.
Proof.
  induction alerts as [|d rest IH]; intros w; simpl; [reflexivity|].
  rewrite IH. reflexivity.
Qed.

(** [forEach] puts one stamped alert per draft in front of the store, the
    last draft ending up first. *)
Lemma addAlerts_store (alerts : list Draft.t) :
  forall w, exists fresh,
    systemAlerts (addAlerts alerts w) = fresh ++ systemAlerts w
    /\ map draft_of fresh = rev alerts
    /\ Forall (fun a => Alert.timestamp a = clock w) fresh.
Proof.
  induction alerts as [|d rest IH]; intros w; simpl.
  - exists []. repeat split; constructor.
  - destruct (IH (set_systemAlerts
                    (stamp (clock w + Math_floor (stream (random w) (pos (random w)) * 1000))%js
                           d (clock w) :: systemAlerts w)
                    (set_random {| stream := stream (random w);
                                   pos := S (pos (random w)) |} w)))
      as (fresh & Hstore & Hdrafts & Htime).
    eexists (fresh ++ [_]). split; [|split].
    + rewrite Hstore. simpl. rewrite <- app_assoc. reflexivity.
    + rewrite map_app, Hdrafts. simpl. rewrite draft_of_stamp. reflexivity.
    + apply Forall_app. split; [exact Htime|].
      constructor; [reflexivity|constructor].
Qed.

Lemma checkConverterAlerts_systemAlerts (c : Converter.t) (w : world) :
  systemAlerts (checkConverterAlerts c w)
  = systemAlerts (addAlerts (converterAlerts c) w).
Proof.
  unfold checkConverterAlerts.
  destruct (0 <? List.length (converterAlerts c))%nat; reflexivity.
Qed.

(** The store, the random source and the clock after [forEach]: one stamped
    alert per draft in front of the store, the last draft first, and one
    draw taken per draft. *)
Lemma addAlerts_stamped (alerts : list Draft.t) :
  forall w,
    systemAlerts (addAlerts alerts w)
    = rev (stamped (stream (random w)) (pos (random w)) (clock w) alerts)
      ++ systemAlerts w
    /\ stream (random (addAlerts alerts w)) = stream (random w)
    /\ pos (random (addAlerts alerts w))
       = (List.length alerts + pos (random w))%nat.
Proof.
  induction alerts as [|d rest IH]; intros w; [repeat split|].
  cbn [addAlerts stamped rev List.length]. unfold Math_random. cbv zeta.
  match goal with
  | |- context [addAlerts rest ?x] => destruct (IH x) as (Hs & Hg & Hp)
  end.
  rewrite Hs, Hg, Hp. cbn [systemAlerts random clock set_systemAlerts
                           set_random stream pos].
  rewrite <- app_assoc. repeat split. lia.
Qed.

Lemma checkConverterAlerts_random (c : Converter.t) (w : world) :
  random (checkConverterAlerts c w) = random (addAlerts (converterAlerts c) w)
  /\ clock (checkConverterAlerts c w) = clock w.
Proof.
  unfold checkConverterAlerts. cbv zeta.
  destruct (0 <? List.length (converterAlerts c))%nat;
    (split; [reflexivity|]); unfold renderAlerts, call; cbn [clock];
    apply addAlerts_clock.
Qed.

Lemma stamped_drafts (draws : nat -> number) (now : number)
      (drafts : list Draft.t) :
  forall p, map draft_of (stamped draws p now drafts) = drafts.
Proof.
  induction drafts as [|d rest IH]; intros p; [reflexivity|].
  cbn [stamped map]. rewrite draft_of_stamp, IH. reflexivity.
Qed.

(** C2, as the code has it: the drafts [checkConverterAlerts] builds are a
    function of the converter reading alone: at most three, in the fixed
    order efficiency, voltage, duty cycle, each present exactly when its own
    test holds (efficiency < 85: error/high "Critical Efficiency Drop";
    |outputVoltage - 24.0| > 0.48: warning/medium "Output Voltage Out of
    Range"; dutyCycle > 90: error/high "Critical Duty Cycle").  But the
    function does not return them and is not pure: whatever the state, it
    puts one alert per draft in front of the store, the last draft first,
    and takes one draw of [Math.random] per draft; the clock it reads is
    left as it was. *)
Theorem converterAlerts_thresholds (c : Converter.t) :
  let drafts := converterAlerts c in
  (List.length drafts <= 3)%nat
  /\ map headline drafts =
     selected
       [ ((Converter.efficiency c < 85)%js,
          (error, high, "Critical Efficiency Drop"%string));
         ((Math_abs (Converter.outputVoltage c - 24.0) > 0.48)%js,
          (warning, medium, "Output Voltage Out of Range"%string));
         ((Converter.dutyCycle c > 90)%js,
          (error, high, "Critical Duty Cycle"%string)) ]
  /\ forall w,
       let w' := checkConverterAlerts c w in
       map draft_of (systemAlerts w')
       = rev drafts ++ map draft_of (systemAlerts w)
       /\ stream (random w') = stream (random w)
       /\ pos (random w') = (List.length drafts + pos (random w))%nat
       /\ clock w' = clock w.
Proof.
  cbv zeta. split; [|split].
  - unfold converterAlerts.
    destruct (Converter.efficiency c < 85)%js,
             (Math_abs (Converter.outputVoltage c - 24.0) > 0.48)%js,
             (Converter.dutyCycle c > 90)%js; simpl; lia.
  - unfold converterAlerts, selected.
    destruct (Converter.efficiency c < 85)%js,
             (Math_abs (Converter.outputVoltage c - 24.0) > 0.48)%js,
             (Converter.dutyCycle c > 90)%js; reflexivity.
  - intros w. rewrite checkConverterAlerts_systemAlerts.
    destruct (checkConverterAlerts_random c w) as (-> & ->).
    destruct (addAlerts_stamped (converterAlerts c) w) as (Hs & Hg & Hp).
    rewrite Hs, Hg, Hp, map_app, map_rev, stamped_drafts. auto.
Qed.

(** C2, as stated, fails: the same reading, evaluated in the same store at
    the same time, leaves two different stores when the draws differ: the
    alert it adds has the identifier 1700000000500 after the draw 0.5 and
    1700000000250 after the draw 0.25. *)
Lemma checkConverterAlerts_depends_on_draws :
  systemAlerts (startWorld [0.5%js]) = systemAlerts (startWorld [0.25%js])
  /\ clock (startWorld [0.5%js]) = clock (startWorld [0.25%js])
  /\ map Alert.id
         (systemAlerts
            (checkConverterAlerts lowEfficiency (startWorld [0.5%js])))
     = [1700000000500; 1; 2; 3]%js
  /\ map Alert.id
         (systemAlerts
            (checkConverterAlerts lowEfficiency (startWorld [0.25%js])))
     = [1700000000250; 1; 2; 3]%js
  /\ (1700000000500 === 1700000000250)%js = false.
Proof. repeat split; vm_compute; reflexivity. Qed.

(** C5, as stated, fails: evaluating a reading whose efficiency is 80 changes
    the store. *)
Lemma checkConverterAlerts_changes_store :
  systemAlerts (checkConverterAlerts lowEfficiency (startWorld [0.5%js]))
  <> systemAlerts (startWorld [0.5%js]).
Proof.
  intros H. apply (f_equal (@List.length _)) in H.
  vm_compute in H. discriminate.
Qed.

(** C6: with five or more alerts in the store, [generateRandomAlert] leaves
    the whole state as it is, in both scripts and whatever the random source
    would draw (no draw is even made). *)
Theorem generateRandomAlert_capped (v : variant) (w : world) :
  (5 <= List.length (systemAlerts w))%nat ->
  generateRandomAlert v w = w.
Proof.
  intros H. unfold generateRandomAlert.
  destruct (Nat.ltb_spec (List.length (systemAlerts w)) 5); [lia|reflexivity].
Qed.

Lemma generateRandomAlert_capped_witness :
  (5 <= List.length (systemAlerts (loaded fiveAlerts [0%js])))%nat
  /\ generateRandomAlert ConverterAware (loaded fiveAlerts [0%js])
     = loaded fiveAlerts [0%js]
  /\ generateRandomAlert Baseline (loaded fiveAlerts [0%js])
     = loaded fiveAlerts [0%js].
Proof.
  split; [vm_compute; lia|].
  split; apply generateRandomAlert_capped; vm_compute; lia.
Defined.

(** Below the cap the injection does fire on a small enough draw: the draw
    [0] puts one more alert in front of the store. *)
Example generateRandomAlert_fires :
  List.length (systemAlerts (generateRandomAlert ConverterAware (startWorld [0%js])))
  = 4%nat
  /\ List.length (systemAlerts (generateRandomAlert Baseline (startWorld [0%js])))
     = 4%nat.
Proof. split; vm_compute; reflexivity. Qed.

Lemma filter_none {A : Type} (f : A -> bool) (l : list A) :
  (forall a, In a l -> f a = true) -> filter f l = l.
Proof.
  induction l as [|a l IH]; simpl; intros H; [reflexivity|].
  rewrite (H a (or_introl eq_refl)), IH; [reflexivity|].
  intros b Hb. apply H. right. exact Hb.
Qed.

Lemma removeById_single (id : number) (alerts : list Alert.t) :
  (List.length (filter (fun a => (Alert.id a === id)%js) alerts) <= 1)%nat ->
  filter (fun a => (Alert.id a !== id)%js) alerts = removeById id alerts.
Proof.
  unfold strict_ne, strict_eq.
  induction alerts as [|a l IH]; simpl; [reflexivity|].
  unfold strict_eq.
  destruct (SFeqb (Alert.id a) id) eqn:E; simpl; intros H.
  - apply filter_none. intros b Hb.
    destruct (SFeqb (Alert.id b) id) eqn:Eb; [|reflexivity].
    exfalso.
    assert (Hin : In b (filter (fun a => SFeqb (Alert.id a) id) l))
      by (apply filter_In; auto).
    destruct (filter (fun a => SFeqb (Alert.id a) id) l);
      [destruct Hin|simpl in H; lia].
  - f_equal. apply IH. exact H.
Qed.

(** C8, as the code has it: [dismissAlert] removes every alert whose [id]
    equals the given one and keeps the others in their order; it leaves the
    store as it is when no alert has that [id], and it removes exactly the
    first match when at most one alert has it. *)
Theorem dismissAlert_removes_every_match (alertId : number) (w : world) :
  let before := systemAlerts w in
  let after := systemAlerts (dismissAlert alertId w) in
  (forall a, In a after <-> In a before /\ (Alert.id a === alertId)%js = false)
  /\ after = filter (fun a => negb (Alert.id a === alertId)%js) before
  /\ ((forall a, In a before -> (Alert.id a === alertId)%js = false) ->
      after = before)
  /\ ((List.length (filter (fun a => (Alert.id a === alertId)%js) before) <= 1)%nat ->
      after = removeById alertId before).
Proof.
  cbv zeta. simpl. split; [|split; [|split]].
  - intros a. rewrite filter_In. unfold strict_ne, strict_eq.
    destruct (SFeqb (Alert.id a) alertId); simpl; intuition congruence.
  - reflexivity.
  - intros H. apply filter_none. intros a Ha. specialize (H a Ha).
    unfold strict_ne, strict_eq in *. rewrite H. reflexivity.
  - apply removeById_single.
Qed.

(** C8, as stated, fails: one update after loading can leave two alerts
    with the same identifier in the store (the voltage alert and an injected
    one); dismissing that identifier removes both and leaves the three demo
    alerts, where removing the first match would keep the voltage alert. *)
Lemma dismissAlert_removes_twin :
  map Alert.id (firstn 2 (systemAlerts collidingUpdate))
  = [1700000000250; 1700000000250]%js
  /\ map Alert.title
         (systemAlerts (dismissAlert 1700000000250%js collidingUpdate))
     = [ "DC-DC Converter Efficiency Low"; "Output Voltage Regulation";
         "Duty Cycle Optimization" ]%string
  /\ map Alert.title
         (removeById 1700000000250%js (systemAlerts collidingUpdate))
     = [ "Output Voltage Out of Range"; "DC-DC Converter Efficiency Low";
         "Output Voltage Regulation"; "Duty Cycle Optimization" ]%string
  /\ systemAlerts (dismissAlert 1700000000250%js collidingUpdate)
     <> removeById 1700000000250%js (systemAlerts collidingUpdate).
Proof.
  split; [vm_compute; reflexivity|].
  split; [vm_compute; reflexivity|].
  split; [vm_compute; reflexivity|].
  intros H. apply (f_equal (@List.length _)) in H.
  vm_compute in H. discriminate.
Qed.

(** ** Chart data *)

Section Chart.

Variable toLocaleTimeString : number -> string.
Context {C : Type}.

Lemma tl_snoc {A : Type} (l : list A) (x : A) :
  l <> [] -> tl (l ++ [x]) = tl l ++ [x].
Proof. destruct l; [congruence|reflexivity]. Qed.

Lemma length_tl {A : Type} (l : list A) :
  List.length (tl l) = Nat.pred (List.length l).
Proof. destruct l; reflexivity. Qed.

Lemma chartData_updateChartData (data : Reading.t C) (w : world) :
  chartData (updateChartData toLocaleTimeString data w)
  = let labels :=
      ChartData.labels (chartData w)
      ++ [toLocaleTimeString (Reading.timestamp data)] in
    let generation :=
      ChartData.generation (chartData w) ++ [Reading.generation data] in
    let consumption :=
      ChartData.consumption (chartData w) ++ [Reading.consumption data] in
    if (MAX_DATA_POINTS CONFIG <? List.length labels)%nat
    then ChartData.mk (tl labels) (tl generation) (tl consumption)
    else ChartData.mk labels generation consumption.
Proof.
  unfold updateChartData. cbv zeta.
  destruct (MAX_DATA_POINTS CONFIG <? _)%nat; simpl;
    destruct (energyChart w); reflexivity.
Qed.

(** One append keeps the sequences aligned and within the cap. *)
Lemma updateChartData_step (data : Reading.t C) (w : world) :
  aligned (chartData w) ->
  aligned (chartData (updateChartData toLocaleTimeString data w)).
Proof.
  unfold aligned. intros (Hlg & Hgc & Hcap).
  rewrite chartData_updateChartData. cbv zeta.
  destruct (Nat.ltb_spec (MAX_DATA_POINTS CONFIG)
              (List.length (ChartData.labels (chartData w)
                            ++ [toLocaleTimeString (Reading.timestamp data)])))
    as [Hover|Hfits]; simpl;
    rewrite ?length_tl, ?length_app in *; simpl in *; lia.
Qed.

(** One append in detail: below the cap the entry is added at the end; at
    the cap the oldest entry of each sequence goes as well. *)
Lemma updateChartData_fifo (data : Reading.t C) (w : world) :
  aligned (chartData w) ->
  let c := chartData w in
  let c' := chartData (updateChartData toLocaleTimeString data w) in
  let label := toLocaleTimeString (Reading.timestamp data) in
  if (List.length (ChartData.labels c) <? MAX_DATA_POINTS CONFIG)%nat
  then ChartData.labels c' = ChartData.labels c ++ [label]
       /\ ChartData.generation c'
          = ChartData.generation c ++ [Reading.generation data]
       /\ ChartData.consumption c'
          = ChartData.consumption c ++ [Reading.consumption data]
  else ChartData.labels c' = tl (ChartData.labels c) ++ [label]
       /\ ChartData.generation c'
          = tl (ChartData.generation c) ++ [Reading.generation data]
       /\ ChartData.consumption c'
          = tl (ChartData.consumption c) ++ [Reading.consumption data].
Proof.
  intros (Hlg & Hgc & Hcap). cbv zeta.
  rewrite chartData_updateChartData. cbv zeta.
  rewrite length_app. simpl List.length.
  destruct (Nat.ltb_spec (List.length (ChartData.labels (chartData w)))
              (MAX_DATA_POINTS CONFIG)) as [Hroom|Hfull].
  - destruct (Nat.ltb_spec (MAX_DATA_POINTS CONFIG)
                (List.length (ChartData.labels (chartData w)) + 1));
      [lia|simpl; auto].
  - destruct (Nat.ltb_spec (MAX_DATA_POINTS CONFIG)
                (List.length (ChartData.labels (chartData w)) + 1));
      [|lia].
    assert (Hmax : MAX_DATA_POINTS CONFIG = 20%nat) by reflexivity.
    simpl. repeat split; apply tl_snoc; intros E; rewrite E in *;
      simpl in *; lia.
Qed.

(** C7: starting from aligned sequences within the cap (the empty chart the
    scripts start with is such), after any number of appends the three
    sequences still have equal length, at most [MAX_DATA_POINTS] (20); and
    an append that would exceed the cap drops the oldest entry of each of
    the three sequences and keeps the rest, the new entry last. *)
Theorem updateChartData_capped (points : list (Reading.t C)) (w : world) :
  aligned (chartData w) ->
  let w' :=
    fold_left (fun w data => updateChartData toLocaleTimeString data w)
              points w in
  aligned (chartData w')
  /\ MAX_DATA_POINTS CONFIG = 20%nat
  /\ forall data : Reading.t C,
       let c := chartData w' in
       let c' := chartData (updateChartData toLocaleTimeString data w') in
       let label := toLocaleTimeString (Reading.timestamp data) in
       if (List.length (ChartData.labels c) <? MAX_DATA_POINTS CONFIG)%nat
       then ChartData.labels c' = ChartData.labels c ++ [label]
            /\ ChartData.generation c'
               = ChartData.generation c ++ [Reading.generation data]
            /\ ChartData.consumption c'
               = ChartData.consumption c ++ [Reading.consumption data]
       else ChartData.labels c' = tl (ChartData.labels c) ++ [label]
            /\ ChartData.generation c'
               = tl (ChartData.generation c) ++ [Reading.generation data]
            /\ ChartData.consumption c'
               = tl (ChartData.consumption c) ++ [Reading.consumption data].
Proof.
  intros Hw. cbv zeta.
  assert (Hall : aligned
            (chartData
               (fold_left (fun w data => updateChartData toLocaleTimeString data w)
                          points w))).
  { revert w Hw. induction points as [|p rest IH]; intros w Hw; simpl.
    - exact Hw.
    - apply IH, updateChartData_step, Hw. }
  split; [exact Hall|]. split; [reflexivity|].
  intros data. exact (updateChartData_fifo data _ Hall).
Qed.

End Chart.

Lemma updateChartData_capped_witness :
  aligned (chartData (startWorld [0.5%js]))
  /\ aligned
       (chartData
          (fold_left (fun w data => updateChartData eveningLabel data w)
             (repeat (Reading.mk 9%js 7%js 75%js 1700000000000%js 95%js tt) 25)
             (startWorld [0.5%js]))).
Proof.
  assert (H : aligned (chartData (startWorld [0.5%js])))
    by (repeat split; vm_compute; lia).
  split; [exact H|].
  exact (proj1 (updateChartData_capped eveningLabel
                  (repeat (Reading.mk 9%js 7%js 75%js 1700000000000%js 95%js tt) 25)
                  (startWorld [0.5%js]) H)).
Defined.

(** After 25 appends to the empty chart, 20 points are left. *)
Example updateChartData_keeps_twenty :
  List.length
    (ChartData.labels
       (chartData
          (fold_left (fun w data => updateChartData eveningLabel data w)
             (repeat (Reading.mk 9%js 7%js 75%js 1700000000000%js 95%js tt) 25)
             (startWorld [0.5%js]))))
  = 20%nat.
Proof. vm_compute. reflexivity. Qed.

(** ** External readings *)

Section Ingest.

Variable toLocaleTimeString : number -> string.








Lemma gauges_when (b : bool) (f : world -> world) (w : world) :
  (forall w, gauges (f w) = gauges w) -> gauges (when b f w) = gauges w.
Proof. intros H. destruct b; simpl; auto. Qed.

Lemma gauges_updateMetricCard (type : string) (value : text) (w : world) :
  gauges (updateMetricCard type value w) = gauges w.
Proof.
  unfold updateMetricCard.
  destruct (String.eqb type "storage"); [destruct (storageText _)|];
    reflexivity.
Qed.

Lemma gauges_updateConverterMetrics (v1 v2 v3 v4 v5 : jsval) (w : world) :
  gauges (updateConverterMetrics v1 v2 v3 v4 v5 w) = gauges w.
Proof.
  unfold updateConverterMetrics. cbv zeta.
  repeat (rewrite gauges_when; [|reflexivity]). reflexivity.
Qed.

Lemma gauges_updateChartData {C : Type} (data : Reading.t C) (w : world) :
  gauges (updateChartData toLocaleTimeString data w) = gauges w.
Proof.
  unfold updateChartData. cbv zeta.
  destruct (MAX_DATA_POINTS CONFIG <? _)%nat; simpl;
    destruct (energyChart w); reflexivity.
Qed.





Lemma kept_when (b : bool) (f : world -> world) (w : world) :
  (forall w, kept (f w) = kept w) -> kept (when b f w) = kept w.
Proof. intros H. destruct b; simpl; auto. Qed.

Lemma kept_updateMetricCard (type : string) (value : text) (w : world) :
  kept (updateMetricCard type value w) = kept w.
Proof.
  unfold updateMetricCard.
  destruct (String.eqb type "storage"); [destruct (storageText _)|];
    reflexivity.
Qed.

Lemma kept_updateConverterMetrics (v1 v2 v3 v4 v5 : jsval) (w : world) :
  kept (updateConverterMetrics v1 v2 v3 v4 v5 w) = kept w.
Proof.
  unfold updateConverterMetrics. cbv zeta.
  repeat (rewrite kept_when; [|reflexivity]). reflexivity.
Qed.

Lemma kept_setVoltageGauge (v : jsval) (w : world) :
  kept (setVoltageGauge v w) = kept w.
Proof. unfold setVoltageGauge. destruct (voltageGauge w); reflexivity. Qed.

Lemma kept_setEfficiencyGauge (v : jsval) (w : world) :
  kept (setEfficiencyGauge v w) = kept w.
Proof. unfold setEfficiencyGauge. destruct (efficiencyGauge w); reflexivity. Qed.

Lemma kept_metrics (data : Payload.t) (w : world) :
  kept
    (when (defined (Payload.efficiency data))
       (call (SetTextContent "efficiency-value"
                (Suffixed (Payload.efficiency data) "%")))
       (when (defined (Payload.batteryLevel data))
          (fun w =>
             call (UpdateBatteryIndicator (Payload.batteryLevel data))
               (updateMetricCard "storage"
                  (Plain (Payload.batteryLevel data)) w))
          (when (defined (Payload.consumption data))
             (updateMetricCard "consumption"
                (Fixed1 (Number_of (Payload.consumption data))))
             (when (defined (Payload.generation data))
                (updateMetricCard "generation"
                   (Fixed1 (Number_of (Payload.generation data)))) w))))
  = kept w.
Proof.
  rewrite kept_when; [|reflexivity].
  rewrite kept_when;
    [|intros w0; change (kept (call ?c ?x)) with (kept x);
      apply kept_updateMetricCard].
  rewrite kept_when; [|intros; apply kept_updateMetricCard].
  rewrite kept_when; [|intros; apply kept_updateMetricCard].
  reflexivity.
Qed.



Lemma baseline_throws_on_null (data : Payload.t) (w : world) :
  (exists w', updateDashboardWithRealData_baseline toLocaleTimeString data w
              = Threw w')
  <-> Payload.generation data = JNull \/ Payload.consumption data = JNull.
Proof.
  unfold updateDashboardWithRealData_baseline. cbv zeta.
  destruct (Payload.generation data); destruct (Payload.consumption data);
    split;
    try (intros (w' & H); discriminate H);
    try (intros [H|H]; discriminate H);
    try (intros _; eexists; reflexivity);
    auto.
Qed.








End Ingest.



(** ** The signal generator *)

(** Interval propagation: [bound e] builds, from the bounds known for the
    draws, a proof that the expression [e] is finite and lies between two
    computed numbers. *)
Ltac normalize h :=
  lazymatch type of h with
  | within ?lo ?hi ?x =>
      let lo' := eval vm_compute in lo in
      let hi' := eval vm_compute in hi in
      constr:(within_eq lo hi lo' hi' x h
                (ltac:(vm_compute; reflexivity) : lo = lo')
                (ltac:(vm_compute; reflexivity) : hi = hi'))
  end.

Ltac bound e :=
  lazymatch goal with
  | H : within _ _ e |- _ => constr:(H)
  | _ =>
    lazymatch e with
    | context [stream] =>
      lazymatch e with
      | JS.add ?x ?y =>
          let hx := bound x in let hy := bound y in
          normalize constr:(within_add _ _ _ _ x y hx hy
                              ltac:(vm_compute; reflexivity)
                              ltac:(vm_compute; reflexivity))
      | JS.sub ?x ?y =>
          let hx := bound x in let hy := bound y in
          normalize constr:(within_sub _ _ _ _ x y hx hy
                              ltac:(vm_compute; reflexivity)
                              ltac:(vm_compute; reflexivity))
      | JS.mul ?x ?y =>
          lazymatch y with
          | context [stream] =>
              lazymatch x with
              | context [stream] =>
                  let hx := bound x in let hy := bound y in
                  normalize constr:(within_mul _ _ _ _ x y hx hy
                                      ltac:(vm_compute; reflexivity)
                                      ltac:(vm_compute; reflexivity)
                                      ltac:(vm_compute; reflexivity)
                                      ltac:(vm_compute; reflexivity))
              | _ =>
                  let hy := bound y in
                  normalize constr:(within_mul_l _ _ x y hy
                                      ltac:(vm_compute; reflexivity)
                                      ltac:(vm_compute; reflexivity)
                                      ltac:(vm_compute; reflexivity))
              end
          | _ =>
              let hx := bound x in
              normalize constr:(within_mul_r _ _ y x hx
                                  ltac:(vm_compute; reflexivity)
                                  ltac:(vm_compute; reflexivity)
                                  ltac:(vm_compute; reflexivity))
          end
      | JS.div ?x ?y =>
          lazymatch y with
          | context [stream] =>
              let hx := bound x in let hy := bound y in
              normalize constr:(within_div _ _ _ _ x y hx hy
                                  ltac:(vm_compute; reflexivity)
                                  ltac:(vm_compute; reflexivity)
                                  ltac:(vm_compute; reflexivity)
                                  ltac:(vm_compute; reflexivity))
          | _ =>
              let hx := bound x in
              normalize constr:(within_div_r _ _ y x hx
                                  ltac:(vm_compute; reflexivity)
                                  ltac:(vm_compute; reflexivity)
                                  ltac:(vm_compute; reflexivity))
          end
      | Math_round ?x =>
          let hx := bound x in
          normalize constr:(within_round _ _ x hx
                              ltac:(vm_compute; reflexivity)
                              ltac:(vm_compute; reflexivity))
      | Math_max ?c ?x =>
          let hx := bound x in
          normalize constr:(within_max _ _ c x hx ltac:(vm_compute; reflexivity))
      | Math_min ?c ?x =>
          let hx := bound x in
          normalize constr:(within_min _ _ c x hx ltac:(vm_compute; reflexivity))
      | Math_abs ?x =>
          let hx := bound x in
          lazymatch type of hx with
          | within ?a ?b _ =>
              let h := eval vm_compute in (Math_max (SFopp a) b) in
              normalize constr:(within_abs a b h x hx
                                  ltac:(vm_compute; reflexivity)
                                  ltac:(vm_compute; reflexivity)
                                  ltac:(vm_compute; reflexivity))
          end
      end
    | _ =>
        normalize constr:(within_const e ltac:(vm_compute; reflexivity))
    end
  end.

Section Generator.

Variable Math_sin : number -> number.
Variable getHours : number -> number.
Variable toLocaleTimeString : number -> string.
Variable parseInt_text : text -> number.

Ltac expose :=
  cbv beta iota zeta delta
      [generated generateSensorData Math_random fst snd Reading.converter
       Converter.efficiency Converter.dutyCycle Converter.outputPower
       Converter.outputCurrent Converter.inputCurrent Converter.inputVoltage
       Converter.outputVoltage CONFIG min max GENERATION_RANGE
       CONSUMPTION_RANGE BATTERY_RANGE INPUT_VOLTAGE_RANGE
       OUTPUT_VOLTAGE_RANGE INPUT_CURRENT_RANGE OUTPUT_CURRENT_RANGE
       EFFICIENCY_RANGE DUTY_CYCLE_RANGE round1];
  cbn [stream pos].

(* as [expose], but the one-decimal rounding stays folded *)
Ltac fields :=
  cbv beta iota zeta delta
      [generated generateSensorData Math_random fst snd Reading.converter
       Converter.efficiency Converter.dutyCycle Converter.outputPower
       Converter.outputCurrent Converter.inputCurrent Converter.inputVoltage
       Converter.outputVoltage CONFIG min max GENERATION_RANGE
       CONSUMPTION_RANGE BATTERY_RANGE INPUT_VOLTAGE_RANGE
       OUTPUT_VOLTAGE_RANGE INPUT_CURRENT_RANGE OUTPUT_CURRENT_RANGE
       EFFICIENCY_RANGE DUTY_CYCLE_RANGE];
  cbn [stream pos].

Ltac enclose :=
  lazymatch goal with
  | |- within ?lo ?hi ?x =>
      let h := bound x in
      apply (within_weaken _ _ lo hi x h); vm_compute; reflexivity
  end.

(** Whatever the hour and the draws, the converter fields of a generated
    reading are finite and lie in these intervals. *)
Lemma generated_bounds (w : world) :
  fair (random w) ->
  within 14%js 16%js (Converter.inputVoltage (generated Math_sin getHours parseInt_text w))
  /\ within 25.6%js 28%js (Converter.outputVoltage (generated Math_sin getHours parseInt_text w))
  /\ within 2.4%js 3.8%js (Converter.inputCurrent (generated Math_sin getHours parseInt_text w))
  /\ within 1.1%js 2.2%js (Converter.outputCurrent (generated Math_sin getHours parseInt_text w))
  /\ within 28.2%js 61.7%js (Converter.outputPower (generated Math_sin getHours parseInt_text w))
  /\ within 40%js 50%js (Converter.dutyCycle (generated Math_sin getHours parseInt_text w))
  /\ within 92.5%js 97%js (Converter.efficiency (generated Math_sin getHours parseInt_text w)).
Proof.
  intros Hf. expose.
  pose proof (unit_draw_within _ (Hf (S (pos (random w))))) as H2.
  pose proof (unit_draw_within _ (Hf (S (S (pos (random w)))))) as H3.
  pose proof (unit_draw_within _ (Hf (S (S (S (pos (random w))))))) as H4.
  pose proof (unit_draw_within _ (Hf (S (S (S (S (pos (random w)))))))) as H5.
  destruct ((getHours (clock w) >= 7)%js && (getHours (clock w) <= 22)%js);
    repeat (match goal with |- _ /\ _ => split end); enclose.
Qed.

(** The state a generated reading leaves behind differs only by the six
    draws consumed. *)
Lemma generateSensorData_world (w : world) :
  snd (generateSensorData Math_sin getHours parseInt_text w)
  = set_random {| stream := stream (random w);
                  pos := 6 + pos (random w) |} w.
Proof. reflexivity. Qed.

Lemma kept_call (c : dom_call) (w : world) : kept (call c w) = kept w.
Proof. reflexivity. Qed.

Lemma kept_alerts_clock (w w' : world) :
  kept w' = kept w -> systemAlerts w' = systemAlerts w /\ clock w' = clock w.
Proof. unfold kept. intros H. injection H as _ Ha Hc _. auto. Qed.

Lemma systemAlerts_updateChartData {C : Type} (data : Reading.t C)
      (w : world) :
  systemAlerts (updateChartData toLocaleTimeString data w) = systemAlerts w
  /\ clock (updateChartData toLocaleTimeString data w) = clock w.
Proof.
  unfold updateChartData. cbv zeta.
  destruct (MAX_DATA_POINTS CONFIG <? _)%nat; simpl;
    destruct (energyChart w); split; reflexivity.
Qed.

(** One tick evaluates the generated converter reading in a state whose
    alerts and clock are those the tick started with. *)
Lemma updateDashboard_evaluates (w : world) :
  exists w',
    updateDashboard Math_sin getHours toLocaleTimeString parseInt_text w
    = checkConverterAlerts (generated Math_sin getHours parseInt_text w) w'
    /\ systemAlerts w' = systemAlerts w /\ clock w' = clock w.
Proof.
  unfold updateDashboard, generated.
  pose proof (generateSensorData_world w) as Hw.
  destruct (generateSensorData Math_sin getHours parseInt_text w)
    as [data w1]. simpl fst. simpl snd in Hw. cbv zeta.
  eexists. split; [reflexivity|].
  match goal with
  | |- systemAlerts (updateChartData _ _ ?x) = _ /\ _ =>
      destruct (systemAlerts_updateChartData data x) as (-> & ->);
      assert (K : kept x = kept w1)
  end.
  { rewrite kept_setEfficiencyGauge, kept_setVoltageGauge,
      kept_updateConverterMetrics.
    repeat (rewrite kept_call || rewrite kept_updateMetricCard).
    reflexivity. }
  destruct (kept_alerts_clock _ _ K) as (Ha & Hc).
  rewrite Ha, Hc, Hw. split; reflexivity.
Qed.

(** C4: on every tick of the synthetic pipeline, whatever the hour and the
    draws, the stored output voltage is at least 25.6 V, its distance from
    24.0 V exceeds the tolerance 0.48 V, so the evaluation of the reading
    raises the "Output Voltage Out of Range" draft and the tick puts an
    alert made from it in front of the store. *)
Theorem outputVoltage_out_of_range (w : world) :
  fair (random w) ->
  let c := generated Math_sin getHours parseInt_text w in
  let w' := updateDashboard Math_sin getHours toLocaleTimeString
                            parseInt_text w in
  (Converter.outputVoltage c >= 25.6)%js = true
  /\ (Math_abs (Converter.outputVoltage c - 24.0) > 0.48)%js = true
  /\ In (warning, medium, "Output Voltage Out of Range"%string)
        (map headline (converterAlerts c))
  /\ exists fresh,
       systemAlerts w' = fresh ++ systemAlerts w
       /\ In (warning, medium, "Output Voltage Out of Range"%string)
             (map (fun a => headline (draft_of a)) fresh).
Proof.
  intros Hf. cbv zeta.
  pose proof (generated_bounds w Hf) as (_ & Hv & _).
  set (c := generated Math_sin getHours parseInt_text w) in *.
  assert (Hge : (Converter.outputVoltage c >= 25.6)%js = true).
  { apply (within_ge _ _ _ _ Hv); reflexivity. }
  assert (Hout : (Math_abs (Converter.outputVoltage c - 24.0) > 0.48)%js
                 = true).
  { pose proof (within_sub _ _ _ _ _ _ Hv
                  (within_const 24.0%js eq_refl) eq_refl eq_refl) as Hd.
    pose proof (within_abs_nonneg _ _ _ Hd eq_refl) as Ha.
    apply (within_gt _ _ _ _ Ha); reflexivity. }
  assert (Hin : In (warning, medium, "Output Voltage Out of Range"%string)
                   (map headline (converterAlerts c))).
  { unfold converterAlerts. cbv zeta. rewrite Hout.
    rewrite !map_app. apply in_or_app. right. apply in_or_app. left.
    left. reflexivity. }
  split; [exact Hge|]. split; [exact Hout|]. split; [exact Hin|].
  destruct (updateDashboard_evaluates w) as (w1 & -> & Ha & _).
  fold c. rewrite checkConverterAlerts_systemAlerts.
  destruct (addAlerts_store (converterAlerts c) w1) as (fresh & Hs & Hd & _).
  exists fresh. rewrite Hs, Ha. split; [reflexivity|].
  rewrite <- (map_map draft_of headline), Hd, map_rev.
  apply -> in_rev. exact Hin.
Qed.

(** C9: whatever the hour and the draws, the stored duty cycle of a generated
    reading is at most 65 and its stored efficiency at least 85, so neither
    the test [dutyCycle > 90] nor the test [efficiency < 85] of the alert
    evaluation holds and neither "Critical Duty Cycle" nor "Critical
    Efficiency Drop" is among the drafts. *)
Theorem critical_alerts_unreachable (w : world) :
  fair (random w) ->
  let c := generated Math_sin getHours parseInt_text w in
  (Converter.dutyCycle c <= 65)%js = true
  /\ (Converter.efficiency c >= 85)%js = true
  /\ (Converter.dutyCycle c > 90)%js = false
  /\ (Converter.efficiency c < 85)%js = false
  /\ forall d, In d (converterAlerts c) ->
               Draft.title d <> "Critical Duty Cycle"%string
               /\ Draft.title d <> "Critical Efficiency Drop"%string.
Proof.
  intros Hf. cbv zeta.
  pose proof (generated_bounds w Hf) as (_ & _ & _ & _ & _ & Hd & He).
  set (c := generated Math_sin getHours parseInt_text w) in *. clearbody c.
  assert (H1 : (Converter.dutyCycle c > 90)%js = false)
    by (apply (within_not_gt _ _ _ _ Hd); reflexivity).
  assert (H2 : (Converter.efficiency c < 85)%js = false)
    by (apply (within_not_lt _ _ _ _ He); reflexivity).
  split; [apply (within_le _ _ _ _ Hd); reflexivity|].
  split; [apply (within_ge _ _ _ _ He); reflexivity|].
  split; [exact H1|]. split; [exact H2|].
  intros d. unfold converterAlerts. cbv zeta. rewrite H1, H2.
  rewrite app_nil_r. simpl app.
  destruct (Math_abs (Converter.outputVoltage c - 24.0) > 0.48)%js;
    simpl; [intros [<-|[]]|intros []]; split; discriminate.
Qed.

(** C3, as the code has it: the stored output power is the one-decimal
    rounding of the product of the unrounded output voltage and output
    current, and the stored output voltage and output current are the
    one-decimal roundings of these same two numbers, the unrounded voltage
    being the one drawn for this reading and the unrounded current the one
    computed from the unrounded input current and voltages; so the stored
    power need not be the product of the stored voltage and current, but
    whatever the hour and the draws it is at most 1.6 away from it. *)
Theorem outputPower_rounds_unrounded_product (w : world) :
  fair (random w) ->
  let c := generated Math_sin getHours parseInt_text w in
  let draw := fun i => stream (random w) (i + pos (random w)) in
  let hour := getHours (clock w) in
  let consumption :=
    ((if (hour >= 7) && (hour <= 22)
      then min (CONSUMPTION_RANGE CONFIG)
           + (max (CONSUMPTION_RANGE CONFIG)
              - min (CONSUMPTION_RANGE CONFIG)) * 0.7
      else min (CONSUMPTION_RANGE CONFIG))
     + (draw 1%nat - 0.5) * 2)%js in
  let inputVoltage :=
    (min (INPUT_VOLTAGE_RANGE CONFIG)
     + (max (INPUT_VOLTAGE_RANGE CONFIG) - min (INPUT_VOLTAGE_RANGE CONFIG))
       * (0.8 + draw 2%nat * 0.4))%js in
  let outputVoltage :=
    (min (OUTPUT_VOLTAGE_RANGE CONFIG)
     + (max (OUTPUT_VOLTAGE_RANGE CONFIG) - min (OUTPUT_VOLTAGE_RANGE CONFIG))
       * (0.7 + draw 3%nat * 0.3))%js in
  let inputCurrent :=
    (min (INPUT_CURRENT_RANGE CONFIG)
     + (max (INPUT_CURRENT_RANGE CONFIG) - min (INPUT_CURRENT_RANGE CONFIG))
       * (consumption / max (CONSUMPTION_RANGE CONFIG)))%js in
  let outputCurrent :=
    (inputCurrent * (inputVoltage / outputVoltage) * 0.92)%js in
  (Converter.outputVoltage c = round1 outputVoltage
   /\ Converter.outputCurrent c = round1 outputCurrent
   /\ Converter.outputPower c = round1 (outputVoltage * outputCurrent)%js)
  /\ (Math_abs (Converter.outputPower c
                - Converter.outputVoltage c * Converter.outputCurrent c)
      <= 1.6)%js = true.
Proof.
  intros Hf. cbv zeta. split.
  - repeat split; reflexivity.
  - fields.
    pose proof (unit_draw_within _ (Hf (S (pos (random w))))) as H2.
    pose proof (unit_draw_within _ (Hf (S (S (pos (random w)))))) as H3.
    pose proof (unit_draw_within _ (Hf (S (S (S (pos (random w))))))) as H4.
    destruct ((getHours (clock w) >= 7)%js && (getHours (clock w) <= 22)%js);
      apply round1_product; enclose.
Qed.

End Generator.

Lemma outputVoltage_out_of_range_witness :
  fair (random (startWorld [0.5%js]))
  /\ (Converter.outputVoltage
        (generated noSine evening parsePlain (startWorld [0.5%js]))
      >= 25.6)%js = true.
Proof.
  assert (H : fair (random (startWorld [0.5%js]))) by (intros i; reflexivity).
  split; [exact H|].
  exact (proj1 (outputVoltage_out_of_range noSine evening eveningLabel
                  parsePlain (startWorld [0.5%js]) H)).
Defined.

Lemma critical_alerts_unreachable_witness :
  fair (random (startWorld [0.5%js]))
  /\ (Converter.dutyCycle
        (generated noSine evening parsePlain (startWorld [0.5%js]))
      <= 65)%js = true.
Proof.
  assert (H : fair (random (startWorld [0.5%js]))) by (intros i; reflexivity).
  split; [exact H|].
  exact (proj1 (critical_alerts_unreachable noSine evening parsePlain
                  (startWorld [0.5%js]) H)).
Defined.

Lemma outputPower_rounds_unrounded_product_witness :
  fair (random (startWorld [0.5%js]))
  /\ Converter.outputPower
       (generated noSine evening parsePlain (startWorld [0.5%js]))
     = 49.5%js
  /\ (Math_abs
        (Converter.outputPower
           (generated noSine evening parsePlain (startWorld [0.5%js]))
         - Converter.outputVoltage
             (generated noSine evening parsePlain (startWorld [0.5%js]))
           * Converter.outputCurrent
               (generated noSine evening parsePlain (startWorld [0.5%js])))
      <= 1.6)%js = true.
Proof.
  assert (H : fair (random (startWorld [0.5%js]))) by (intros i; reflexivity).
  split; [exact H|].
  destruct (outputPower_rounds_unrounded_product noSine evening parsePlain
              (startWorld [0.5%js]) H) as ((_ & _ & Hp) & Hb).
  split; [|exact Hb].
  rewrite Hp. vm_compute. reflexivity.
Defined.

(** C1 fails on the code: with every draw 0.5 except 0.75 for the efficiency
    noise, in the evening, the generated efficiency is 96.1, above the
    configured maximum 96. *)
Lemma efficiency_exceeds_maximum :
  Converter.efficiency
    (generated noSine evening parsePlain
       (startWorld [0.5; 0.5; 0.5; 0.5; 0.75; 0.5]%js))
  = 96.1%js
  /\ (96.1 > max (EFFICIENCY_RANGE CONFIG))%js = true.
Proof. split; vm_compute; reflexivity. Qed.

(** C3, as stated, fails: with every draw 0.5, in the evening, the stored
    output power is 49.5 while the stored output voltage 26.8 and output
    current 1.8 multiply to 48.2 after rounding to one decimal. *)
Lemma outputPower_is_not_product_of_stored :
  Converter.outputPower
    (generated noSine evening parsePlain (startWorld [0.5%js]))
  = 49.5%js
  /\ round1
       (Converter.outputVoltage
          (generated noSine evening parsePlain (startWorld [0.5%js]))
        * Converter.outputCurrent
            (generated noSine evening parsePlain (startWorld [0.5%js])))%js
     = 48.2%js
  /\ (49.5 === 48.2)%js = false.
Proof. repeat split; vm_compute; reflexivity. Qed.

(** ** Alert markup *)

Lemma append_associative (a b c : string) :
  (a ++ (b ++ c))%string = ((a ++ b) ++ c)%string.
Proof. induction a as [|x a IH]; simpl; [reflexivity|]. rewrite IH. reflexivity. Qed.

Lemma special_cases (a : ascii) :
  a = "&"%char \/ a = "<"%char \/ a = ">"%char \/ a = quot \/ a = "'"%char
  \/ special a = false.
Proof.
  unfold special.
  destruct (Ascii.eqb_spec a "&"%char); [auto|].
  destruct (Ascii.eqb_spec a "<"%char); [auto|].
  destruct (Ascii.eqb_spec a ">"%char); [auto|].
  destruct (Ascii.eqb_spec a quot); [auto|].
  destruct (Ascii.eqb_spec a "'"%char); [auto 6|].
  auto 6.
Qed.

Lemma special_false (a : ascii) :
  special a = false ->
  Ascii.eqb a "&"%char = false /\ Ascii.eqb a "<"%char = false
  /\ Ascii.eqb a ">"%char = false /\ Ascii.eqb a quot = false
  /\ Ascii.eqb a "'"%char = false.
Proof.
  unfold special. intros H.
  repeat (apply orb_false_elim in H; destruct H as (H & ?)). auto.
Qed.

Lemma entity_plain (a : ascii) :
  special a = false -> entity a = String a EmptyString.
Proof.
  intros H. apply special_false in H.
  destruct H as (H1 & H2 & H3 & H4 & H5).
  unfold entity. rewrite H1, H2, H3, H4, H5. reflexivity.
Qed.

(** The five replacements in a row amount to one pass that writes the
    entity of each character: the later replacements find nothing to
    replace in the entities written by the earlier ones. *)
Lemma escapeHtml_entities (s : string) : escapeHtml (TString s) = entities s.
Proof.
  unfold escapeHtml.
  induction s as [|a s IH]; [reflexivity|].
  destruct (special_cases a) as [->|[->|[->|[->|[->|H]]]]].
  - simpl. rewrite IH. reflexivity.
  - simpl. rewrite IH. reflexivity.
  - simpl. rewrite IH. reflexivity.
  - simpl. rewrite IH. reflexivity.
  - simpl. rewrite IH. reflexivity.
  - simpl entities. rewrite (entity_plain a H).
    apply special_false in H. destruct H as (H1 & H2 & H3 & H4 & H5).
    simpl. rewrite H1. simpl. rewrite H2. simpl. rewrite H3. simpl.
    rewrite H4. simpl. rewrite H5. rewrite IH. reflexivity.
Qed.

Lemma chars_app (s1 s2 : string) : chars (s1 ++ s2) = chars s1 ++ chars s2.
Proof. induction s1 as [|a s1 IH]; simpl; [reflexivity|]. rewrite IH. reflexivity. Qed.

Lemma entity_chars (a b : ascii) :
  In b (chars (entity a)) ->
  b <> "<"%char /\ b <> ">"%char /\ b <> quot /\ b <> "'"%char.
Proof.
  destruct (special_cases a) as [->|[->|[->|[->|[->|H]]]]].
  1-5: simpl; intros Hin;
    repeat (destruct Hin as [<-|Hin]; [repeat split; discriminate|]);
    destruct Hin.
  rewrite (entity_plain a H). simpl. intros [<-|[]].
  apply special_false in H. destruct H as (_ & H2 & H3 & H4 & H5).
  repeat split; intros ->; discriminate.
Qed.

(** X1: whatever [escapeHtml] is given, its result has no [<], no [>] and
    no quote of either kind: nothing in it can open or close a tag or an
    attribute value.  A missing value gives the empty string. *)
Theorem escapeHtml_has_no_markup (unsafe : jstext) (b : ascii) :
  In b (chars (escapeHtml unsafe)) ->
  b <> "<"%char /\ b <> ">"%char /\ b <> quot /\ b <> "'"%char.
Proof.
  destruct unsafe as [| |s]; try (intros []).
  rewrite escapeHtml_entities.
  induction s as [|a s IH]; simpl; [intros []|].
  rewrite chars_app. intros Hin. apply in_app_or in Hin.
  destruct Hin as [Hin|Hin]; [exact (entity_chars a b Hin)|exact (IH Hin)].
Qed.

Lemma escapeHtml_has_no_markup_witness :
  In ";"%char (chars (escapeHtml (TString "<b>")))
  /\ ";"%char <> "<"%char.
Proof.
  assert (H : In ";"%char (chars (escapeHtml (TString "<b>"))))
    by (vm_compute; auto 10).
  split; [exact H|].
  exact (proj1 (escapeHtml_has_no_markup (TString "<b>") ";"%char H)).
Defined.

Lemma entities_empty (s : string) : entities s = EmptyString -> s = EmptyString.
Proof.
  destruct s as [|a s]; [reflexivity|]. simpl.
  destruct (special_cases a) as [->|[->|[->|[->|[->|H]]]]];
    try discriminate.
  rewrite (entity_plain a H). discriminate.
Qed.

Lemma entity_head (a : ascii) :
  special a = true -> exists rest, entity a = String "&"%char rest.
Proof.
  destruct (special_cases a) as [->|[->|[->|[->|[->|H]]]]];
    try (intros _; eexists; reflexivity).
  rewrite H. discriminate.
Qed.

Lemma entities_injective (s1 : string) :
  forall s2, entities s1 = entities s2 -> s1 = s2.
Proof.
  induction s1 as [|a s1 IH]; intros s2 E.
  - symmetry. apply entities_empty. symmetry. exact E.
  - destruct s2 as [|b s2]; [apply entities_empty in E; discriminate|].
    simpl in E.
    destruct (special_cases a) as [->|[->|[->|[->|[->|Ha]]]]];
      destruct (special_cases b) as [->|[->|[->|[->|[->|Hb]]]]];
      try (simpl in E; discriminate E);
      try (simpl in E; injection E as E; f_equal; apply IH; exact E).
    + rewrite (entity_plain b Hb) in E. simpl in E. injection E as <- _.
      discriminate Hb.
    + rewrite (entity_plain b Hb) in E. simpl in E. injection E as <- _.
      discriminate Hb.
    + rewrite (entity_plain b Hb) in E. simpl in E. injection E as <- _.
      discriminate Hb.
    + rewrite (entity_plain b Hb) in E. simpl in E. injection E as <- _.
      discriminate Hb.
    + rewrite (entity_plain b Hb) in E. simpl in E. injection E as <- _.
      discriminate Hb.
    + rewrite (entity_plain a Ha) in E. simpl in E. injection E as -> _.
      discriminate Ha.
    + rewrite (entity_plain a Ha) in E. simpl in E. injection E as -> _.
      discriminate Ha.
    + rewrite (entity_plain a Ha) in E. simpl in E. injection E as -> _.
      discriminate Ha.
    + rewrite (entity_plain a Ha) in E. simpl in E. injection E as -> _.
      discriminate Ha.
    + rewrite (entity_plain a Ha) in E. simpl in E. injection E as -> _.
      discriminate Ha.
    + rewrite (entity_plain a Ha), (entity_plain b Hb) in E. simpl in E.
      injection E as -> E. f_equal. apply IH. exact E.
Qed.

(** X2: [escapeHtml] loses nothing: two strings with the same escaped form
    are the same string. *)
Theorem escapeHtml_injective (s1 s2 : string) :
  escapeHtml (TString s1) = escapeHtml (TString s2) -> s1 = s2.
Proof.
  rewrite !escapeHtml_entities. apply entities_injective.
Qed.

Lemma escapeHtml_injective_witness :
  escapeHtml (TString "a&b") = escapeHtml (TString "a&b")
  /\ "a&b"%string = "a&b"%string.
Proof.
  split; [reflexivity|].
  exact (escapeHtml_injective "a&b" "a&b" eq_refl).
Defined.

Lemma entities_app (s1 s2 : string) :
  entities (s1 ++ s2) = (entities s1 ++ entities s2)%string.
Proof.
  induction s1 as [|a s1 IH]; simpl; [reflexivity|].
  rewrite IH. apply append_associative.
Qed.

Lemma length_entity (a : ascii) :
  (if special a then 4 <= String.length (entity a)
   else String.length (entity a) = 1)%nat.
Proof.
  destruct (special_cases a) as [->|[->|[->|[->|[->|H]]]]];
    try (simpl; lia).
  rewrite H, (entity_plain a H). reflexivity.
Qed.

Lemma length_append (s1 s2 : string) :
  String.length (s1 ++ s2) = (String.length s1 + String.length s2)%nat.
Proof. induction s1 as [|a s1 IH]; simpl; [reflexivity|]. rewrite IH. reflexivity. Qed.

Lemma length_entities (s : string) :
  (String.length s <= String.length (entities s))%nat
  /\ (existsb special (chars s) = true ->
      String.length s < String.length (entities s))%nat.
Proof.
  induction s as [|a s (IH1 & IH2)]; simpl; [split; [lia|discriminate]|].
  rewrite length_append. pose proof (length_entity a) as Ha.
  destruct (special a); simpl; split; intros; try lia.
  specialize (IH2 H). lia.
Qed.

(** X3: escaping distributes over concatenation, never shortens a string,
    and returns a string unchanged exactly when it has none of the five
    characters; with one of them the result is longer, so escaping twice is
    not the same as escaping once. *)
Theorem escapeHtml_unchanged_iff_plain (s1 s2 : string) :
  escapeHtml (TString (s1 ++ s2))
  = (escapeHtml (TString s1) ++ escapeHtml (TString s2))%string
  /\ (String.length s1 <= String.length (escapeHtml (TString s1)))%nat
  /\ (escapeHtml (TString s1) = s1 <-> existsb special (chars s1) = false)
  /\ (escapeHtml (TString (escapeHtml (TString s1))) = escapeHtml (TString s1)
      <-> existsb special (chars s1) = false).
Proof.
  rewrite !escapeHtml_entities.
  assert (Hid : forall s, entities s = s <-> existsb special (chars s) = false).
  { intros s. split.
    - intros E. destruct (existsb special (chars s)) eqn:X; [|reflexivity].
      pose proof (proj2 (length_entities s) X) as L. rewrite E in L. lia.
    - induction s as [|a s IH]; simpl; [reflexivity|].
      intros X. apply orb_false_elim in X. destruct X as (Xa & Xs).
      rewrite (entity_plain a Xa), (IH Xs). reflexivity. }
  split; [apply entities_app|].
  split; [apply length_entities|].
  split; [apply Hid|].
  split.
  - intros E. apply entities_injective in E. apply Hid. exact E.
  - intros X. apply Hid in X. rewrite X. exact X.
Qed.

(** ** Periodic updates and the alert store *)

(** Two step functions that agree wherever an invariant holds give the same
    fold from a state where it holds. *)
Lemma fold_left_agree {A B : Type} (f g : A -> B -> A) (P : A -> Prop) :
  (forall a b, P a -> f a b = g a b) ->
  (forall a b, P a -> P (g a b)) ->
  forall l a, P a -> fold_left f l a = fold_left g l a.
Proof.
  intros Hfg Hg. induction l as [|b l IH]; intros a Ha; [reflexivity|].
  change (fold_left f l (f a b) = fold_left g l (g a b)).
  rewrite (Hfg a b Ha). apply IH, Hg, Ha.
Qed.

(** A step that puts one element in front of a list, under an invariant,
    puts as many as there are steps. *)
Lemma fold_left_grows {A B X : Type} (g : A -> B -> A) (P : A -> Prop)
      (Q : A -> list X) (T : X -> Prop) :
  (forall a b, P a ->
               P (g a b) /\ exists x, Q (g a b) = x :: Q a /\ T x) ->
  forall l a, P a ->
              exists fresh, Q (fold_left g l a) = fresh ++ Q a
                            /\ List.length fresh = List.length l
                            /\ Forall T fresh.
Proof.
  intros Hg. induction l as [|b l IH]; intros a Ha.
  - exists []. repeat split. constructor.
  - destruct (Hg a b Ha) as (Hp & x & Hx & Tx).
    destruct (IH (g a b) Hp) as (fresh & Hs & Hl & Hall).
    exists (fresh ++ [x]).
    change (fold_left g (b :: l) a) with (fold_left g l (g a b)).
    rewrite Hs, Hx, <- app_assoc. split; [reflexivity|].
    split; [rewrite length_app; cbn [List.length]; lia|].
    apply Forall_app. split; [exact Hall|]. constructor; [exact Tx|constructor].
Qed.

Section Updates.

Variable Math_sin : number -> number.
Variable getHours : number -> number.
Variable toLocaleTimeString : number -> string.
Variable parseInt_text : text -> number.

Lemma random_updateChartData {C : Type} (data : Reading.t C) (w : world) :
  random (updateChartData toLocaleTimeString data w) = random w.
Proof.
  unfold updateChartData. cbv zeta.
  destruct (MAX_DATA_POINTS CONFIG <? _)%nat; simpl;
    destruct (energyChart w); reflexivity.
Qed.

(** One update evaluates the generated converter reading in a state that
    has the alerts and the clock it started with, six draws later. *)
Lemma updateDashboard_state (w : world) :
  exists w',
    updateDashboard Math_sin getHours toLocaleTimeString parseInt_text w
    = checkConverterAlerts (generated Math_sin getHours parseInt_text w) w'
    /\ systemAlerts w' = systemAlerts w /\ clock w' = clock w
    /\ random w' = {| stream := stream (random w); pos := 6 + pos (random w) |}.
Proof.
  unfold updateDashboard, generated.
  pose proof (generateSensorData_world Math_sin getHours parseInt_text w) as Hw.
  destruct (generateSensorData Math_sin getHours parseInt_text w)
    as [data w1]. simpl fst. simpl snd in Hw. cbv zeta.
  eexists. split; [reflexivity|].
  match goal with
  | |- systemAlerts (updateChartData _ _ ?x) = _ /\ _ =>
      destruct (systemAlerts_updateChartData toLocaleTimeString data x)
        as (-> & ->);
      rewrite (random_updateChartData data x);
      assert (K : kept x = kept w1)
  end.
  { rewrite kept_setEfficiencyGauge, kept_setVoltageGauge,
      kept_updateConverterMetrics.
    repeat (rewrite kept_call || rewrite kept_updateMetricCard).
    reflexivity. }
  unfold kept in K. injection K as _ Ha Hc Hr.
  rewrite Ha, Hc, Hr, Hw. repeat split; reflexivity.
Qed.

(** The only draft a generated reading raises is the voltage warning. *)
Lemma converterAlerts_generated (w : world) :
  fair (random w) ->
  converterAlerts (generated Math_sin getHours parseInt_text w)
  = [voltageDraft
       (Converter.outputVoltage (generated Math_sin getHours parseInt_text w))].
Proof.
  intros Hf.
  pose proof (generated_bounds Math_sin getHours parseInt_text w Hf)
    as (_ & Hv & _ & _ & _ & Hd & He).
  set (c := generated Math_sin getHours parseInt_text w) in *. clearbody c.
  assert (H1 : (Converter.efficiency c < 85)%js = false)
    by (apply (within_not_lt _ _ _ _ He); reflexivity).
  assert (H2 : (Math_abs (Converter.outputVoltage c - 24.0) > 0.48)%js = true).
  { pose proof (within_sub _ _ _ _ _ _ Hv
                  (within_const 24.0%js eq_refl) eq_refl eq_refl) as Hs.
    pose proof (within_abs_nonneg _ _ _ Hs eq_refl) as Ha.
    apply (within_gt _ _ _ _ Ha); reflexivity. }
  assert (H3 : (Converter.dutyCycle c > 90)%js = false)
    by (apply (within_not_gt _ _ _ _ Hd); reflexivity).
  unfold converterAlerts. cbv zeta. rewrite H1, H2, H3. reflexivity.
Qed.

(** X4: every update of the converter-aware dashboard puts exactly one new
    alert in front of the store, the voltage warning for the generated
    output voltage, stamped with the clock and with the seventh draw of the
    update in its identifier; the size of the store plays no part. *)
Theorem updateDashboard_adds_voltage_alert (w : world) :
  fair (random w) ->
  let c := generated Math_sin getHours parseInt_text w in
  let r := stream (random w) (6 + pos (random w)) in
  systemAlerts
    (updateDashboard Math_sin getHours toLocaleTimeString parseInt_text w)
  = stamp (clock w + Math_floor (r * 1000))%js
          (voltageDraft (Converter.outputVoltage c)) (clock w)
    :: systemAlerts w.
Proof.
  intros Hf. cbv zeta.
  destruct (updateDashboard_state w) as (w' & -> & Ha & Hc & Hr).
  rewrite checkConverterAlerts_systemAlerts, (converterAlerts_generated w Hf).
  generalize (Converter.outputVoltage
                (generated Math_sin getHours parseInt_text w)).
  intros v. unfold addAlerts, Math_random. cbn [systemAlerts clock random
    set_systemAlerts set_random fst snd stream pos].
  rewrite Ha, Hc, Hr. reflexivity.
Qed.

Lemma stream_addAlerts (alerts : list Draft.t) :
  forall w, stream (random (addAlerts alerts w)) = stream (random w).
Proof.
  induction alerts as [|d rest IH]; intros w; simpl; [reflexivity|].
  rewrite IH. reflexivity.
Qed.

Lemma stream_updateDashboard (w : world) :
  stream (random
            (updateDashboard Math_sin getHours toLocaleTimeString
                             parseInt_text w))
  = stream (random w).
Proof.
  destruct (updateDashboard_state w) as (w' & -> & _ & _ & Hr).
  generalize (generated Math_sin getHours parseInt_text w). intros c.
  unfold checkConverterAlerts. cbv zeta.
  destruct (0 <? _)%nat; unfold renderAlerts, call; cbn [random];
    rewrite stream_addAlerts, Hr; reflexivity.
Qed.

Lemma length_updateDashboard (w : world) :
  fair (random w) ->
  List.length
    (systemAlerts
       (updateDashboard Math_sin getHours toLocaleTimeString parseInt_text w))
  = S (List.length (systemAlerts w))
  /\ exists a,
       systemAlerts
         (updateDashboard Math_sin getHours toLocaleTimeString parseInt_text w)
       = a :: systemAlerts w
       /\ Alert.title a = "Output Voltage Out of Range"%string.
Proof.
  intros Hf.
  destruct (updateDashboard_state w) as (w' & -> & Ha & Hc & Hr).
  rewrite checkConverterAlerts_systemAlerts, (converterAlerts_generated w Hf).
  generalize (Converter.outputVoltage
                (generated Math_sin getHours parseInt_text w)).
  intros v. unfold addAlerts, Math_random. cbn [systemAlerts clock random
    set_systemAlerts set_random fst snd stream pos].
  rewrite Ha. split; [reflexivity|].
  eexists. split; reflexivity.
Qed.

(** With four alerts or more before it, a run of the periodic callback is
    the update alone. *)
Lemma dataUpdate_full (w : world) :
  fair (random w) ->
  (4 <= List.length (systemAlerts w))%nat ->
  dataUpdate Math_sin getHours toLocaleTimeString parseInt_text w
  = updateDashboard Math_sin getHours toLocaleTimeString parseInt_text w.
Proof.
  intros Hf Hn. destruct (length_updateDashboard w Hf) as (Hl & _).
  unfold dataUpdate.
  generalize dependent
    (updateDashboard Math_sin getHours toLocaleTimeString parseInt_text w).
  intros w1 Hl. unfold generateRandomAlert. rewrite Hl.
  destruct (Nat.ltb_spec (S (List.length (systemAlerts w))) 5);
    [lia|reflexivity].
Qed.

Lemma fair_updateDashboard (w : world) :
  fair (random w) ->
  fair (random
          (updateDashboard Math_sin getHours toLocaleTimeString
                           parseInt_text w)).
Proof. intros Hf. unfold fair. rewrite stream_updateDashboard. exact Hf. Qed.

Lemma elapse_keeps (t : number) (w : world) :
  systemAlerts (elapse t w) = systemAlerts w
  /\ random (elapse t w) = random w.
Proof. split; reflexivity. Qed.

(** X5: once the store holds four alerts (as it does after the update made
    at load time) the periodic callback never injects a random alert again:
    each run is the update alone, the store grows by one voltage warning
    per run, and only a dismissal can bring the injection back. *)
Theorem startDataUpdates_never_injects (times : list number) (w : world) :
  fair (random w) ->
  (4 <= List.length (systemAlerts w))%nat ->
  startDataUpdates Math_sin getHours toLocaleTimeString parseInt_text times w
  = fold_left
      (fun w t =>
         updateDashboard Math_sin getHours toLocaleTimeString parseInt_text
                         (elapse t w))
      times w
  /\ exists fresh,
       systemAlerts
         (startDataUpdates Math_sin getHours toLocaleTimeString parseInt_text
                           times w)
       = fresh ++ systemAlerts w
       /\ List.length fresh = List.length times
       /\ Forall (fun a => Alert.title a = "Output Voltage Out of Range"%string)
                 fresh.
Proof.
  intros Hf Hn. unfold startDataUpdates.
  set (P := fun w => fair (random w)
                     /\ (4 <= List.length (systemAlerts w))%nat).
  assert (Hstep : forall w t,
             P w ->
             dataUpdate Math_sin getHours toLocaleTimeString parseInt_text
                        (elapse t w)
             = updateDashboard Math_sin getHours toLocaleTimeString
                               parseInt_text (elapse t w)
             /\ P (updateDashboard Math_sin getHours toLocaleTimeString
                                   parseInt_text (elapse t w))
             /\ exists a,
                  systemAlerts
                    (updateDashboard Math_sin getHours toLocaleTimeString
                                     parseInt_text (elapse t w))
                  = a :: systemAlerts w
                  /\ Alert.title a = "Output Voltage Out of Range"%string).
  { intros w0 t (Hf0 & Hn0).
    destruct (elapse_keeps t w0) as (Ea & Er).
    assert (Hfe : fair (random (elapse t w0))) by (rewrite Er; exact Hf0).
    assert (Hne : (4 <= List.length (systemAlerts (elapse t w0)))%nat)
      by (rewrite Ea; exact Hn0).
    destruct (length_updateDashboard (elapse t w0) Hfe) as (Hl & a & Ha & Ht).
    split; [exact (dataUpdate_full (elapse t w0) Hfe Hne)|].
    split.
    - split; [exact (fair_updateDashboard (elapse t w0) Hfe)|].
      rewrite Hl. lia.
    - exists a. rewrite <- Ea. auto. }
  assert (HP : P w) by (split; assumption).
  rewrite (fold_left_agree _ _ P (fun w t H => proj1 (Hstep w t H))
             (fun w t H => proj1 (proj2 (Hstep w t H))) times w HP).
  split; [reflexivity|].
  exact (fold_left_grows _ P systemAlerts
           (fun a => Alert.title a = "Output Voltage Out of Range"%string)
           (fun w t H => proj2 (Hstep w t H)) times w HP).
Qed.

(** X6: a reading ingested from outside is displayed and charted but never
    evaluated: whatever its converter values, the alert store, the clock
    and the random source are left as they were. *)
Theorem updateDashboardWithRealData_raises_no_alert (data : Payload.t)
        (w : world) :
  let w' := updateDashboardWithRealData toLocaleTimeString data w in
  systemAlerts w' = systemAlerts w
  /\ clock w' = clock w
  /\ random w' = random w.
Proof.
  cbv zeta. unfold updateDashboardWithRealData. cbv zeta.
  pose proof (kept_metrics data w) as Hm.
  set (w1 := when (defined (Payload.efficiency data)) _ _) in *.
  set (w2 := match Payload.converter data with Some _ => _ | None => _ end).
  assert (H2 : kept w2 = kept w).
  { subst w2. destruct (Payload.converter data) as [c|]; [|exact Hm].
    rewrite kept_when; [|intros; apply kept_setEfficiencyGauge].
    rewrite kept_when; [|intros; apply kept_setVoltageGauge].
    rewrite kept_updateConverterMetrics. exact Hm. }
  set (w3 := match Payload.systemStatus data with Some _ => _ | None => _ end).
  assert (H3 : kept w3 = kept w).
  { subst w3. destruct (Payload.systemStatus data); exact H2. }
  unfold kept in H3. injection H3 as _ Ha Hc Hr.
  change (systemAlerts (call ?c ?x)) with (systemAlerts x).
  change (clock (call ?c ?x)) with (clock x).
  change (random (call ?c ?x)) with (random x).
  destruct (systemAlerts_updateChartData toLocaleTimeString
              (chartDataPoint data w3) w3) as (-> & ->).
  rewrite (random_updateChartData (chartDataPoint data w3) w3).
  auto.
Qed.

End Updates.

Lemma startDataUpdates_never_injects_witness :
  fair (random (updateDashboard noSine evening eveningLabel parsePlain
                                (startWorld [0.5%js])))
  /\ (4 <= List.length
             (systemAlerts
                (updateDashboard noSine evening eveningLabel parsePlain
                                 (startWorld [0.5%js]))))%nat
  /\ startDataUpdates noSine evening eveningLabel parsePlain
       [1700000005000; 1700000010000]%js
       (updateDashboard noSine evening eveningLabel parsePlain
                        (startWorld [0.5%js]))
     = fold_left
         (fun w t =>
            updateDashboard noSine evening eveningLabel parsePlain (elapse t w))
         [1700000005000; 1700000010000]%js
         (updateDashboard noSine evening eveningLabel parsePlain
                          (startWorld [0.5%js])).
Proof.
  assert (Hf : fair (random (updateDashboard noSine evening eveningLabel
                                             parsePlain (startWorld [0.5%js])))).
  { unfold fair. rewrite stream_updateDashboard. intros i. reflexivity. }
  assert (Hn : (4 <= List.length
                       (systemAlerts
                          (updateDashboard noSine evening eveningLabel
                                           parsePlain (startWorld [0.5%js]))))%nat)
    by (vm_compute; lia).
  split; [exact Hf|]. split; [exact Hn|].
  exact (proj1 (startDataUpdates_never_injects noSine evening eveningLabel
                  parsePlain [1700000005000; 1700000010000]%js _ Hf Hn)).
Defined.

Lemma updateDashboard_adds_voltage_alert_witness :
  fair (random (startWorld [0.5%js]))
  /\ List.length
       (systemAlerts
          (updateDashboard noSine evening eveningLabel parsePlain
                           (startWorld [0.5%js])))
     = 4%nat.
Proof.
  assert (H : fair (random (startWorld [0.5%js]))) by (intros i; reflexivity).
  split; [exact H|].
  rewrite (updateDashboard_adds_voltage_alert noSine evening eveningLabel
             parsePlain (startWorld [0.5%js]) H).
  reflexivity.
Defined.

(** ** Dismissals and the chart window *)

Lemma filter_commute {A : Type} (f g : A -> bool) (l : list A) :
  filter f (filter g l) = filter g (filter f l).
Proof.
  induction l as [|a l IH]; simpl; [reflexivity|].
  destruct (f a) eqn:Ef, (g a) eqn:Eg; simpl; rewrite ?Ef, ?Eg, IH;
    reflexivity.
Qed.

Lemma filter_twice {A : Type} (f : A -> bool) (l : list A) :
  filter f (filter f l) = filter f l.
Proof.
  induction l as [|a l IH]; simpl; [reflexivity|].
  destruct (f a) eqn:Ef; simpl; rewrite ?Ef, IH; reflexivity.
Qed.

Lemma strict_ne_nan (x : number) : (x !== S754_nan)%js = true.
Proof. destruct x as [[]|[]| |[] m e]; reflexivity. Qed.

(** X7: dismissals commute (the two orders reach the same state) and a
    repeated dismissal changes nothing more in the store; a dismissal never
    adds an alert; and no alert can be dismissed through the identifier
    NaN, which compares unequal to every identifier, itself included. *)
Theorem dismissAlert_commutes (a b : number) (w : world) :
  dismissAlert a (dismissAlert b w) = dismissAlert b (dismissAlert a w)
  /\ systemAlerts (dismissAlert a (dismissAlert a w))
     = systemAlerts (dismissAlert a w)
  /\ (List.length (systemAlerts (dismissAlert a w))
      <= List.length (systemAlerts w))%nat
  /\ systemAlerts (dismissAlert S754_nan w) = systemAlerts w.
Proof.
  unfold dismissAlert, renderAlerts, call, set_systemAlerts.
  cbn [systemAlerts chartData energyChart voltageGauge efficiencyGauge
       storageText dom clock random].
  split; [rewrite filter_commute; reflexivity|].
  split; [apply filter_twice|].
  split; [apply filter_length_le|].
  apply filter_none. intros x _. apply strict_ne_nan.
Qed.

Lemma lastn_all {A : Type} (n : nat) (l : list A) :
  (List.length l <= n)%nat -> lastn n l = l.
Proof.
  intros H. unfold lastn.
  replace (List.length l - n)%nat with 0%nat by lia. reflexivity.
Qed.

Lemma lastn_lastn_app {A : Type} (n : nat) (l r : list A) :
  lastn n (lastn n l ++ r) = lastn n (l ++ r).
Proof.
  unfold lastn.
  destruct (Nat.le_gt_cases (List.length l) n) as [Hle|Hgt].
  - replace (List.length l - n)%nat with 0%nat by lia. reflexivity.
  - set (k := (List.length l - n)%nat).
    assert (Hk : List.length (skipn k l) = n)
      by (rewrite length_skipn; unfold k; lia).
    rewrite !length_app, Hk.
    replace (List.length l + List.length r - n)%nat
      with ((n + List.length r - n) + k)%nat by (unfold k; lia).
    rewrite <- (skipn_skipn (n + List.length r - n) k), (skipn_app k l r).
    replace (k - List.length l)%nat with 0%nat by (unfold k; lia).
    reflexivity.
Qed.

Lemma lastn_snoc_tl {A : Type} (n : nat) (l : list A) (x : A) :
  List.length l = S n -> tl l ++ [x] = lastn (S n) (l ++ [x])
                         /\ List.length (tl l) = n.
Proof.
  intros H. unfold lastn. rewrite length_app. cbn [List.length].
  replace (List.length l + 1 - S n)%nat with 1%nat by lia.
  destruct l as [|a l]; [discriminate|]. simpl in *.
  split; [reflexivity|lia].
Qed.

Section Window.

Variable toLocaleTimeString : number -> string.
Context {C : Type}.

(** One append leaves the last twenty entries of each sequence. *)
Lemma updateChartData_window (data : Reading.t C) (w : world) :
  aligned (chartData w) ->
  let c := chartData w in
  let c' := chartData (updateChartData toLocaleTimeString data w) in
  ChartData.labels c'
  = lastn 20 (ChartData.labels c
              ++ [toLocaleTimeString (Reading.timestamp data)])
  /\ ChartData.generation c'
     = lastn 20 (ChartData.generation c ++ [Reading.generation data])
  /\ ChartData.consumption c'
     = lastn 20 (ChartData.consumption c ++ [Reading.consumption data]).
Proof.
  intros Hw. pose proof (updateChartData_fifo toLocaleTimeString data w Hw) as H.
  destruct Hw as (Hlg & Hgc & Hcap). cbv zeta in *.
  change (MAX_DATA_POINTS CONFIG) with 20%nat in *.
  destruct (Nat.ltb_spec (List.length (ChartData.labels (chartData w))) 20)
    as [Hroom|Hfull]; destruct H as (-> & -> & ->).
  - rewrite !lastn_all by (rewrite length_app; cbn [List.length]; lia).
    auto.
  - assert (Hl : List.length (ChartData.labels (chartData w)) = 20%nat) by lia.
    assert (Hg : List.length (ChartData.generation (chartData w)) = 20%nat)
      by lia.
    assert (Hc : List.length (ChartData.consumption (chartData w)) = 20%nat)
      by lia.
    split; [apply lastn_snoc_tl, Hl|].
    split; [apply lastn_snoc_tl, Hg|apply lastn_snoc_tl, Hc].
Qed.

(** X8: the chart is a sliding window: starting from a chart whose three
    sequences have the same length, at most twenty, after any number of
    appends each sequence holds the last twenty entries of what it held
    before followed by what was appended, in order. *)
Theorem updateChartData_sliding_window (points : list (Reading.t C))
        (w : world) :
  aligned (chartData w) ->
  let c := chartData w in
  let c' :=
    chartData
      (fold_left (fun w data => updateChartData toLocaleTimeString data w)
                 points w) in
  ChartData.labels c'
  = lastn 20 (ChartData.labels c
              ++ map (fun data => toLocaleTimeString (Reading.timestamp data))
                     points)
  /\ ChartData.generation c'
     = lastn 20 (ChartData.generation c ++ map Reading.generation points)
  /\ ChartData.consumption c'
     = lastn 20 (ChartData.consumption c ++ map Reading.consumption points).
Proof.
  cbv zeta. revert w. induction points as [|p rest IH]; intros w Hw.
  - cbn [fold_left map]. rewrite !app_nil_r.
    destruct Hw as (Hlg & Hgc & Hcap).
    change (MAX_DATA_POINTS CONFIG) with 20%nat in Hcap.
    rewrite !lastn_all by lia. auto.
  - cbn [fold_left map].
    destruct (IH _ (updateChartData_step toLocaleTimeString p w Hw))
      as (-> & -> & ->).
    destruct (updateChartData_window p w Hw) as (-> & -> & ->).
    rewrite !lastn_lastn_app, <- !app_assoc. auto.
Qed.

End Window.

Lemma updateChartData_sliding_window_witness :
  aligned (chartData (startWorld [0.5%js]))
  /\ ChartData.generation
       (chartData
          (fold_left (fun w data => updateChartData eveningLabel data w)
             (map (fun k => Reading.mk (ofZ (Z.of_nat k)) 7%js 75%js
                                       1700000000000%js 95%js tt)
                  (seq 1 22))
             (startWorld [0.5%js])))
     = map (fun k => ofZ (Z.of_nat k)) (seq 3 20).
Proof.
  assert (H : aligned (chartData (startWorld [0.5%js])))
    by (repeat split; vm_compute; lia).
  split; [exact H|].
  rewrite (proj1 (proj2 (updateChartData_sliding_window eveningLabel _ _ H))).
  vm_compute. reflexivity.
Defined.

(** ** Converter efficiency *)

Lemma eqb_R x y :
  fin x = true -> fin y = true -> (x === y)%js = (R x =? R y).
Proof.
  intros Hx Hy. unfold strict_eq, SFeqb. rewrite (compare_R x y Hx Hy).
  destruct (Z.compare_spec (R x) (R y)) as [E|L|G].
  - symmetry. apply Z.eqb_eq. exact E.
  - symmetry. apply Z.eqb_neq. lia.
  - symmetry. apply Z.eqb_neq. lia.
Qed.

(** The product of two finite numbers is a number: finite, or an infinity
    when it overflows. *)
Lemma mul_number x y :
  fin x = true -> fin y = true ->
  fin (x * y)%js = true \/ exists s, (x * y)%js = S754_infinity s.
Proof.
  intros Hx Hy. pose proof (mul_rounds x y Hx Hy) as H. unfold JS.mul.
  destruct (SFmul prec emax x y) as [s|s| |s m e]; simpl in H.
  - left. reflexivity.
  - right. exists s. reflexivity.
  - destruct H.
  - left. simpl. tauto.
Qed.

Lemma R_one : R 1%js = 2 ^ scale /\ R 100%js = 100 * 2 ^ scale.
Proof. split; vm_compute; reflexivity. Qed.

(** The quotient of a number by one at least as large lies between 0
    and 1. *)
Lemma div_unit x y :
  fin x = true -> fin y = true -> 0 <= R x <= R y -> 0 < R y ->
  within (S754_zero false) 1%js (x / y)%js.
Proof.
  intros Hx Hy Hxy Hp.
  assert (Hs : 0 < 2 ^ scale) by (apply pow2_pos; unfold scale; lia).
  pose proof (div_exact x y Hx Hy ltac:(lia)) as Hd.
  rewrite (Z.abs_eq (R y)), (Z.sgn_pos (R y)), Z.mul_1_r in Hd by lia.
  apply (between _ _ _ _ _ 1 _ _ 1 Hd (exact_self (S754_zero false) eq_refl)
                 (exact_self 1%js eq_refl)); try reflexivity; try lia.
  - change (R (S754_zero false)) with 0. nia.
  - rewrite (proj1 R_one). nia.
Qed.

(** X9: for finite voltages and currents whose input power is finite and
    whose output power lies between 0 and the input power,
    [calculateEfficiency] returns a percentage: a finite number between 0
    and 100 (and 0 when the input power is zero, where it does not
    divide). *)
Theorem calculateEfficiency_is_percentage
        (inputVoltage inputCurrent outputVoltage outputCurrent : number) :
  fin inputVoltage = true -> fin inputCurrent = true ->
  fin outputVoltage = true -> fin outputCurrent = true ->
  fin (inputVoltage * inputCurrent)%js = true ->
  (0 <= outputVoltage * outputCurrent)%js = true ->
  (outputVoltage * outputCurrent <= inputVoltage * inputCurrent)%js = true ->
  within 0%js 100%js
         (calculateEfficiency inputVoltage inputCurrent outputVoltage
                              outputCurrent)
  /\ ((inputVoltage * inputCurrent === 0)%js = true ->
      calculateEfficiency inputVoltage inputCurrent outputVoltage
                          outputCurrent = 0%js).
Proof.
  intros Hvi Hii Hvo Hio Hpi H0 Hle.
  unfold calculateEfficiency. cbv zeta.
  set (pin := (inputVoltage * inputCurrent)%js) in *.
  set (pout := (outputVoltage * outputCurrent)%js) in *.
  assert (Hpo : fin pout = true).
  { destruct (mul_number outputVoltage outputCurrent Hvo Hio) as [F|(s & E)];
      [exact F|].
    fold pout in E. rewrite E in H0, Hle. destruct s; [discriminate H0|].
    destruct pin as [[]|[]| |[] m e]; discriminate. }
  assert (F0 : fin 0%js = true) by reflexivity.
  unfold JS.le in H0, Hle.
  apply (leb_R _ _ F0 Hpo) in H0. change (R 0%js) with 0 in H0.
  apply (leb_R _ _ Hpo Hpi) in Hle.
  rewrite (eqb_R pin 0%js Hpi F0). change (R 0%js) with 0.
  destruct (Z.eqb_spec (R pin) 0) as [E|N].
  - split; [|reflexivity].
    assert (Hs : 0 < 2 ^ scale) by (apply pow2_pos; unfold scale; lia).
    unfold within. rewrite (proj2 R_one). change (R 0%js) with 0.
    repeat split; try reflexivity; lia.
  - split; [|discriminate].
    pose proof (div_unit pout pin Hpo Hpi ltac:(lia) ltac:(lia)) as Hq.
    pose proof (within_mul_r _ _ 100%js _ Hq eq_refl eq_refl eq_refl) as Hm.
    exact Hm.
Qed.

Lemma calculateEfficiency_is_percentage_witness :
  (24 * 0.9 <= 12 * 2)%js = true
  /\ within 0%js 100%js (calculateEfficiency 12%js 2%js 24%js 0.9%js).
Proof.
  split; [reflexivity|].
  exact (proj1 (calculateEfficiency_is_percentage 12%js 2%js 24%js 0.9%js
                  eq_refl eq_refl eq_refl eq_refl eq_refl eq_refl eq_refl)).
Defined.

(** ** Whole numbers *)

Lemma rnd_integer k : 0 <= k < 2 ^ 53 -> rnd (k * 2 ^ scale) 1 = k * 2 ^ scale.
Proof.
  intros Hk.
  assert (Hs : 0 < 2 ^ scale) by (apply pow2_pos; unfold scale; lia).
  destruct (Z.eq_dec k 0) as [->|N]; [apply rnd_0; lia|].
  unfold rnd, ulp_exp. cbv zeta. rewrite Z.div_1_r, Z.mul_1_l.
  rewrite digits_shift by (unfold scale; lia).
  assert (Hd : 1 <= digits k <= 53).
  { split; [apply (digits_ge _ 0); lia|apply digits_le; lia]. }
  set (j := Z.max (digits k + scale - 53) (scale - 1074)).
  assert (Hj : 0 <= j <= scale) by (unfold j, scale; lia).
  assert (Hp : 0 < 2 ^ j) by (apply pow2_pos; lia).
  replace (k * 2 ^ scale) with (k * 2 ^ (scale - j) * 2 ^ j).
  2:{ rewrite <- Z.mul_assoc, <- Z.pow_add_r by lia. do 2 f_equal. lia. }
  unfold rhe. cbv zeta. rewrite Z.div_mul, Z.mod_mul by lia.
  destruct (Z.ltb_spec (2 * 0) (2 ^ j)); [reflexivity|lia].
Qed.

Lemma rndZ_integer k :
  Z.abs k < 2 ^ 53 -> rndZ (k * 2 ^ scale) 1 = k * 2 ^ scale.
Proof.
  intros Hk.
  assert (Hs : 0 < 2 ^ scale) by (apply pow2_pos; unfold scale; lia).
  destruct (Z.lt_trichotomy k 0) as [Hn|[->|Hp]].
  - rewrite rndZ_neg by nia.
    replace (- (k * 2 ^ scale)) with ((- k) * 2 ^ scale) by ring.
    rewrite rnd_integer by lia. ring.
  - simpl. unfold rndZ. reflexivity.
  - rewrite rndZ_nonneg by nia. apply rnd_integer. lia.
Qed.

(** A number that rounds a whole number below 2^53 is that whole number. *)
Lemma exact_integer z k :
  exact z (k * 2 ^ scale) 1 -> Z.abs k < 2 ^ 53 ->
  fin z = true /\ R z = k * 2 ^ scale.
Proof.
  intros Hz Hk.
  assert (Hs : 0 < 2 ^ scale) by (apply pow2_pos; unfold scale; lia).
  assert (Hb : rnd (Z.abs (k * 2 ^ scale)) 1 < 2 ^ (emax + scale)).
  { rewrite Z.abs_mul, (Z.abs_eq (2 ^ scale)), rnd_integer by lia.
    rewrite Z.pow_add_r by (unfold emax, scale; lia).
    apply Z.mul_lt_mono_pos_r; [lia|].
    assert (2 ^ 53 < 2 ^ emax) by (apply Z.pow_lt_mono_r; unfold emax; lia).
    lia. }
  destruct (exact_fin z _ 1 Hz ltac:(lia) Hb) as (F & E).
  split; [exact F|]. rewrite E. apply rndZ_integer, Hk.
Qed.

Lemma ofZ_R n :
  Z.abs n < 2 ^ 53 -> fin (ofZ n) = true /\ R (ofZ n) = n * 2 ^ scale.
Proof.
  intros Hn. apply exact_integer; [|exact Hn].
  assert (Hs : 0 < 2 ^ scale) by (apply pow2_pos; unfold scale; lia).
  exists (n <? 0). rewrite Z.abs_mul, (Z.abs_eq (2 ^ scale)) by lia.
  split; [apply (binary_normalize_rounds n 0); unfold scale; lia|].
  split; intros Hsg; [apply Z.ltb_ge|apply Z.ltb_lt]; nia.
Qed.

(** The integer a finite number denotes can be read off its value. *)
Lemma toZ_R z k : fin z = true -> R z = k * 2 ^ scale -> toZ z = Some k.
Proof.
  assert (Hs : 0 < 2 ^ scale) by (apply pow2_pos; unfold scale; lia).
  destruct z as [s|s| |s m e]; try discriminate; intros F E.
  - simpl in E. simpl. f_equal. nia.
  - simpl in F. apply bounded_inv in F. destruct F as (Be & _).
    assert (HR : R (S754_finite s m e) = signed s m * 2 ^ (e + scale)).
    { unfold R, signed, cond_Zopp. destruct s; ring. }
    rewrite HR in E. unfold toZ.
    destruct (Z.leb_spec 0 e) as [Hpos|Hneg].
    + rewrite Z.pow_add_r, Z.mul_assoc in E by (unfold scale; lia).
      f_equal. nia.
    + assert (Hp : 0 < 2 ^ (e + scale)) by (apply pow2_pos; unfold scale; lia).
      assert (Hq : 0 < 2 ^ (- e)) by (apply pow2_pos; lia).
      assert (Hsplit : 2 ^ scale = 2 ^ (e + scale) * 2 ^ (- e)).
      { rewrite <- Z.pow_add_r by (unfold scale; lia). f_equal. lia. }
      rewrite Hsplit in E.
      assert (Em : signed s m = k * 2 ^ (- e)) by nia.
      assert (Ea : Zpos m = Z.abs k * 2 ^ (- e)).
      { unfold signed, cond_Zopp in Em. destruct s; nia. }
      rewrite Ea, Z.mod_mul by lia. rewrite Z.eqb_refl.
      rewrite Em, Z.div_mul by lia. reflexivity.
Qed.

Lemma whole_integer k : whole (k * 2 ^ scale) = k.
Proof.
  assert (Hs : 0 < 2 ^ scale) by (apply pow2_pos; unfold scale; lia).
  unfold whole. apply Z.div_mul. lia.
Qed.

Lemma whole_bounds v :
  whole v * 2 ^ scale <= v < (whole v + 1) * 2 ^ scale.
Proof.
  assert (Hs : 0 < 2 ^ scale) by (apply pow2_pos; unfold scale; lia).
  unfold whole.
  pose proof (Z.div_mod v (2 ^ scale) ltac:(lia)).
  pose proof (Z.mod_pos_bound v (2 ^ scale) Hs). nia.
Qed.

Lemma floor_exact x :
  fin x = true -> exact (Math_floor x) (whole (R x) * 2 ^ scale) 1.
Proof.
  assert (Hs : 0 < 2 ^ scale) by (apply pow2_pos; unfold scale; lia).
  destruct x as [s|s| |s m e]; try discriminate; intros H.
  - change (R (S754_zero s)) with (0 * 2 ^ scale).
    rewrite whole_integer. exact (exact_self (S754_zero s) eq_refl).
  - pose proof H as Hb. simpl in Hb. apply bounded_inv in Hb.
    destruct Hb as (Be & _).
    assert (HR : R (S754_finite s m e) = signed s m * 2 ^ (e + scale)).
    { unfold R, signed, cond_Zopp. destruct s; ring. }
    unfold Math_floor. destruct (Z.leb_spec 0 e) as [Hpos|Hneg].
    + replace (whole (R (S754_finite s m e)) * 2 ^ scale)
        with (R (S754_finite s m e)); [apply exact_self, H|].
      rewrite HR, Z.pow_add_r by (unfold scale; lia).
      rewrite Z.mul_assoc, whole_integer. reflexivity.
    + assert (Hp : 0 < 2 ^ (e + scale)) by (apply pow2_pos; unfold scale; lia).
      assert (Hq : 0 < 2 ^ (- e)) by (apply pow2_pos; lia).
      assert (Hn : whole (R (S754_finite s m e)) = signed s m / 2 ^ (- e)).
      { unfold whole. rewrite HR.
        replace (2 ^ scale) with (2 ^ (- e) * 2 ^ (e + scale)).
        2:{ rewrite <- Z.pow_add_r by (unfold scale; lia). f_equal. lia. }
        apply Z.div_mul_cancel_r; lia. }
      rewrite Hn. set (n := signed s m / 2 ^ (- e)).
      unfold integral. destruct (Z.eqb_spec n 0) as [E0|N0].
      * rewrite E0. exact (exact_self (S754_zero s) eq_refl).
      * exists (n <? 0). rewrite Z.abs_mul, (Z.abs_eq (2 ^ scale)) by lia.
        split; [apply (binary_normalize_rounds n 0); unfold scale; lia|].
        split; intros Hsg; [apply Z.ltb_ge|apply Z.ltb_lt]; nia.
Qed.

(** [Math.floor] of a number below 2^52 in magnitude is the whole number
    below it. *)
Lemma floor_R x :
  fin x = true -> Z.abs (R x) < 2 ^ 52 * 2 ^ scale ->
  fin (Math_floor x) = true
  /\ R (Math_floor x) = whole (R x) * 2 ^ scale
  /\ toZ (Math_floor x) = Some (whole (R x)).
Proof.
  intros Hx Hb.
  assert (Hs : 0 < 2 ^ scale) by (apply pow2_pos; unfold scale; lia).
  pose proof (whole_bounds (R x)) as Hw.
  assert (Hk : Z.abs (whole (R x)) < 2 ^ 53).
  { change (2 ^ 53) with (2 * 2 ^ 52).
    assert (0 < 2 ^ 52) by reflexivity. nia. }
  destruct (exact_integer _ _ (floor_exact x Hx) Hk) as (F & E).
  split; [exact F|]. split; [exact E|]. exact (toZ_R _ _ F E).
Qed.

(** A finite number other than zero is determined by its value. *)
Lemma R_inj x y :
  fin x = true -> fin y = true -> R x = R y -> R x <> 0 -> x = y.
Proof.
  destruct x as [sx|sx| |sx mx ex], y as [sy|sy| |sy my ey];
    try discriminate; intros Hx Hy E N; simpl in Hx, Hy.
  - simpl in N. lia.
  - simpl in N. lia.
  - rewrite E in N. simpl in N. lia.
  - pose proof (mag_compare _ _ _ _ Hx Hy) as C.
    pose proof Hx as Bx. pose proof Hy as By.
    apply bounded_inv in Bx. apply bounded_inv in By.
    assert (Px : 0 < 2 ^ (ex + scale)) by (apply pow2_pos; unfold scale; lia).
    assert (Py : 0 < 2 ^ (ey + scale)) by (apply pow2_pos; unfold scale; lia).
    unfold R, cond_Zopp in E.
    assert (Es : sx = sy) by (destruct sx, sy; try reflexivity; nia).
    subst sy.
    assert (Em : Zpos mx * 2 ^ (ex + scale) = Zpos my * 2 ^ (ey + scale))
      by (destruct sx; lia).
    rewrite Em, Z.compare_refl in C.
    destruct (Z.compare_spec ex ey) as [Ee|L|G]; try discriminate.
    subst ey. apply Pos.compare_eq in C. subst my. reflexivity.
Qed.

Lemma floor_ofZ x k :
  fin x = true -> Z.abs (R x) < 2 ^ 52 * 2 ^ scale -> whole (R x) = k ->
  k <> 0 -> Math_floor x = ofZ k.
Proof.
  intros Hx Hb Hk N.
  assert (Hs : 0 < 2 ^ scale) by (apply pow2_pos; unfold scale; lia).
  destruct (floor_R x Hx Hb) as (F & E & _). rewrite Hk in E.
  pose proof (whole_bounds (R x)) as Hw. rewrite Hk in Hw.
  assert (Hk53 : Z.abs k < 2 ^ 53).
  { change (2 ^ 53) with (2 * 2 ^ 52). assert (0 < 2 ^ 52) by reflexivity. nia. }
  destruct (ofZ_R k Hk53) as (Fk & Ek).
  apply R_inj; try assumption; [lia|nia].
Qed.

(** The quotient of two whole numbers below 2^52, the divisor positive and
    the dividend not negative, rounds to a number whose integer part is
    their integer quotient: the rounding never reaches the next integer. *)
Lemma div_whole x y d c :
  fin x = true -> fin y = true ->
  R x = d * 2 ^ scale -> R y = c * 2 ^ scale ->
  0 <= d < 2 ^ 52 -> 0 < c < 2 ^ 52 ->
  fin (x / y)%js = true
  /\ 0 <= R (x / y)%js < 2 ^ 52 * 2 ^ scale
  /\ whole (R (x / y)%js) = d / c.
Proof.
  intros Hx Hy Ex Ey Hd Hc. unfold JS.div.
  assert (Hs : 0 < 2 ^ scale) by (apply pow2_pos; unfold scale; lia).
  pose proof (div_exact x y Hx Hy ltac:(nia)) as He.
  rewrite (Z.abs_eq (R y)), (Z.sgn_pos (R y)), Z.mul_1_r in He by nia.
  rewrite Ex, Ey in He.
  set (k := d / c).
  assert (Hk : k * c <= d < (k + 1) * c).
  { unfold k. pose proof (Z.div_mod d c ltac:(lia)).
    pose proof (Z.mod_pos_bound d c ltac:(lia)). nia. }
  assert (Hk0 : 0 <= k) by (unfold k; apply Z.div_pos; lia).
  set (jj := digits k).
  assert (Hjj : 0 <= jj) by apply digits_nonneg.
  assert (Hkj : k < 2 ^ jj) by (apply lt_pow_digits; lia).
  assert (Hcj : c * 2 ^ jj < 2 ^ 53).
  { destruct (Z.eq_dec k 0) as [E0|N0].
    - unfold jj. rewrite E0. change (digits 0) with 0.
      change (2 ^ 0) with 1. change (2 ^ 53) with (2 * 2 ^ 52).
      assert (0 < 2 ^ 52) by reflexivity. lia.
    - pose proof (digits_bounds k ltac:(lia)) as B. fold jj in B.
      assert (J1 : 1 <= jj) by (apply (digits_ge k 0); simpl; lia).
      assert (2 ^ jj = 2 * 2 ^ (jj - 1)).
      { replace jj with (1 + (jj - 1)) at 1 by lia.
        rewrite Z.pow_add_r by lia. reflexivity. }
      change (2 ^ 53) with (2 * 2 ^ 52). nia. }
  assert (Hjj52 : jj <= 53).
  { destruct (Z.le_gt_cases jj 53) as [|G]; [assumption|].
    assert (2 ^ 53 <= 2 ^ jj) by (apply Z.pow_le_mono_r; lia). nia. }
  destruct (exact_error _ _ _ (scale + jj) He ltac:(nia)
              ltac:(unfold scale, emax; lia)) as (F & Err).
  { rewrite Z.abs_eq by nia. rewrite Z.pow_add_r by (unfold scale; lia).
    assert (d < c * 2 ^ jj) by nia.
    assert (d * 2 ^ scale < c * 2 ^ jj * 2 ^ scale) by nia.
    nia. }
  set (q := SFdiv prec emax x y) in *.
  pose proof (exact_R _ _ _ He ltac:(nia) F) as Eq.
  (* from below: the quotient is at least the integer quotient *)
  assert (Lo : k * 2 ^ scale <= R q).
  { rewrite Eq, <- (rndZ_integer k).
    - apply rndZ_mono; nia.
    - change (2 ^ 53) with (2 * 2 ^ 52). assert (0 < 2 ^ 52) by reflexivity.
      nia. }
  (* from above: the rounding error is less than the distance to the next
     integer *)
  set (E := 2 ^ (scale + jj - 53)) in *.
  assert (HE : E * 2 ^ 53 = 2 ^ scale * 2 ^ jj).
  { unfold E. rewrite <- !Z.pow_add_r by (unfold scale; lia). f_equal. lia. }
  assert (HcE : c * E < 2 ^ scale).
  { assert (0 < 2 ^ 53) by reflexivity.
    assert (c * E * 2 ^ 53 < 2 ^ scale * 2 ^ 53) by nia.
    nia. }
  assert (Hi : R q < (k + 1) * 2 ^ scale).
  { assert (H1 : 2 * (R q * (c * 2 ^ scale))
                 <= 2 * (d * 2 ^ scale * 2 ^ scale) + c * 2 ^ scale * E)
      by lia.
    assert (H2 : 2 * (R q * c) <= 2 * (d * 2 ^ scale) + c * E).
    { apply cancel_scale.
      replace (2 ^ scale * (2 * (R q * c)))
        with (2 * (R q * (c * 2 ^ scale))) by ring.
      replace (2 ^ scale * (2 * (d * 2 ^ scale) + c * E))
        with (2 * (d * 2 ^ scale * 2 ^ scale) + c * 2 ^ scale * E) by ring.
      exact H1. }
    assert (H3 : 2 * (R q * c) < 2 * ((k + 1) * c * 2 ^ scale)).
    { assert (d + 1 <= (k + 1) * c) by lia.
      assert ((d + 1) * 2 ^ scale <= (k + 1) * c * 2 ^ scale) by nia.
      lia. }
    assert (H4 : c * R q < c * ((k + 1) * 2 ^ scale)) by lia.
    apply Z.mul_lt_mono_pos_l in H4; lia. }
  split; [exact F|].
  split.
  - split; [nia|].
    assert ((k + 1) * 2 ^ scale <= 2 ^ 52 * 2 ^ scale); [|lia].
    apply Z.mul_le_mono_nonneg_r; [lia|]. nia.
  - pose proof (whole_bounds (R q)) as Hw. nia.
Qed.

(** The quotient of a negative whole number by a positive one is finite
    and not above zero. *)
Lemma div_negative x y d c :
  fin x = true -> fin y = true ->
  R x = d * 2 ^ scale -> R y = c * 2 ^ scale ->
  - 2 ^ 52 < d < 0 -> 0 < c < 2 ^ 52 ->
  fin (x / y)%js = true /\ - (2 ^ 52 * 2 ^ scale) < R (x / y)%js <= 0.
Proof.
  intros Hx Hy Ex Ey Hd Hc. unfold JS.div.
  assert (Hs : 0 < 2 ^ scale) by (apply pow2_pos; unfold scale; lia).
  assert (H52 : 0 < 2 ^ 52) by reflexivity.
  pose proof (div_exact x y Hx Hy ltac:(nia)) as He.
  rewrite (Z.abs_eq (R y)), (Z.sgn_pos (R y)), Z.mul_1_r in He by nia.
  rewrite Ex, Ey in He.
  destruct (exact_error _ _ _ (scale + 52) He ltac:(nia)
              ltac:(unfold scale, emax; lia)) as (F & Err).
  { rewrite Z.abs_neq by nia.
    rewrite Z.pow_add_r by (unfold scale; lia).
    assert (- d < c * 2 ^ 52) by nia.
    assert (- d * 2 ^ scale < c * 2 ^ 52 * 2 ^ scale) by nia.
    nia. }
  set (q := SFdiv prec emax x y) in *.
  pose proof (exact_R _ _ _ He ltac:(nia) F) as Eq.
  split; [exact F|]. split.
  - replace (scale + 52 - 53) with (scale - 1) in Err by lia.
    assert (HE : 2 * 2 ^ (scale - 1) = 2 ^ scale).
    { replace scale with (1 + (scale - 1)) at 2 by lia.
      rewrite Z.pow_add_r by (unfold scale; lia). reflexivity. }
    set (E := 2 ^ (scale - 1)) in *.
    assert (H1 : 2 * (d * 2 ^ scale * 2 ^ scale) - c * 2 ^ scale * E
                 <= 2 * (R q * (c * 2 ^ scale))) by lia.
    assert (H2 : 2 * (d * 2 ^ scale) - c * E <= 2 * (R q * c)).
    { apply cancel_scale.
      replace (2 ^ scale * (2 * (R q * c)))
        with (2 * (R q * (c * 2 ^ scale))) by ring.
      replace (2 ^ scale * (2 * (d * 2 ^ scale) - c * E))
        with (2 * (d * 2 ^ scale * 2 ^ scale) - c * 2 ^ scale * E) by ring.
      exact H1. }
    assert (H3 : c * (- (2 ^ 52 * 2 ^ scale)) < c * R q).
    { assert ((1 - 2 ^ 52) * 2 ^ scale <= d * 2 ^ scale) by nia.
      assert (c * (2 ^ 52 * 2 ^ scale) >= 2 ^ 52 * 2 ^ scale) by nia.
      assert (c * E <= c * 2 ^ scale) by nia.
      nia. }
    apply Z.mul_lt_mono_pos_l in H3; lia.
  - rewrite Eq, rndZ_neg by nia.
    assert (0 <= rnd (- (d * 2 ^ scale * 2 ^ scale)) (c * 2 ^ scale));
      [apply rnd_nonneg; nia|lia].
Qed.

Lemma R_durations :
  R 60000%js = 60000 * 2 ^ scale /\ R 3600000%js = 3600000 * 2 ^ scale
  /\ R 86400000%js = 86400000 * 2 ^ scale /\ R 60%js = 60 * 2 ^ scale
  /\ R 24%js = 24 * 2 ^ scale.
Proof. repeat split; vm_compute; reflexivity. Qed.

Lemma scaled_lt a b : a * 2 ^ scale < b * 2 ^ scale <-> a < b.
Proof.
  assert (Hs : 0 < 2 ^ scale) by (apply pow2_pos; unfold scale; lia).
  split; intros H; nia.
Qed.

(** A comparison of [Math.floor] of a quotient with a whole number, read on
    the whole numbers. *)
Lemma floor_lt x k c d :
  fin (Math_floor x) = true -> R (Math_floor x) = d / c * 2 ^ scale ->
  fin k = true -> forall kz, R k = kz * 2 ^ scale -> 0 < c ->
  (Math_floor x < k)%js = (d <? c * kz).
Proof.
  intros Ff Ef Fk kz Ek Hc.
  destruct (Z.ltb_spec d (c * kz)) as [H|H].
  - apply (ltb_R _ _ Ff Fk). rewrite Ef, Ek. apply scaled_lt.
    apply Z.div_lt_upper_bound; lia.
  - destruct (Math_floor x < k)%js eqn:X; [|reflexivity].
    apply (ltb_R _ _ Ff Fk) in X. rewrite Ef, Ek in X.
    apply (proj1 (scaled_lt _ _)) in X.
    pose proof (Z.div_le_lower_bound d c kz Hc H). lia.
Qed.

(** X10: for whole-millisecond times within 2^51 of the epoch, [getTimeAgo]
    shows the exact integer counts: "Just now" below a minute (and for a
    timestamp in the future), then whole minutes below an hour, whole hours
    below a day, whole days after; the rounding of the divisions never
    changes a count. *)
Theorem getTimeAgo_counts (n t : Z) (w : world) :
  Z.abs n < 2 ^ 51 -> Z.abs t < 2 ^ 51 -> clock w = ofZ n ->
  getTimeAgo (ofZ t) w
  = let d := n - t in
    if d <? 60000 then [Text "Just now"]
    else if d <? 3600000
         then [Value (ofZ (d / 60000)); Text " minutes ago"]
    else if d <? 86400000
         then [Value (ofZ (d / 3600000)); Text " hours ago"]
    else [Value (ofZ (d / 86400000)); Text " days ago"].
Proof.
  intros Hn Ht Hc. cbv zeta.
  assert (Hs : 0 < 2 ^ scale) by (apply pow2_pos; unfold scale; lia).
  assert (H51 : 2 ^ 53 = 4 * 2 ^ 51 /\ 2 ^ 52 = 2 * 2 ^ 51 /\ 0 < 2 ^ 51)
    by (repeat split; reflexivity).
  destruct (ofZ_R n ltac:(lia)) as (Fn & En).
  destruct (ofZ_R t ltac:(lia)) as (Ft & Et).
  destruct R_durations as (Rm & Rh & Rd & R60 & R24).
  destruct R_one as (R1 & _).
  replace (2 ^ scale) with (1 * 2 ^ scale) in R1 by ring.
  unfold getTimeAgo. cbv zeta. rewrite Hc.
  set (d := n - t).
  assert (Bd : - 2 ^ 52 < d < 2 ^ 52) by (unfold d; lia).
  pose proof (sub_exact (ofZ n) (ofZ t) Fn Ft) as Hd.
  rewrite En, Et in Hd.
  replace (n * 2 ^ scale - t * 2 ^ scale) with (d * 2 ^ scale) in Hd
    by (unfold d; ring).
  destruct (exact_integer _ _ Hd ltac:(lia)) as (Fd & Ed).
  fold (JS.sub (ofZ n) (ofZ t)) in Fd, Ed.
  set (diffMs := (ofZ n - ofZ t)%js) in *.
  clearbody diffMs d. clear Hd En Et Fn Ft Hn Ht Hc.
  assert (F1 : fin 1%js = true) by reflexivity.
  assert (F60 : fin 60%js = true) by reflexivity.
  assert (F24 : fin 24%js = true) by reflexivity.
  assert (C52 : 86400000 < 2 ^ 52) by reflexivity.
  destruct (Z.lt_ge_cases d 0) as [Hneg|Hpos].
  - (* a timestamp in the future *)
    destruct (div_negative diffMs 60000%js d 60000 Fd eq_refl Ed Rm
                ltac:(lia) ltac:(lia)) as (Fq & Bq).
    destruct (floor_R _ Fq ltac:(lia)) as (Ff & Ef & _).
    pose proof (whole_bounds (R (diffMs / 60000)%js)) as Hw.
    assert (L : (Math_floor (diffMs / 60000) < 1)%js = true).
    { apply (ltb_R _ _ Ff F1). rewrite Ef, R1. lia. }
    rewrite L. destruct (Z.ltb_spec d 60000); [reflexivity|lia].
  - destruct (div_whole diffMs 60000%js d 60000 Fd eq_refl Ed Rm
                ltac:(lia) ltac:(lia)) as (Fq1 & Bq1 & Wq1).
    destruct (div_whole diffMs 3600000%js d 3600000 Fd eq_refl Ed Rh
                ltac:(lia) ltac:(lia)) as (Fq2 & Bq2 & Wq2).
    destruct (div_whole diffMs 86400000%js d 86400000 Fd eq_refl Ed Rd
                ltac:(lia) ltac:(lia)) as (Fq3 & Bq3 & Wq3).
    destruct (floor_R _ Fq1 ltac:(lia)) as (Ff1 & Ef1 & _).
    destruct (floor_R _ Fq2 ltac:(lia)) as (Ff2 & Ef2 & _).
    rewrite Wq1 in Ef1. rewrite Wq2 in Ef2.
    rewrite (floor_lt _ 1%js 60000 d Ff1 Ef1 F1 1 R1 ltac:(lia)).
    rewrite (floor_lt _ 60%js 60000 d Ff1 Ef1 F60 60 R60 ltac:(lia)).
    rewrite (floor_lt _ 24%js 3600000 d Ff2 Ef2 F24 24 R24 ltac:(lia)).
    change (60000 * 1) with 60000. change (60000 * 60) with 3600000.
    change (3600000 * 24) with 86400000.
    destruct (Z.ltb_spec d 60000) as [Hm|Hm]; [reflexivity|].
    destruct (Z.ltb_spec d 3600000) as [Hh|Hh].
    + rewrite (floor_ofZ _ (d / 60000) Fq1 ltac:(lia) Wq1); [reflexivity|].
      pose proof (Z.div_le_lower_bound d 60000 1 ltac:(lia) ltac:(lia)). lia.
    + destruct (Z.ltb_spec d 86400000) as [Hy|Hy].
      * rewrite (floor_ofZ _ (d / 3600000) Fq2 ltac:(lia) Wq2); [reflexivity|].
        pose proof (Z.div_le_lower_bound d 3600000 1 ltac:(lia) ltac:(lia)).
        lia.
      * rewrite (floor_ofZ _ (d / 86400000) Fq3 ltac:(lia) Wq3); [reflexivity|].
        pose proof (Z.div_le_lower_bound d 86400000 1 ltac:(lia) ltac:(lia)).
        lia.
Qed.

Lemma getTimeAgo_counts_witness :
  Z.abs 1700000000000 < 2 ^ 51
  /\ getTimeAgo (ofZ (1700000000000 - 7200000)) (startWorld [0.5%js])
     = [Value 2%js; Text " hours ago"].
Proof.
  split; [reflexivity|].
  rewrite (getTimeAgo_counts 1700000000000 (1700000000000 - 7200000)
             (startWorld [0.5%js]) eq_refl eq_refl eq_refl).
  vm_compute. reflexivity.
Defined.

(** ** The generation trend *)

Lemma sub_diag (x : number) :
  match x with
  | S754_finite _ _ _ | S754_zero _ => (x - x)%js = S754_zero false
  | S754_infinity _ | S754_nan => (x - x)%js = S754_nan
  end.
Proof.
  destruct x as [[]|[]| |s m e]; try reflexivity.
  unfold JS.sub, SFsub. rewrite Z.sub_diag. reflexivity.
Qed.

(** X11: with no previous value to compare with (an empty chart, or a last
    value that is zero or NaN) the trend is flat, whatever the current
    generation, NaN and the infinities included, and in both scripts: the
    guarded division of one and the 0/0 of the other end in the same
    branch. *)
Theorem updateGenerationTrend_without_previous (v : variant) (g : number)
        (w : world) :
  (forall p, lastOf (ChartData.generation (chartData w)) = Some p ->
             truthy p = false \/ p = g) ->
  updateGenerationTrend v g w = Steady.
Proof.
  intros H. unfold updateGenerationTrend. cbv zeta.
  set (prev := match lastOf (ChartData.generation (chartData w)) with
               | Some p => if truthy p then p else g
               | None => g
               end).
  assert (E : prev = g).
  { unfold prev. destruct (lastOf _) as [p|]; [|reflexivity].
    destruct (H p eq_refl) as [F| ->]; [rewrite F; reflexivity|].
    destruct (truthy g); reflexivity. }
  rewrite E. clearbody prev. clear E H prev.
  pose proof (sub_diag g) as D.
  destruct g as [sg|sg| |sg m e]; rewrite D.
  - destruct v, sg; reflexivity.
  - destruct v, sg; reflexivity.
  - destruct v; reflexivity.
  - destruct v, sg; reflexivity.
Qed.

Lemma updateGenerationTrend_without_previous_witness :
  (forall p, lastOf (ChartData.generation (chartData (startWorld [0.5%js])))
             = Some p -> truthy p = false \/ p = 9.3%js)
  /\ updateGenerationTrend ConverterAware 9.3%js (startWorld [0.5%js])
     = Steady.
Proof.
  assert (H : forall p,
             lastOf (ChartData.generation (chartData (startWorld [0.5%js])))
             = Some p -> truthy p = false \/ p = 9.3%js)
    by (intros p E; discriminate E).
  split; [exact H|].
  exact (updateGenerationTrend_without_previous ConverterAware 9.3%js
           (startWorld [0.5%js]) H).
Defined.

(** *** The direction of the arrow *)

Lemma exact_number z N D :
  exact z N D -> fin z = true \/ exists s, z = S754_infinity s.
Proof.
  intros (s & H & _).
  destruct z as [sz|sz| |sz m e]; unfold rounds_to in H.
  - left. reflexivity.
  - right. exists sz. reflexivity.
  - destruct H.
  - left. simpl. tauto.
Qed.

(** A result above zero rounds an exact value above zero; likewise
    below. *)
Lemma exact_above z N D :
  exact z N D -> 0 < D -> SFltb (S754_zero false) z = true -> 0 < N.
Proof.
  intros (s & H & _ & Hn) HD L.
  assert (Hv : s = false /\ 0 < rnd (Z.abs N) D).
  { destruct z as [sz|sz| |sz m e]; unfold rounds_to in H.
    - destruct sz; discriminate L.
    - destruct H as (<- & Hv). destruct sz; [discriminate L|].
      assert (0 < 2 ^ (emax + scale))
        by (apply pow2_pos; unfold emax, scale; lia).
      split; [reflexivity|lia].
    - destruct H.
    - destruct H as (<- & Hb & <-). destruct sz; [discriminate L|].
      apply bounded_inv in Hb.
      assert (0 < 2 ^ (e + scale)) by (apply pow2_pos; unfold scale; lia).
      split; [reflexivity|apply Z.mul_pos_pos; lia]. }
  destruct Hv as (-> & Hv).
  destruct (Z.lt_trichotomy N 0) as [Hlt|[->|Hgt]].
  - specialize (Hn Hlt). discriminate.
  - simpl in Hv. rewrite rnd_0 in Hv by lia. lia.
  - exact Hgt.
Qed.

Lemma exact_below z N D :
  exact z N D -> 0 < D -> SFltb z (S754_zero false) = true -> N < 0.
Proof.
  intros (s & H & Hp & _) HD L.
  assert (Hv : s = true /\ 0 < rnd (Z.abs N) D).
  { destruct z as [sz|sz| |sz m e]; unfold rounds_to in H.
    - destruct sz; discriminate L.
    - destruct H as (<- & Hv). destruct sz; [|discriminate L].
      assert (0 < 2 ^ (emax + scale))
        by (apply pow2_pos; unfold emax, scale; lia).
      split; [reflexivity|lia].
    - destruct H.
    - destruct H as (<- & Hb & <-). destruct sz; [|discriminate L].
      apply bounded_inv in Hb.
      assert (0 < 2 ^ (e + scale)) by (apply pow2_pos; unfold scale; lia).
      split; [reflexivity|apply Z.mul_pos_pos; lia]. }
  destruct Hv as (-> & Hv).
  destruct (Z.lt_trichotomy N 0) as [Hlt|[->|Hgt]].
  - exact Hlt.
  - simpl in Hv. rewrite rnd_0 in Hv by lia. lia.
  - specialize (Hp Hgt). discriminate.
Qed.

Lemma above_R z :
  fin z = true -> SFltb (S754_zero false) z = true <-> 0 < R z.
Proof. intros F. exact (ltb_R (S754_zero false) z eq_refl F). Qed.

Lemma below_R z :
  fin z = true -> SFltb z (S754_zero false) = true <-> R z < 0.
Proof. intros F. exact (ltb_R z (S754_zero false) F eq_refl). Qed.

(** The sign of the relative change is the sign of the difference, through
    the subtraction, the division by a positive number and the
    multiplication by 100, overflow to an infinity included. *)
Lemma change_above g p :
  fin g = true -> positive_number p = true ->
  SFltb (S754_zero false) ((g - p) / p * 100)%js = true -> R p < R g.
Proof.
  intros Fg Pp L. destruct (positive_R p Pp) as (Fp & Rp).
  assert (Hs : 0 < 2 ^ scale) by (apply pow2_pos; unfold scale; lia).
  pose proof (sub_exact g p Fg Fp) as Hd. fold (JS.sub g p) in Hd.
  set (x1 := (g - p)%js) in *.
  assert (H1 : SFltb (S754_zero false) x1 = true).
  { (* through the division and the multiplication *)
    destruct (exact_number _ _ _ Hd) as [F1|(s1 & E1)].
    - pose proof (div_exact x1 p F1 Fp ltac:(lia)) as Hq.
      rewrite (Z.abs_eq (R p)), (Z.sgn_pos (R p)), Z.mul_1_r in Hq by lia.
      fold (JS.div x1 p) in Hq. set (x2 := (x1 / p)%js) in *.
      assert (H2 : SFltb (S754_zero false) x2 = true).
      { destruct (exact_number _ _ _ Hq) as [F2|(s2 & E2)].
        - pose proof (mul_exact x2 100%js F2 eq_refl) as Hm.
          pose proof (exact_above _ _ _ Hm Hs L) as Hpos.
          rewrite (proj2 R_one) in Hpos. apply (above_R x2 F2). nia.
        - rewrite E2 in L |- *. destruct s2; [discriminate L|reflexivity]. }
      pose proof (exact_above _ _ _ Hq Rp H2) as Hpos.
      apply (above_R x1 F1). nia.
    - rewrite E1 in L |- *.
      destruct p as [sp|sp| |sp mp ep]; try discriminate Pp.
      destruct s1, sp; try discriminate L; try discriminate Pp; reflexivity. }
  pose proof (exact_above _ _ _ Hd ltac:(lia) H1). lia.
Qed.

Lemma change_below g p :
  fin g = true -> positive_number p = true ->
  SFltb ((g - p) / p * 100)%js (S754_zero false) = true -> R g < R p.
Proof.
  intros Fg Pp L. destruct (positive_R p Pp) as (Fp & Rp).
  assert (Hs : 0 < 2 ^ scale) by (apply pow2_pos; unfold scale; lia).
  pose proof (sub_exact g p Fg Fp) as Hd. fold (JS.sub g p) in Hd.
  set (x1 := (g - p)%js) in *.
  assert (H1 : SFltb x1 (S754_zero false) = true).
  { destruct (exact_number _ _ _ Hd) as [F1|(s1 & E1)].
    - pose proof (div_exact x1 p F1 Fp ltac:(lia)) as Hq.
      rewrite (Z.abs_eq (R p)), (Z.sgn_pos (R p)), Z.mul_1_r in Hq by lia.
      fold (JS.div x1 p) in Hq. set (x2 := (x1 / p)%js) in *.
      assert (H2 : SFltb x2 (S754_zero false) = true).
      { destruct (exact_number _ _ _ Hq) as [F2|(s2 & E2)].
        - pose proof (mul_exact x2 100%js F2 eq_refl) as Hm.
          pose proof (exact_below _ _ _ Hm Hs L) as Hneg.
          rewrite (proj2 R_one) in Hneg. apply (below_R x2 F2). nia.
        - rewrite E2 in L |- *. destruct s2; [reflexivity|discriminate L]. }
      pose proof (exact_below _ _ _ Hq Rp H2) as Hneg.
      apply (below_R x1 F1). nia.
    - rewrite E1 in L |- *.
      destruct p as [sp|sp| |sp mp ep]; try discriminate Pp.
      destruct s1, sp; try discriminate L; try discriminate Pp; reflexivity. }
  pose proof (exact_below _ _ _ Hd ltac:(lia) H1). lia.
Qed.

Lemma above_threshold c :
  (c > 0.01)%js = true \/ (c > 0)%js = true ->
  SFltb (S754_zero false) c = true.
Proof.
  unfold JS.gt. intros [H|H].
  - destruct c as [[]|[]| |[] m e]; try discriminate H; reflexivity.
  - exact H.
Qed.

Lemma below_threshold c :
  (c < SFopp 0.01)%js = true \/ (c < 0)%js = true ->
  SFltb c (S754_zero false) = true.
Proof.
  unfold JS.lt. intros [H|H].
  - destruct c as [[]|[]| |[] m e]; try discriminate H; reflexivity.
  - exact H.
Qed.

(** X12: the arrow never points the wrong way: against a positive previous
    value, an upward arrow is shown only when the current generation is
    above the previous one and a downward arrow only when it is below, in
    both scripts and even when the percentage overflows. *)
Theorem updateGenerationTrend_direction (v : variant) (g p : number)
        (w : world) :
  lastOf (ChartData.generation (chartData w)) = Some p ->
  positive_number p = true -> fin g = true ->
  match updateGenerationTrend v g w with
  | Rising _ => (g > p)%js = true
  | Falling _ => (g < p)%js = true
  | Steady => True
  end.
Proof.
  intros Hl Pp Fg. destruct (positive_R p Pp) as (Fp & Rp).
  unfold updateGenerationTrend. cbv zeta. rewrite Hl.
  assert (Tp : truthy p = true)
    by (destruct p as [| | |[] m e]; try discriminate Pp; reflexivity).
  assert (Zp : (p === 0)%js = false).
  { rewrite (eqb_R p 0%js Fp eq_refl). change (R 0%js) with 0.
    apply Z.eqb_neq. lia. }
  rewrite Tp.
  set (c := ((g - p) / p * 100)%js).
  destruct v.
  - destruct (c > 0)%js eqn:Up.
    + apply (ltb_R _ _ Fp Fg).
      apply change_above; [assumption|assumption|].
      apply above_threshold. auto.
    + destruct (c < 0)%js eqn:Down; [|exact I].
      apply (ltb_R _ _ Fg Fp).
      apply change_below; [assumption|assumption|].
      apply below_threshold. auto.
  - rewrite Zp. fold c.
    destruct (c > 0.01)%js eqn:Up.
    + apply (ltb_R _ _ Fp Fg).
      apply change_above; [assumption|assumption|].
      apply above_threshold. auto.
    + destruct (c < SFopp 0.01)%js eqn:Down; [|exact I].
      apply (ltb_R _ _ Fg Fp).
      apply change_below; [assumption|assumption|].
      apply below_threshold. auto.
Qed.

Lemma updateGenerationTrend_direction_witness :
  positive_number 9%js = true
  /\ match updateGenerationTrend ConverterAware 9.5%js
             (updateChartData eveningLabel
                (Reading.mk 9%js 7%js 75%js 1700000000000%js 95%js tt)
                (startWorld [0.5%js])) with
     | Rising _ => (9.5 > 9)%js = true
     | Falling _ => (9.5 < 9)%js = true
     | Steady => True
     end.
Proof.
  split; [reflexivity|].
  exact (updateGenerationTrend_direction ConverterAware 9.5%js 9%js
           (updateChartData eveningLabel
              (Reading.mk 9%js 7%js 75%js 1700000000000%js 95%js tt)
              (startWorld [0.5%js]))
           eq_refl eq_refl eq_refl).
Defined.

(** ** The energy fields of a generated reading *)

Lemma round_R x :
  fin x = true -> Z.abs (R x) < 2 ^ 52 * 2 ^ scale ->
  fin (Math_round x) = true
  /\ R (Math_round x) = nearest (R x) * 2 ^ scale
  /\ toZ (Math_round x) = Some (nearest (R x)).
Proof.
  intros Hx Hb.
  assert (Hs : 0 < 2 ^ scale) by (apply pow2_pos; unfold scale; lia).
  pose proof (nearest_error (R x)) as Hn.
  assert (Hk : Z.abs (nearest (R x)) < 2 ^ 53).
  { change (2 ^ 53) with (2 * 2 ^ 52).
    assert (0 < 2 ^ 52) by reflexivity. nia. }
  destruct (exact_integer _ _ (round_exact x Hx) Hk) as (F & E).
  split; [exact F|]. split; [exact E|]. exact (toZ_R _ _ F E).
Qed.

(** A double between two finite numbers is finite. *)
Lemma double_within lo hi x :
  double x = true -> fin lo = true -> fin hi = true ->
  (x >= lo)%js = true -> (x <= hi)%js = true -> within lo hi x.
Proof.
  unfold double, JS.ge, JS.le. intros Dx Fl Fh L U.
  assert (Fx : fin x = true).
  { destruct x as [sx|sx| |sx mx ex]; try reflexivity.
    - destruct sx.
      + destruct lo as [[]|[]| |[] ml el]; discriminate.
      + destruct hi as [[]|[]| |[] mh eh]; discriminate.
    - destruct lo as [[]|[]| |[] ml el]; discriminate.
    - exact Dx. }
  apply (leb_R _ _ Fl Fx) in L. apply (leb_R _ _ Fx Fh) in U.
  unfold within. auto.
Qed.

(** A draw is at most the largest number below 1. *)
Lemma unit_draw_below r :
  unit_draw r = true -> within (S754_zero false) below_one r.
Proof.
  intros H. destruct (unit_draw_within r H) as (_ & _ & Fr & B0 & B1).
  assert (Hs : 0 < 2 ^ scale) by (apply pow2_pos; unfold scale; lia).
  assert (F1 : fin below_one = true) by reflexivity.
  unfold within. split; [reflexivity|]. split; [exact F1|].
  split; [exact Fr|]. split; [exact B0|].
  unfold unit_draw in H. apply andb_prop in H. destruct H as (_ & H).
  change (R below_one) with (9007199254740991 * 2 ^ (-53 + scale)).
  assert (Hq : 0 < 2 ^ (-53 + scale)) by (apply pow2_pos; unfold scale; lia).
  destruct r as [s|s| |s m e]; try discriminate H.
  - change (R (S754_zero s)) with 0. lia.
  - apply andb_prop in H. destruct H as (Hsg & Hlt).
    destruct s; [discriminate|].
    unfold JS.lt in Hlt. apply (ltb_R _ 1%js Fr eq_refl) in Hlt.
    rewrite (proj1 R_one) in Hlt.
    apply bounded_inv in Fr. destruct Fr as (Be & Bd & Bn).
    change (R (S754_finite false m e)) with (Zpos m * 2 ^ (e + scale)) in *.
    clear B0 B1.
    pose proof (lt_pow_digits (Zpos m) ltac:(lia)) as Um.
    assert (Hm : Zpos m < 2 ^ 53).
    { assert (2 ^ digits (Zpos m) <= 2 ^ 53)
        by (apply Z.pow_le_mono_r; lia). lia. }
    change (2 ^ 53) with 9007199254740992 in Hm.
    destruct (Z.le_gt_cases e (-53)) as [Hle|Hgt].
    + assert (2 ^ (e + scale) <= 2 ^ (-53 + scale))
        by (apply Z.pow_le_mono_r; unfold scale; lia).
      assert (0 < 2 ^ (e + scale)) by (apply pow2_pos; unfold scale; lia).
      clear - H H0 Hm Hq. nia.
    + exfalso.
      pose proof (digits_bounds (Zpos m) ltac:(lia)) as Lm.
      rewrite Bn in Lm by lia. change (2 ^ (53 - 1)) with (2 ^ 52) in Lm.
      assert (H1 : 2 ^ (-52 + scale) <= 2 ^ (e + scale))
        by (apply Z.pow_le_mono_r; unfold scale; lia).
      assert (H2 : 2 ^ scale = 2 ^ 52 * 2 ^ (-52 + scale)).
      { rewrite <- Z.pow_add_r by (unfold scale; lia). f_equal. }
      assert (H3 : 0 < 2 ^ (-52 + scale)) by (apply pow2_pos; unfold scale; lia).
      assert (H4 : 0 < 2 ^ 52) by reflexivity.
      clear - Hlt Lm H1 H2 H3 H4. nia.
Qed.

Lemma R_battery :
  R 45%js = 45 * 2 ^ scale /\ R 95%js = 95 * 2 ^ scale
  /\ R 92%js = 92 * 2 ^ scale /\ R 98%js = 98 * 2 ^ scale.
Proof. repeat split; vm_compute; reflexivity. Qed.

(** A rounded number between two whole numbers is a whole number between
    them. *)
Lemma round_between x (a b : Z) lo hi :
  within lo hi x -> R lo = a * 2 ^ scale -> R hi = b * 2 ^ scale ->
  0 <= a -> b < 2 ^ 51 ->
  within lo hi (Math_round x)
  /\ exists k, toZ (Math_round x) = Some k /\ a <= k <= b.
Proof.
  intros (Fl & Fh & Fx & Bx) Ea Eb Ha Hb.
  assert (Hs : 0 < 2 ^ scale) by (apply pow2_pos; unfold scale; lia).
  assert (H51 : 2 ^ 52 = 2 * 2 ^ 51 /\ 0 < 2 ^ 51) by (split; reflexivity).
  rewrite Ea, Eb in Bx.
  destruct (round_R x Fx) as (F & E & T).
  { rewrite Z.abs_eq by nia.
    assert (b * 2 ^ scale < 2 ^ 52 * 2 ^ scale); [|lia].
    apply Z.mul_lt_mono_pos_r; lia. }
  pose proof (nearest_mono _ _ (proj1 Bx)) as L.
  pose proof (nearest_mono _ _ (proj2 Bx)) as U.
  rewrite nearest_integer in L, U.
  split.
  - unfold within. rewrite E, Ea, Eb. repeat split; try assumption; nia.
  - exists (nearest (R x)). split; [exact T|lia].
Qed.

(** The battery level is clamped whatever the storage text reads as. *)
Lemma battery_clamped cb x lo hi :
  double cb = true -> truthy cb = true -> within lo hi x ->
  within 45%js 95%js (Math_round (Math_max 45 (Math_min 95 (cb + x)%js)))
  /\ exists k,
       toZ (Math_round (Math_max 45 (Math_min 95 (cb + x)%js))) = Some k
       /\ 45 <= k <= 95.
Proof.
  intros Dc Tc (_ & _ & Fx & _).
  destruct R_battery as (R45 & R95 & _).
  assert (Hconst : forall y, y = 45%js \/ y = 95%js ->
            within 45%js 95%js (Math_round y)
            /\ exists k, toZ (Math_round y) = Some k /\ 45 <= k <= 95).
  { assert (Hs : 0 < 2 ^ scale) by (apply pow2_pos; unfold scale; lia).
    intros y [-> | ->].
    - split; [|exists 45; split; [reflexivity|lia]].
      change (Math_round 45%js) with 45%js. unfold within.
      rewrite R45, R95. repeat split; try reflexivity; lia.
    - split; [|exists 95; split; [reflexivity|lia]].
      change (Math_round 95%js) with 95%js. unfold within.
      rewrite R45, R95. repeat split; try reflexivity; lia. }
  assert (Hfin : forall y, fin y = true ->
            within 45%js 95%js (Math_round (Math_max 45 (Math_min 95 y)))
            /\ exists k,
                 toZ (Math_round (Math_max 45 (Math_min 95 y))) = Some k
                 /\ 45 <= k <= 95).
  { intros y Fy.
    destruct (min_R 95%js y eq_refl Fy) as (Fm & Em).
    destruct (max_R 45%js _ eq_refl Fm) as (FM & EM).
    apply (round_between _ 45 95 _ _); try assumption; try lia;
      try reflexivity.
    unfold within. rewrite EM, Em, R45, R95.
    repeat split; try reflexivity; try assumption; lia. }
  destruct cb as [sc|sc| |sc mc ec]; try discriminate Tc.
  - (* the text reads as an infinity *)
    assert (E : (S754_infinity sc + x)%js = S754_infinity sc)
      by (destruct x as [[]|[]| |[] mx ex]; try discriminate Fx;
          destruct sc; reflexivity).
    rewrite E. destruct sc.
    + change (Math_max 45 (Math_min 95 (S754_infinity true))) with 45%js.
      apply Hconst. auto.
    + change (Math_max 45 (Math_min 95 (S754_infinity false))) with 95%js.
      apply Hconst. auto.
  - pose proof (add_exact (S754_finite sc mc ec) x Dc Fx) as Ha.
    fold (JS.add (S754_finite sc mc ec) x) in Ha.
    destruct (exact_number _ _ _ Ha) as [Fy|(s & Ey)]; [apply Hfin, Fy|].
    rewrite Ey. destruct s.
    + change (Math_max 45 (Math_min 95 (S754_infinity true))) with 45%js.
      apply Hconst. auto.
    + change (Math_max 45 (Math_min 95 (S754_infinity false))) with 95%js.
      apply Hconst. auto.
Qed.

(** Interval propagation over expressions with any unknowns: an expression
    without variables is a constant, the others are taken apart. *)
Ltac has_var e := match e with context [?v] => is_var v end.

Ltac is_open e :=
  match constr:(tt) with
  | _ => let _ := match goal with _ => has_var e end in constr:(true)
  | _ => constr:(false)
  end.

Ltac span e :=
  lazymatch goal with
  | H : within _ _ e |- _ => constr:(H)
  | _ =>
    let o := is_open e in
    lazymatch o with
    | false => normalize constr:(within_const e ltac:(vm_compute; reflexivity))
    | true =>
      lazymatch e with
      | JS.add ?x ?y =>
          let hx := span x in let hy := span y in
          normalize constr:(within_add _ _ _ _ x y hx hy
                              ltac:(vm_compute; reflexivity)
                              ltac:(vm_compute; reflexivity))
      | JS.sub ?x ?y =>
          let hx := span x in let hy := span y in
          normalize constr:(within_sub _ _ _ _ x y hx hy
                              ltac:(vm_compute; reflexivity)
                              ltac:(vm_compute; reflexivity))
      | JS.mul ?x ?y =>
          let oy := is_open y in
          lazymatch oy with
          | false =>
              let hx := span x in
              normalize constr:(within_mul_r _ _ y x hx
                                  ltac:(vm_compute; reflexivity)
                                  ltac:(vm_compute; reflexivity)
                                  ltac:(vm_compute; reflexivity))
          | true =>
              let ox := is_open x in
              lazymatch ox with
              | false =>
                  let hy := span y in
                  normalize constr:(within_mul_l _ _ x y hy
                                      ltac:(vm_compute; reflexivity)
                                      ltac:(vm_compute; reflexivity)
                                      ltac:(vm_compute; reflexivity))
              | true =>
                  let hx := span x in let hy := span y in
                  normalize constr:(within_mul _ _ _ _ x y hx hy
                                      ltac:(vm_compute; reflexivity)
                                      ltac:(vm_compute; reflexivity)
                                      ltac:(vm_compute; reflexivity)
                                      ltac:(vm_compute; reflexivity))
              end
          end
      | JS.div ?x ?y =>
          let oy := is_open y in
          lazymatch oy with
          | false =>
              let hx := span x in
              normalize constr:(within_div_r _ _ y x hx
                                  ltac:(vm_compute; reflexivity)
                                  ltac:(vm_compute; reflexivity)
                                  ltac:(vm_compute; reflexivity))
          | true =>
              let hx := span x in let hy := span y in
              normalize constr:(within_div _ _ _ _ x y hx hy
                                  ltac:(vm_compute; reflexivity)
                                  ltac:(vm_compute; reflexivity)
                                  ltac:(vm_compute; reflexivity)
                                  ltac:(vm_compute; reflexivity))
          end
      | Math_round ?x =>
          let hx := span x in
          normalize constr:(within_round _ _ x hx
                              ltac:(vm_compute; reflexivity)
                              ltac:(vm_compute; reflexivity))
      | Math_max ?c ?x =>
          let hx := span x in
          normalize constr:(within_max _ _ c x hx ltac:(vm_compute; reflexivity))
      | Math_min ?c ?x =>
          let hx := span x in
          normalize constr:(within_min _ _ c x hx ltac:(vm_compute; reflexivity))
      end
    end
  end.

Ltac spanned :=
  lazymatch goal with
  | |- within ?lo ?hi ?x =>
      let h := span x in
      apply (within_weaken _ _ lo hi x h); vm_compute; reflexivity
  end.

Section Energy.

Variable Math_sin : number -> number.
Variable getHours : number -> number.
Variable toLocaleTimeString : number -> string.
Variable parseInt_text : text -> number.

(** The storage text reads as a number that is not NaN, or as 75. *)
Lemma currentBattery_number (w : world) :
  (forall t, double (parseInt_text t) = true) ->
  double (currentBattery parseInt_text w) = true
  /\ truthy (currentBattery parseInt_text w) = true.
Proof.
  intros Hp. unfold currentBattery.
  destruct (storageText w) as [t|]; [|split; reflexivity].
  cbv zeta. destruct (truthy (parseInt_text t)) eqn:T.
  - split; [apply Hp|exact T].
  - split; reflexivity.
Qed.

Ltac energy :=
  cbv beta iota zeta delta
      [generateSensorData Math_random fst snd Reading.generation
       Reading.consumption Reading.batteryLevel Reading.efficiency
       Reading.timestamp CONFIG min max GENERATION_RANGE CONSUMPTION_RANGE
       BATTERY_RANGE];
  cbn [stream pos].

(** [Math.sin] is asked for a finite angle only, so it answers within its
    range. *)
Lemma solarFactor_within (w : world) :
  host Math_sin getHours parseInt_text ->
  (getHours (clock w) >= 6)%js && (getHours (clock w) <= 18)%js = true ->
  within (-1)%js 1%js
         (Math_sin ((getHours (clock w) - 6) * Math_PI / 12)%js).
Proof.
  intros (Hsin & Hh & _) C. apply andb_prop in C. destruct C as (C1 & C2).
  pose proof (double_within 6%js 18%js _ (Hh (clock w)) eq_refl eq_refl C1 C2)
    as Hhour.
  set (hour := getHours (clock w)) in *.
  apply Hsin.
  assert (Ha : within (S754_zero false) 4%js
                      ((hour - 6) * Math_PI / 12)%js) by spanned.
  exact (proj1 (proj2 (proj2 Ha))).
Qed.

(** The battery level of a generated reading is a whole number between 45
    and 95. *)
Lemma batteryLevel_clamped (w : world) :
  fair (random w) -> host Math_sin getHours parseInt_text ->
  let b :=
    Reading.batteryLevel
      (fst (generateSensorData Math_sin getHours parseInt_text w)) in
  within 45%js 95%js b /\ exists k, toZ b = Some k /\ 45 <= k <= 95.
Proof.
  intros Hf Hhost. cbv zeta.
  pose proof (solarFactor_within w Hhost) as Hday.
  destruct Hhost as (_ & _ & Hp).
  destruct (currentBattery_number w Hp) as (Dc & Tc).
  energy.
  pose proof (unit_draw_within _ (Hf (pos (random w)))) as H0.
  pose proof (unit_draw_within _ (Hf (S (pos (random w))))) as H1.
  set (hour := getHours (clock w)) in *.
  destruct ((hour >= 6)%js && (hour <= 18)%js);
    [specialize (Hday eq_refl)|clear Hday];
    destruct ((hour >= 7)%js && (hour <= 22)%js);
    apply (battery_clamped _ _ (-30)%js 30%js Dc Tc); spanned.
Qed.

(** X13: whatever the hour, the draws and the storage text, the energy
    fields of a generated reading stay in range: generation between 0.5
    and 16.5, consumption between 5.5 and 12, the battery level a whole
    number between 45 and 95 (clamped on both sides), the system
    efficiency a whole number between 92 and 98; the timestamp is the
    clock. *)
Theorem generateSensorData_energy_fields (w : world) :
  fair (random w) -> host Math_sin getHours parseInt_text ->
  let data := fst (generateSensorData Math_sin getHours parseInt_text w) in
  within 0.5%js 16.5%js (Reading.generation data)
  /\ within 5.5%js 12%js (Reading.consumption data)
  /\ (within 45%js 95%js (Reading.batteryLevel data)
      /\ exists k, toZ (Reading.batteryLevel data) = Some k /\ 45 <= k <= 95)
  /\ (within 92%js 98%js (Reading.efficiency data)
      /\ exists k, toZ (Reading.efficiency data) = Some k /\ 92 <= k <= 98)
  /\ Reading.timestamp data = clock w.
Proof.
  intros Hf Hhost. cbv zeta.
  pose proof (batteryLevel_clamped w Hf Hhost) as Hb. cbv zeta in Hb.
  pose proof (solarFactor_within w Hhost) as Hday.
  refine (conj _ (conj _ (conj Hb (conj _ eq_refl)))); clear Hb; energy.
  - pose proof (unit_draw_within _ (Hf (pos (random w)))) as H0.
    set (hour := getHours (clock w)) in *.
    destruct ((hour >= 6)%js && (hour <= 18)%js);
      [specialize (Hday eq_refl)|clear Hday]; spanned.
  - pose proof (unit_draw_within _ (Hf (S (pos (random w))))) as H1.
    destruct ((getHours (clock w) >= 7)%js && (getHours (clock w) <= 22)%js);
      spanned.
  - pose proof (unit_draw_within _
                  (Hf (S (S (S (S (S (pos (random w))))))))) as H5.
    destruct R_battery as (_ & _ & R92 & R98).
    apply (round_between _ 92 98 _ _); try assumption; try lia;
      try reflexivity.
    spanned.
Qed.

(** X14: on the synthetic pipeline the battery bar is never red: the level
    handed to [updateBatteryIndicator] is at least 45, so the bar is amber
    below 50 and blue from 50 on. *)
Theorem updateBatteryIndicator_never_red (w : world) :
  fair (random w) -> host Math_sin getHours parseInt_text ->
  let b :=
    Reading.batteryLevel
      (fst (generateSensorData Math_sin getHours parseInt_text w)) in
  snd (updateBatteryIndicator (JNum b))
  = (if (b < 50)%js then AmberGradient else BlueGradient)
  /\ snd (updateBatteryIndicator (JNum b)) <> RedGradient.
Proof.
  intros Hf Hhost. cbv zeta.
  destruct (batteryLevel_clamped w Hf Hhost) as (Hb & _). cbv zeta in Hb.
  set (b := Reading.batteryLevel _) in *. clearbody b.
  unfold updateBatteryIndicator. cbn [snd Number_of].
  assert (H20 : (b < 20)%js = false)
    by (apply (within_not_lt _ _ _ _ Hb); reflexivity).
  rewrite H20. split; [reflexivity|].
  destruct (b < 50)%js; discriminate.
Qed.

Lemma gauges_addAlerts (alerts : list Draft.t) :
  forall w, gauges (addAlerts alerts w) = gauges w.
Proof.
  induction alerts as [|d rest IH]; intros w; [reflexivity|].
  cbn [addAlerts]. unfold Math_random. cbv zeta. rewrite IH. reflexivity.
Qed.

Lemma gauges_call (c : dom_call) (w : world) :
  gauges (call c w) = gauges w.
Proof. reflexivity. Qed.

Lemma gauges_checkConverterAlerts (c : Converter.t) (w : world) :
  gauges (checkConverterAlerts c w) = gauges w.
Proof.
  unfold checkConverterAlerts. cbv zeta.
  destruct (0 <? _)%nat;
    [unfold renderAlerts; rewrite gauges_call|]; apply gauges_addAlerts.
Qed.

Lemma gauges_set (v e : jsval) (w : world) :
  gauges (setEfficiencyGauge e (setVoltageGauge v w))
  = (match voltageGauge w with Some _ => Some v | None => None end,
     match efficiencyGauge w with Some _ => Some e | None => None end).
Proof.
  destruct w as [alerts chart canvas vg eg storage calls now rand].
  destruct vg, eg; reflexivity.
Qed.

(** After an update the gauges, where they exist, hold the generated output
    voltage and efficiency. *)
Lemma gauges_updateDashboard (w : world) :
  gauges (updateDashboard Math_sin getHours toLocaleTimeString parseInt_text w)
  = (match voltageGauge w with
     | Some _ =>
         Some (JNum (Converter.outputVoltage
                       (generated Math_sin getHours parseInt_text w)))
     | None => None
     end,
     match efficiencyGauge w with
     | Some _ =>
         Some (JNum (Converter.efficiency
                       (generated Math_sin getHours parseInt_text w)))
     | None => None
     end).
Proof.
  unfold updateDashboard, generated.
  pose proof (generateSensorData_world Math_sin getHours parseInt_text w) as Hw.
  destruct (generateSensorData Math_sin getHours parseInt_text w)
    as [data w1]. cbn [fst snd] in *. cbv zeta.
  rewrite gauges_checkConverterAlerts, gauges_updateChartData, gauges_set.
  match goal with
  | |- context [voltageGauge ?x] =>
      assert (G : gauges x = gauges w1)
  end.
  { rewrite gauges_updateConverterMetrics.
    rewrite !gauges_call, !gauges_updateMetricCard, !gauges_call.
    reflexivity. }
  unfold gauges in G. apply pair_equal_spec in G. destruct G as [-> ->].
  rewrite Hw. reflexivity.
Qed.

Ltac scale_of_gauge :=
  cbv beta iota zeta delta
      [voltageGaugeOf efficiencyGaugeOf CircularGauge.progress
       CircularGauge.endAngle CircularGauge.setValue CircularGauge.create
       CircularGauge.min CircularGauge.max CircularGauge.value truthy
       Number_of].

(** X15: on the synthetic pipeline the gauges stay on their scale: after an
    update each gauge that exists holds the generated value, its progress
    is a fraction of the scale (0.42 to 0.47 of 60 V, 0.92 to 0.97 of
    100 %), and the arc ends between its start at 0.75 pi and the end of
    the dial at 2.25 pi. *)
Theorem gauges_stay_on_scale (w : world) :
  fair (random w) ->
  let w' :=
    updateDashboard Math_sin getHours toLocaleTimeString parseInt_text w in
  let c := generated Math_sin getHours parseInt_text w in
  (voltageGauge w <> None ->
   voltageGauge w' = Some (JNum (Converter.outputVoltage c))
   /\ within 0.42%js 0.47%js
             (CircularGauge.progress
                (voltageGaugeOf (JNum (Converter.outputVoltage c))))
   /\ within (0.75 * Math_PI)%js (2.25 * Math_PI)%js
             (CircularGauge.endAngle
                (voltageGaugeOf (JNum (Converter.outputVoltage c)))))
  /\ (efficiencyGauge w <> None ->
      efficiencyGauge w' = Some (JNum (Converter.efficiency c))
      /\ within 0.92%js 0.97%js
                (CircularGauge.progress
                   (efficiencyGaugeOf (JNum (Converter.efficiency c))))
      /\ within (0.75 * Math_PI)%js (2.25 * Math_PI)%js
                (CircularGauge.endAngle
                   (efficiencyGaugeOf (JNum (Converter.efficiency c))))).
Proof.
  intros Hf. cbv zeta.
  pose proof (gauges_updateDashboard w) as G. unfold gauges in G.
  apply pair_equal_spec in G. destruct G as [Gv Ge].
  pose proof (generated_bounds Math_sin getHours parseInt_text w Hf)
    as (_ & Hv & _ & _ & _ & _ & He).
  set (c := generated Math_sin getHours parseInt_text w) in *. clearbody c.
  set (v := Converter.outputVoltage c) in *.
  set (e := Converter.efficiency c) in *. clearbody v e.
  split; intros Hex.
  - split; [rewrite Gv; destruct (voltageGauge w); congruence|].
    scale_of_gauge. split; spanned.
  - split; [rewrite Ge; destruct (efficiencyGauge w); congruence|].
    scale_of_gauge. split; spanned.
Qed.

End Energy.

Lemma host_sample :
  host (fun _ => S754_zero false) evening (fun _ => S754_nan).
Proof.
  split; [|split]; try (intros t; reflexivity).
  intros x _. unfold within. repeat split; try reflexivity;
    apply Z.leb_le; vm_compute; reflexivity.
Qed.

Lemma generateSensorData_energy_fields_witness :
  fair (random (startWorld [0.5%js]))
  /\ host (fun _ => S754_zero false) evening (fun _ => S754_nan)
  /\ within 5.5%js 12%js
            (Reading.consumption
               (fst (generateSensorData (fun _ => S754_zero false) evening
                                        (fun _ => S754_nan)
                                        (startWorld [0.5%js])))).
Proof.
  assert (H : fair (random (startWorld [0.5%js]))) by (intros i; reflexivity).
  split; [exact H|]. split; [exact host_sample|].
  exact (proj1 (proj2 (generateSensorData_energy_fields
                         (fun _ => S754_zero false) evening
                         (fun _ => S754_nan) (startWorld [0.5%js]) H
                         host_sample))).
Defined.

Lemma updateBatteryIndicator_never_red_witness :
  fair (random (startWorld [0.5%js]))
  /\ snd (updateBatteryIndicator
            (JNum (Reading.batteryLevel
                     (fst (generateSensorData (fun _ => S754_zero false)
                                              evening (fun _ => S754_nan)
                                              (startWorld [0.5%js]))))))
     <> RedGradient.
Proof.
  assert (H : fair (random (startWorld [0.5%js]))) by (intros i; reflexivity).
  split; [exact H|].
  exact (proj2 (updateBatteryIndicator_never_red
                  (fun _ => S754_zero false) evening
                  (fun _ => S754_nan) (startWorld [0.5%js]) H host_sample)).
Defined.

Lemma gauges_stay_on_scale_witness :
  fair (random (startWorld [0.5%js]))
  /\ voltageGauge (startWorld [0.5%js]) <> None
  /\ voltageGauge
       (updateDashboard noSine evening eveningLabel parsePlain
                        (startWorld [0.5%js]))
     = Some (JNum (Converter.outputVoltage
                     (generated noSine evening parsePlain
                                (startWorld [0.5%js])))).
Proof.
  assert (H : fair (random (startWorld [0.5%js]))) by (intros i; reflexivity).
  assert (N : voltageGauge (startWorld [0.5%js]) <> None) by discriminate.
  split; [exact H|]. split; [exact N|].
  exact (proj1 (proj1 (gauges_stay_on_scale noSine evening eveningLabel
                         parsePlain (startWorld [0.5%js]) H) N)).
Defined.

(** ** The injected alert *)

(** [Math.floor(Math.random() * c)] is a whole number from 0 to [n - 1]
    when the largest draw times [c] rounds below [n]. *)
Lemma floor_draw (r c : number) (n : Z) :
  unit_draw r = true -> nonneg c = true ->
  fin (S754_zero false * c)%js = true -> fin (below_one * c)%js = true ->
  R (S754_zero false * c)%js = 0 -> R (below_one * c)%js < n * 2 ^ scale ->
  0 < n < 2 ^ 52 ->
  exists k, toZ (Math_floor (r * c)%js) = Some k /\ 0 <= k < n.
Proof.
  intros Hr Nc F0 F1 E0 U Bn. apply unit_draw_below in Hr.
  assert (Hs : 0 < 2 ^ scale) by (apply pow2_pos; unfold scale; lia).
  destruct (within_mul_r _ _ _ _ Hr Nc F0 F1) as (_ & _ & Fx & Lx & Ux).
  rewrite E0 in Lx.
  set (x := (r * c)%js) in *. clearbody x.
  assert (Hb : Z.abs (R x) < 2 ^ 52 * 2 ^ scale).
  { clear - Lx Ux U Bn Hs. rewrite Z.abs_eq by lia. nia. }
  destruct (floor_R x Fx Hb) as (_ & _ & Ez).
  pose proof (whole_bounds (R x)) as Hw.
  exists (whole (R x)). split; [exact Ez|].
  clear - Lx Ux U Hw Hs. nia.
Qed.

(** The index [Math.floor(Math.random() * alertTypes.length)] is always an
    index of the array: a draw below 1 times the length rounds to a number
    below the length. *)
Lemma template_chosen (v : variant) (r : number) :
  unit_draw r = true ->
  exists a,
    element (alertTypes v) (Math_floor (r * length_of (alertTypes v)))
    = Some a
    /\ In a (alertTypes v).
Proof.
  intros Hr.
  assert (Hk : exists k,
             toZ (Math_floor (r * length_of (alertTypes v))%js) = Some k
             /\ 0 <= k < Z.of_nat (List.length (alertTypes v))).
  { destruct v; apply (floor_draw _ _ _ Hr);
      try (vm_compute; reflexivity); cbn; lia. }
  destruct Hk as (k & Ez & Hk).
  unfold element. rewrite Ez.
  destruct (Z.leb_spec 0 k) as [_|C]; [|lia].
  destruct (nth_error (alertTypes v) (Z.to_nat k)) as [a|] eqn:E.
  - exists a. split; [reflexivity|]. exact (nth_error_In _ _ E).
  - apply nth_error_None in E. lia.
Qed.

(** X16: an update injects at most one alert, and an injected alert is
    always one of the templates of the script, put at the front with the
    clock as its time: the random index never leaves the array, so no
    alert with undefined fields is ever shown. *)
Theorem generateRandomAlert_adds_template (v : variant) (w : world) :
  fair (random w) ->
  systemAlerts (generateRandomAlert v w) = systemAlerts w
  \/ exists a id,
       In a (alertTypes v)
       /\ systemAlerts (generateRandomAlert v w)
          = stamp id a (clock w) :: systemAlerts w.
Proof.
  intros Hf. unfold generateRandomAlert.
  destruct (List.length (systemAlerts w) <? 5)%nat; [|left; reflexivity].
  unfold Math_random. cbv zeta.
  cbn [random set_random stream pos].
  destruct (stream (random w) (pos (random w)) < chance v)%js;
    [|left; reflexivity].
  destruct (template_chosen v _ (Hf (S (pos (random w))))) as (a & Ea & Ia).
  rewrite Ea. right. exists a.
  destruct v; eexists; (split; [exact Ia|reflexivity]).
Qed.

Lemma generateRandomAlert_adds_template_witness :
  fair (random (startWorld [0%js]))
  /\ exists a id,
       In a (alertTypes ConverterAware)
       /\ systemAlerts (generateRandomAlert ConverterAware (startWorld [0%js]))
          = stamp id a (clock (startWorld [0%js]))
              :: systemAlerts (startWorld [0%js]).
Proof.
  assert (H : fair (random (startWorld [0%js]))) by (intros i; reflexivity).
  split; [exact H|].
  destruct (generateRandomAlert_adds_template ConverterAware
              (startWorld [0%js]) H) as [E|E]; [|exact E].
  apply (f_equal (@List.length _)) in E. vm_compute in E. discriminate E.
Defined.

(** ** The alerts of an evaluation *)

Lemma stamped_identifiers (draws : nat -> number) (now : number)
      (drafts : list Draft.t) :
  (forall i, unit_draw (draws i) = true) ->
  forall p,
    Forall (fun a => exists n k,
                Alert.id a = (now + n)%js /\ toZ n = Some k /\ 0 <= k < 1000)
           (stamped draws p now drafts).
Proof.
  intros Hd. induction drafts as [|d rest IH]; intros p; [constructor|].
  cbn [stamped]. constructor; [|apply IH].
  assert (Hk : exists k, toZ (Math_floor (draws p * 1000)%js) = Some k
                         /\ 0 <= k < 1000).
  { apply (floor_draw _ _ _ (Hd p)); try (vm_compute; reflexivity). lia. }
  destruct Hk as (k & Ez & Hk).
  exists (Math_floor (draws p * 1000)%js), k. auto.
Qed.

Lemma stamped_timestamps (draws : nat -> number) (now : number)
      (drafts : list Draft.t) :
  forall p, Forall (fun a => Alert.timestamp a = now)
                   (stamped draws p now drafts).
Proof.
  induction drafts as [|d rest IH]; intros p; constructor;
    [reflexivity|apply IH].
Qed.

(** C5, as the code has it: [checkConverterAlerts] itself makes an alert of
    every draft and puts it in front of [systemAlerts], the last draft
    first: each alert has the current time as its timestamp and the current
    time plus [Math.floor] of a fresh draw times 1000 as its identifier,
    which for draws in [0, 1) is a whole number from 0 to 999; the store is
    left as it was exactly when the reading raises no draft. *)
Theorem checkConverterAlerts_inserts (c : Converter.t) (w : world) :
  let w' := checkConverterAlerts c w in
  let fresh :=
    stamped (stream (random w)) (pos (random w)) (clock w)
            (converterAlerts c) in
  systemAlerts w' = rev fresh ++ systemAlerts w
  /\ map draft_of fresh = converterAlerts c
  /\ Forall (fun a => Alert.timestamp a = clock w) fresh
  /\ (fair (random w) ->
      Forall (fun a => exists n k,
                  Alert.id a = (clock w + n)%js
                  /\ toZ n = Some k /\ 0 <= k < 1000)
             fresh)
  /\ (systemAlerts w' = systemAlerts w <-> converterAlerts c = []).
Proof.
  cbv zeta. rewrite checkConverterAlerts_systemAlerts.
  destruct (addAlerts_stamped (converterAlerts c) w) as (Hs & _ & _).
  rewrite Hs.
  split; [reflexivity|]. split; [apply stamped_drafts|].
  split; [apply stamped_timestamps|].
  split; [intros Hf; apply stamped_identifiers, Hf|].
  pose proof (stamped_drafts (stream (random w)) (clock w) (converterAlerts c)
                (pos (random w))) as Hd.
  split.
  - intros H. apply (f_equal (@List.length _)) in H.
    rewrite length_app, length_rev in H.
    rewrite <- Hd.
    destruct (stamped _ _ _ _); [reflexivity|]. cbn [List.length] in H. lia.
  - intros H. rewrite H. reflexivity.
Qed.

Lemma checkConverterAlerts_inserts_witness :
  fair (random (startWorld [0.5%js]))
  /\ map Alert.id
         (systemAlerts
            (checkConverterAlerts lowEfficiency (startWorld [0.5%js])))
     = [1700000000500; 1; 2; 3]%js
  /\ Forall (fun a => exists n k,
                 Alert.id a = (clock (startWorld [0.5%js]) + n)%js
                 /\ toZ n = Some k /\ 0 <= k < 1000)
            (stamped (stream (random (startWorld [0.5%js])))
                     (pos (random (startWorld [0.5%js])))
                     (clock (startWorld [0.5%js]))
                     (converterAlerts lowEfficiency)).
Proof.
  assert (H : fair (random (startWorld [0.5%js]))) by (intros i; reflexivity).
  split; [exact H|].
  destruct (checkConverterAlerts_inserts lowEfficiency (startWorld [0.5%js]))
    as (Hs & _ & _ & Hid & _).
  split; [|exact (Hid H)].
  rewrite Hs. vm_compute. reflexivity.
Defined.
